(** * Disk image attachment and VIC-I snapshots of the VICE emulator

    A shallow embedding of [src/drive/driveimage.c] and
    [src/vic20/vic-snapshot.c], with the properties their specification
    states about them. *)

From Stdlib Require Import ZArith Lia.
From stdpp Require Import base option list gmap strings.

Open Scope Z_scope.

(** ** Shared helpers *)

(** [x] is one of the labels of a [case] group. *)
Definition is_case (x : Z) (labels : list Z) : bool :=
  existsb (Z.eqb x) labels.

(** Indexing a C array with an [unsigned int]: outside the array the access
    is undefined, which the embedding records as [None]. *)
Definition index {A} (l : list A) (i : Z) : option A :=
  if bool_decide (0 ≤ i) then l !! Z.to_nat i else None.

Module DriveImage.

(** ** Constants of the headers

    [diskimage.h], [drive.h] and [diskconstants.h] are not part of the
    sources at hand; the constants [driveimage.c] names are parameters. *)

(** Image format tags ([unsigned int]).  They are used as [case] labels, so
    the compiler requires them to be pairwise distinct. *)
Class DiskImageTypes := {
  DISK_IMAGE_TYPE_X64 : Z;
  DISK_IMAGE_TYPE_G64 : Z;
  DISK_IMAGE_TYPE_G71 : Z;
  DISK_IMAGE_TYPE_P64 : Z;
  DISK_IMAGE_TYPE_D64 : Z;
  DISK_IMAGE_TYPE_D67 : Z;
  DISK_IMAGE_TYPE_D71 : Z;
  DISK_IMAGE_TYPE_D81 : Z;
  DISK_IMAGE_TYPE_D80 : Z;
  DISK_IMAGE_TYPE_D82 : Z;
  DISK_IMAGE_TYPE_D90 : Z;
  DISK_IMAGE_TYPE_D1M : Z;
  DISK_IMAGE_TYPE_D2M : Z;
  DISK_IMAGE_TYPE_D4M : Z;
  DISK_IMAGE_TYPE_DHD : Z;
  disk_image_types_distinct :
    NoDup
      [DISK_IMAGE_TYPE_X64; DISK_IMAGE_TYPE_G64; DISK_IMAGE_TYPE_G71;
       DISK_IMAGE_TYPE_P64; DISK_IMAGE_TYPE_D64; DISK_IMAGE_TYPE_D67;
       DISK_IMAGE_TYPE_D71; DISK_IMAGE_TYPE_D81; DISK_IMAGE_TYPE_D80;
       DISK_IMAGE_TYPE_D82; DISK_IMAGE_TYPE_D90; DISK_IMAGE_TYPE_D1M;
       DISK_IMAGE_TYPE_D2M; DISK_IMAGE_TYPE_D4M; DISK_IMAGE_TYPE_DHD]
}.

(** Drive model codes. *)
Class DriveTypes := {
  DRIVE_TYPE_NONE : Z;
  DRIVE_TYPE_1540 : Z;
  DRIVE_TYPE_1541 : Z;
  DRIVE_TYPE_1541II : Z;
  DRIVE_TYPE_1551 : Z;
  DRIVE_TYPE_1570 : Z;
  DRIVE_TYPE_1571 : Z;
  DRIVE_TYPE_1571CR : Z;
  DRIVE_TYPE_1581 : Z;
  DRIVE_TYPE_2000 : Z;
  DRIVE_TYPE_4000 : Z;
  DRIVE_TYPE_CMDHD : Z;
  DRIVE_TYPE_2031 : Z;
  DRIVE_TYPE_2040 : Z;
  DRIVE_TYPE_3040 : Z;
  DRIVE_TYPE_4040 : Z;
  DRIVE_TYPE_1001 : Z;
  DRIVE_TYPE_8050 : Z;
  DRIVE_TYPE_8250 : Z;
  DRIVE_TYPE_9000 : Z
}.

(** Build configuration and sizes: [HAVE_X64_IMAGE] says whether the macro
    of that name is defined. *)
Class DriveConfig := {
  HAVE_X64_IMAGE : bool;
  NUM_DISK_UNITS : Z;
  MAX_GCR_TRACKS : nat;
  DRIVE_EXTEND_ASK : Z
}.

(** ** Data *)

(** A pointer to a caller-owned [disk_image_t]; [None] is [NULL]. *)
Definition ptr : Type := option nat.
Definition NULL : ptr := None.

(** [drive->gcr] and [drive->p64] never change while a drive exists: a
    pointer to either buffer is identified with the drive, unit index and
    drive index, that owns it. *)
Definition drive_ref : Type := Z * Z.

(** [disk_track_t]: [data] is [None] for a [NULL] buffer. *)
Record disk_track_t := {
  data : option (list Z);
  size : Z
}.

(** The fields of [disk_image_t] that [driveimage.c] touches. *)
Record disk_image_t := {
  img_type : Z;
  img_read_only : Z;
  img_gcr : option drive_ref;
  img_p64 : option drive_ref
}.

(** The fields of [drive_t] that [driveimage.c] touches; [gcr] holds the
    contents of [drive->gcr->tracks]. *)
Record drive_t := {
  image : ptr;
  read_only : Z;
  attach_clk : Z;
  detach_clk : Z;
  attach_detach_clk : Z;
  ask_extend_disk_image : Z;
  GCR_image_loaded : Z;
  P64_image_loaded : Z;
  P64_dirty : Z;
  complicated_image_loaded : Z;
  gcr : list disk_track_t;
  current_half_track : Z;
  side : Z
}.

Record diskunit_context_t := {
  unit_type : Z;
  drives : list drive_t
}.

(** Calls that leave this file, in the order they are made. *)
Inductive event :=
| disk_image_attach_log (image : ptr) (unit drv : Z)
| disk_image_detach_log (image : ptr) (unit drv : Z)
| disk_image_read_image (image : ptr)
| disk_image_write_p64_image (image : ptr)
| log_error (dnr : Z) (msg : string)
| drive_gcr_data_writeback (dnr drv : Z)
| lib_free (dnr drv : Z) (i : nat)
| drive_set_half_track (num side : Z) (dnr drv : Z).

(** The globals [diskunit_context] and [diskunit_clk], the image descriptors
    the callers own, and the calls made so far. *)
Record state := {
  diskunit_context : list diskunit_context_t;
  diskunit_clk : list Z;
  images : gmap nat disk_image_t;
  trace : list event
}.

Definition set_image (v : ptr) (r : drive_t) : drive_t :=
  {| image := v; read_only := read_only r; attach_clk := attach_clk r; detach_clk :=
     detach_clk r; attach_detach_clk := attach_detach_clk r; ask_extend_disk_image
     := ask_extend_disk_image r; GCR_image_loaded := GCR_image_loaded r;
     P64_image_loaded := P64_image_loaded r; P64_dirty := P64_dirty r;
     complicated_image_loaded := complicated_image_loaded r; gcr := gcr r;
     current_half_track := current_half_track r; side := side r |}.

Definition set_read_only (v : Z) (r : drive_t) : drive_t :=
  {| image := image r; read_only := v; attach_clk := attach_clk r; detach_clk :=
     detach_clk r; attach_detach_clk := attach_detach_clk r; ask_extend_disk_image
     := ask_extend_disk_image r; GCR_image_loaded := GCR_image_loaded r;
     P64_image_loaded := P64_image_loaded r; P64_dirty := P64_dirty r;
     complicated_image_loaded := complicated_image_loaded r; gcr := gcr r;
     current_half_track := current_half_track r; side := side r |}.

Definition set_attach_clk (v : Z) (r : drive_t) : drive_t :=
  {| image := image r; read_only := read_only r; attach_clk := v; detach_clk :=
     detach_clk r; attach_detach_clk := attach_detach_clk r; ask_extend_disk_image
     := ask_extend_disk_image r; GCR_image_loaded := GCR_image_loaded r;
     P64_image_loaded := P64_image_loaded r; P64_dirty := P64_dirty r;
     complicated_image_loaded := complicated_image_loaded r; gcr := gcr r;
     current_half_track := current_half_track r; side := side r |}.

Definition set_detach_clk (v : Z) (r : drive_t) : drive_t :=
  {| image := image r; read_only := read_only r; attach_clk := attach_clk r;
     detach_clk := v; attach_detach_clk := attach_detach_clk r;
     ask_extend_disk_image := ask_extend_disk_image r; GCR_image_loaded :=
     GCR_image_loaded r; P64_image_loaded := P64_image_loaded r; P64_dirty :=
     P64_dirty r; complicated_image_loaded := complicated_image_loaded r; gcr := gcr
     r; current_half_track := current_half_track r; side := side r |}.

Definition set_attach_detach_clk (v : Z) (r : drive_t) : drive_t :=
  {| image := image r; read_only := read_only r; attach_clk := attach_clk r;
     detach_clk := detach_clk r; attach_detach_clk := v; ask_extend_disk_image :=
     ask_extend_disk_image r; GCR_image_loaded := GCR_image_loaded r;
     P64_image_loaded := P64_image_loaded r; P64_dirty := P64_dirty r;
     complicated_image_loaded := complicated_image_loaded r; gcr := gcr r;
     current_half_track := current_half_track r; side := side r |}.

Definition set_ask_extend_disk_image (v : Z) (r : drive_t) : drive_t :=
  {| image := image r; read_only := read_only r; attach_clk := attach_clk r;
     detach_clk := detach_clk r; attach_detach_clk := attach_detach_clk r;
     ask_extend_disk_image := v; GCR_image_loaded := GCR_image_loaded r;
     P64_image_loaded := P64_image_loaded r; P64_dirty := P64_dirty r;
     complicated_image_loaded := complicated_image_loaded r; gcr := gcr r;
     current_half_track := current_half_track r; side := side r |}.

Definition set_GCR_image_loaded (v : Z) (r : drive_t) : drive_t :=
  {| image := image r; read_only := read_only r; attach_clk := attach_clk r;
     detach_clk := detach_clk r; attach_detach_clk := attach_detach_clk r;
     ask_extend_disk_image := ask_extend_disk_image r; GCR_image_loaded := v;
     P64_image_loaded := P64_image_loaded r; P64_dirty := P64_dirty r;
     complicated_image_loaded := complicated_image_loaded r; gcr := gcr r;
     current_half_track := current_half_track r; side := side r |}.

Definition set_P64_image_loaded (v : Z) (r : drive_t) : drive_t :=
  {| image := image r; read_only := read_only r; attach_clk := attach_clk r;
     detach_clk := detach_clk r; attach_detach_clk := attach_detach_clk r;
     ask_extend_disk_image := ask_extend_disk_image r; GCR_image_loaded :=
     GCR_image_loaded r; P64_image_loaded := v; P64_dirty := P64_dirty r;
     complicated_image_loaded := complicated_image_loaded r; gcr := gcr r;
     current_half_track := current_half_track r; side := side r |}.

Definition set_P64_dirty (v : Z) (r : drive_t) : drive_t :=
  {| image := image r; read_only := read_only r; attach_clk := attach_clk r;
     detach_clk := detach_clk r; attach_detach_clk := attach_detach_clk r;
     ask_extend_disk_image := ask_extend_disk_image r; GCR_image_loaded :=
     GCR_image_loaded r; P64_image_loaded := P64_image_loaded r; P64_dirty := v;
     complicated_image_loaded := complicated_image_loaded r; gcr := gcr r;
     current_half_track := current_half_track r; side := side r |}.

Definition set_complicated_image_loaded (v : Z) (r : drive_t) : drive_t :=
  {| image := image r; read_only := read_only r; attach_clk := attach_clk r;
     detach_clk := detach_clk r; attach_detach_clk := attach_detach_clk r;
     ask_extend_disk_image := ask_extend_disk_image r; GCR_image_loaded :=
     GCR_image_loaded r; P64_image_loaded := P64_image_loaded r; P64_dirty :=
     P64_dirty r; complicated_image_loaded := v; gcr := gcr r; current_half_track :=
     current_half_track r; side := side r |}.

Definition set_gcr (v : list disk_track_t) (r : drive_t) : drive_t :=
  {| image := image r; read_only := read_only r; attach_clk := attach_clk r;
     detach_clk := detach_clk r; attach_detach_clk := attach_detach_clk r;
     ask_extend_disk_image := ask_extend_disk_image r; GCR_image_loaded :=
     GCR_image_loaded r; P64_image_loaded := P64_image_loaded r; P64_dirty :=
     P64_dirty r; complicated_image_loaded := complicated_image_loaded r; gcr := v;
     current_half_track := current_half_track r; side := side r |}.

(** ** The external collaborators

    [disk_image_read_image] and [disk_image_write_p64_image] live outside
    this file.  What they return, and what the reader leaves in each track
    slot of the buffers the image borrows, is a parameter. *)
Class DiskImageIO := {
  disk_image_read_image_result : disk_image_t → Z;
  disk_image_read_image_track : disk_image_t → nat → disk_track_t → disk_track_t;
  disk_image_write_p64_image_result : option disk_image_t → Z
}.

(** ** Statements over the global state

    A computation either runs into undefined behaviour ([None]: a [NULL] or
    dangling pointer is dereferenced, an array is indexed outside its
    bounds) or yields a value and the next state. *)
Definition M (A : Type) : Type := state → option (A * state).

#[global] Instance M_ret : MRet M := λ A a st, Some (a, st).
#[global] Instance M_bind : MBind M := λ A B f m st,
  match m st with
  | Some (a, st') => f a st'
  | None => None
  end.

Definition undefined {A} : M A := λ _, None.

Definition lift {A} (o : option A) : M A := λ st,
  match o with
  | Some a => Some (a, st)
  | None => None
  end.

Definition get : M state := λ st, Some (st, st).

(** [diskunit_context[dnr]] *)
Definition load_unit (dnr : Z) : M diskunit_context_t :=
  st ← get; lift (index (diskunit_context st) dnr).

(** [*diskunit_context[dnr]->drives[drv]] *)
Definition load_drive (dnr drv : Z) : M drive_t :=
  unit ← load_unit dnr; lift (index (drives unit) drv).

(** [diskunit_clk[dnr]] *)
Definition load_clk (dnr : Z) : M Z :=
  st ← get; lift (index (diskunit_clk st) dnr).

(** [*image] *)
Definition load_image (image : ptr) : M disk_image_t :=
  st ← get; lift (a ← image; images st !! a).

Definition set_drives (v : list drive_t) (u : diskunit_context_t) :=
  {| unit_type := unit_type u; drives := v |}.

(** An assignment through the drive pointer. *)
Definition store_drive (dnr drv : Z) (f : drive_t → drive_t) : M () := λ st,
  unit ← index (diskunit_context st) dnr;
  drive ← index (drives unit) drv;
  Some (tt,
        {| diskunit_context :=
             <[Z.to_nat dnr := set_drives (<[Z.to_nat drv := f drive]> (drives unit)) unit]>
               (diskunit_context st);
           diskunit_clk := diskunit_clk st;
           images := images st;
           trace := trace st |}).

(** An assignment through the image pointer. *)
Definition store_image (image : ptr) (f : disk_image_t → disk_image_t) : M () := λ st,
  a ← image;
  img ← images st !! a;
  Some (tt,
        {| diskunit_context := diskunit_context st;
           diskunit_clk := diskunit_clk st;
           images := <[a := f img]> (images st);
           trace := trace st |}).

Definition set_img_gcr (v : option drive_ref) (r : disk_image_t) : disk_image_t :=
  {| img_type := img_type r; img_read_only := img_read_only r;
     img_gcr := v; img_p64 := img_p64 r |}.

Definition set_img_p64 (v : option drive_ref) (r : disk_image_t) : disk_image_t :=
  {| img_type := img_type r; img_read_only := img_read_only r;
     img_gcr := img_gcr r; img_p64 := v |}.

Definition set_data (v : option (list Z)) (t : disk_track_t) : disk_track_t :=
  {| data := v; size := size t |}.

Definition set_size (v : Z) (t : disk_track_t) : disk_track_t :=
  {| data := data t; size := v |}.

(** [drive->gcr->tracks[i].field = v] *)
Definition set_track (i : nat) (f : disk_track_t → disk_track_t) (d : drive_t) : drive_t :=
  set_gcr (alter f i (gcr d)) d.

(** A call that leaves the file. *)
Definition call (e : event) : M () := λ st,
  Some (tt,
        {| diskunit_context := diskunit_context st;
           diskunit_clk := diskunit_clk st;
           images := images st;
           trace := trace st ++ [e] |}).

(** The drive a unit index and a drive index name. *)
Definition drive_of (us : list diskunit_context_t) (dnr drv : Z) : option drive_t :=
  u ← index us dnr; index (drives u) drv.

Definition drive_at (st : state) (dnr drv : Z) : option drive_t :=
  drive_of (diskunit_context st) dnr drv.

(** The units with drive [drv] of unit [dnr] replaced by [d]. *)
Definition put_drive (dnr drv : Z) (d : drive_t) (us : list diskunit_context_t)
  : list diskunit_context_t :=
  match index us dnr with
  | Some u => <[Z.to_nat dnr := set_drives (<[Z.to_nat drv := d]> (drives u)) u]> us
  | None => us
  end.

(** The detached state of a drive: no image, neither kind of image loaded. *)
Definition Empty (d : drive_t) : Prop :=
  image d = NULL ∧ GCR_image_loaded d = 0 ∧ P64_image_loaded d = 0.


Infix "!=?" := (λ x y : Z, negb (Z.eqb x y)) (at level 70, no associativity).

Section Code.
Context `{DiskImageTypes} `{DriveTypes} `{DriveConfig} `{DiskImageIO}.

(** The [case DISK_IMAGE_TYPE_X64:] label is compiled only under
    [HAVE_X64_IMAGE]. *)
Definition case_X64 : list Z :=
  if HAVE_X64_IMAGE then [DISK_IMAGE_TYPE_X64] else [].

Definition drive_image_type_to_drive_type (type : Z) : Z :=
  if is_case type [DISK_IMAGE_TYPE_G64; DISK_IMAGE_TYPE_P64; DISK_IMAGE_TYPE_D64]
  then DRIVE_TYPE_1541II
  else if is_case type [DISK_IMAGE_TYPE_G71; DISK_IMAGE_TYPE_D71]
  then DRIVE_TYPE_1571
  else if is_case type [DISK_IMAGE_TYPE_D81]
  then DRIVE_TYPE_1581
  else if is_case type [DISK_IMAGE_TYPE_D1M; DISK_IMAGE_TYPE_D2M]
  then DRIVE_TYPE_2000
  else if is_case type [DISK_IMAGE_TYPE_D4M]
  then DRIVE_TYPE_4000
  else if is_case type [DISK_IMAGE_TYPE_D67]
  then DRIVE_TYPE_2040
  else if is_case type [DISK_IMAGE_TYPE_D80]
  then DRIVE_TYPE_8050
  else if is_case type [DISK_IMAGE_TYPE_D82]
  then DRIVE_TYPE_8250
  else if is_case type [DISK_IMAGE_TYPE_D90]
  then DRIVE_TYPE_9000
  else if is_case type [DISK_IMAGE_TYPE_DHD]
  then DRIVE_TYPE_CMDHD
  else DRIVE_TYPE_NONE.

Definition drive_check_image_format (format dnr : Z) : M Z :=
  unit ← load_unit dnr;
  if is_case format
       ([DISK_IMAGE_TYPE_D64; DISK_IMAGE_TYPE_G64; DISK_IMAGE_TYPE_P64] ++ case_X64)
  then
    if (unit_type unit !=? DRIVE_TYPE_1540)
       && (unit_type unit !=? DRIVE_TYPE_1541)
       && (unit_type unit !=? DRIVE_TYPE_1541II)
       && (unit_type unit !=? DRIVE_TYPE_1551)
       && (unit_type unit !=? DRIVE_TYPE_1570)
       && (unit_type unit !=? DRIVE_TYPE_1571)
       && (unit_type unit !=? DRIVE_TYPE_1571CR)
       && (unit_type unit !=? DRIVE_TYPE_2031)
       && (unit_type unit !=? DRIVE_TYPE_2040)
       && (unit_type unit !=? DRIVE_TYPE_3040)
       && (unit_type unit !=? DRIVE_TYPE_4040)
    then mret (-1) else mret 0
  else if is_case format [DISK_IMAGE_TYPE_G71]
  then
    if (unit_type unit !=? DRIVE_TYPE_1571)
       && (unit_type unit !=? DRIVE_TYPE_1571CR)
    then mret (-1) else mret 0
  else if is_case format [DISK_IMAGE_TYPE_D67]
  then
    if (unit_type unit !=? DRIVE_TYPE_1540)
       && (unit_type unit !=? DRIVE_TYPE_1541)
       && (unit_type unit !=? DRIVE_TYPE_1541II)
       && (unit_type unit !=? DRIVE_TYPE_1551)
       && (unit_type unit !=? DRIVE_TYPE_1570)
       && (unit_type unit !=? DRIVE_TYPE_1571)
       && (unit_type unit !=? DRIVE_TYPE_1571CR)
       && (unit_type unit !=? DRIVE_TYPE_2031)
       && (unit_type unit !=? DRIVE_TYPE_2040)
       && (unit_type unit !=? DRIVE_TYPE_3040)
       && (unit_type unit !=? DRIVE_TYPE_4040)
    then mret (-1) else mret 0
  else if is_case format [DISK_IMAGE_TYPE_D71]
  then
    if (unit_type unit !=? DRIVE_TYPE_1571)
       && (unit_type unit !=? DRIVE_TYPE_1571CR)
    then mret (-1) else mret 0
  else if is_case format [DISK_IMAGE_TYPE_D81]
  then
    if (unit_type unit !=? DRIVE_TYPE_1581)
       && (unit_type unit !=? DRIVE_TYPE_2000)
       && (unit_type unit !=? DRIVE_TYPE_4000)
    then mret (-1) else mret 0
  else if is_case format [DISK_IMAGE_TYPE_D80; DISK_IMAGE_TYPE_D82]
  then
    if (unit_type unit !=? DRIVE_TYPE_1001)
       && (unit_type unit !=? DRIVE_TYPE_8050)
       && (unit_type unit !=? DRIVE_TYPE_8250)
    then mret (-1) else mret 0
  else if is_case format [DISK_IMAGE_TYPE_D90]
  then
    if unit_type unit !=? DRIVE_TYPE_9000
    then mret (-1) else mret 0
  else if is_case format [DISK_IMAGE_TYPE_D1M; DISK_IMAGE_TYPE_D2M; DISK_IMAGE_TYPE_D4M]
  then
    if (unit_type unit !=? DRIVE_TYPE_2000)
       && (unit_type unit !=? DRIVE_TYPE_4000)
    then mret (-1) else mret 0
  else if is_case format [DISK_IMAGE_TYPE_DHD]
  then
    if unit_type unit !=? DRIVE_TYPE_CMDHD
    then mret (-1) else mret 0
  else mret (-1).

(** [disk_image_read_image(image)]: the call is recorded, the reader leaves
    its data in the track buffers [image->gcr] points to, and its status is
    returned. *)
Definition call_disk_image_read_image (image : ptr) : M Z :=
  img ← load_image image;
  call (disk_image_read_image image);;
  match img_gcr img with
  | Some (dnr, drv) =>
      store_drive dnr drv
        (λ d, set_gcr (imap (disk_image_read_image_track img) (gcr d)) d)
  | None => mret ()
  end;;
  mret (disk_image_read_image_result img).

(** [disk_image_write_p64_image(image)]: recorded, status returned. *)
Definition call_disk_image_write_p64_image (image : ptr) : M Z :=
  st ← get;
  call (disk_image_write_p64_image image);;
  mret (disk_image_write_p64_image_result (a ← image; images st !! a)).

(** Attach a disk image to the true drive emulation. *)
Definition drive_image_attach (image : ptr) (unit drv : Z) : M Z :=
  if bool_decide (unit < 8 ∨ unit >= 8 + NUM_DISK_UNITS) then mret (-1) else
  let dnr := unit - 8 in
  _ ← load_drive dnr drv;
  img ← load_image image;
  r ← drive_check_image_format (img_type img) dnr;
  if r <? 0 then mret (-1) else
  img ← load_image image;
  store_drive dnr drv (set_read_only (img_read_only img));;
  clk ← load_clk dnr;
  store_drive dnr drv (set_attach_clk clk);;
  drive ← load_drive dnr drv;
  (if detach_clk drive >? 0
   then clk ← load_clk dnr; store_drive dnr drv (set_attach_detach_clk clk)
   else mret ());;
  store_drive dnr drv (set_ask_extend_disk_image DRIVE_EXTEND_ASK);;
  img ← load_image image;
  if is_case (img_type img)
       ([DISK_IMAGE_TYPE_D64; DISK_IMAGE_TYPE_D67; DISK_IMAGE_TYPE_D71;
         DISK_IMAGE_TYPE_G64; DISK_IMAGE_TYPE_G71]
        ++ case_X64 ++ [DISK_IMAGE_TYPE_P64])
  then
    call (disk_image_attach_log image unit drv);;
    store_drive dnr drv (set_image image);;
    drive ← load_drive dnr drv;
    store_image (DriveImage.image drive) (set_img_gcr (Some (dnr, drv)));;
    store_image (DriveImage.image drive) (set_img_p64 (Some (dnr, drv)));;
    r ← call_disk_image_read_image (DriveImage.image drive);
    if r <? 0 then
      store_drive dnr drv (set_image NULL);;
      mret (-1)
    else
      drive ← load_drive dnr drv;
      img ← load_image (DriveImage.image drive);
      (if img_type img =? DISK_IMAGE_TYPE_P64
       then store_drive dnr drv (set_P64_image_loaded 1);;
            store_drive dnr drv (set_P64_dirty 0)
       else store_drive dnr drv (set_GCR_image_loaded 1));;
      drive ← load_drive dnr drv;
      img ← load_image (DriveImage.image drive);
      store_drive dnr drv
        (set_complicated_image_loaded
           (Z.b2z ((img_type img =? DISK_IMAGE_TYPE_P64)
                   || (img_type img =? DISK_IMAGE_TYPE_G64)
                   || (img_type img =? DISK_IMAGE_TYPE_G71))));;
      drive ← load_drive dnr drv;
      call (drive_set_half_track (current_half_track drive) (side drive) dnr drv);;
      mret 0
  else mret (-1).

(** The loop [for (i = 0; i < MAX_GCR_TRACKS; i++)] of the detach routine,
    from index [i] with [n] iterations to go. *)
Fixpoint free_tracks (dnr drv : Z) (i n : nat) : M () :=
  match n with
  | O => mret ()
  | S n' =>
      drive ← load_drive dnr drv;
      t ← lift (gcr drive !! i);
      (if data t is Some _
       then call (lib_free dnr drv i);;
            store_drive dnr drv (set_track i (set_data None));;
            store_drive dnr drv (set_track i (set_size 0))
       else mret ());;
      free_tracks dnr drv (S i) n'
  end.

(** The detach routine from the write-back on, once the format check has
    let the call through. *)
Definition drive_image_detach_teardown (unit drv : Z) : M Z :=
  let dnr := unit - 8 in
  drive ← load_drive dnr drv;
  (if (P64_image_loaded drive !=? 0) && (P64_dirty drive !=? 0)
   then
     store_drive dnr drv (set_P64_dirty 0);;
     drive ← load_drive dnr drv;
     r ← call_disk_image_write_p64_image (DriveImage.image drive);
     if r <? 0 then call (log_error dnr "Cannot write disk image back.") else mret ()
   else call (drive_gcr_data_writeback dnr drv));;
  free_tracks dnr drv 0 MAX_GCR_TRACKS;;
  clk ← load_clk dnr;
  store_drive dnr drv (set_detach_clk clk);;
  store_drive dnr drv (set_GCR_image_loaded 0);;
  store_drive dnr drv (set_P64_image_loaded 0);;
  store_drive dnr drv (set_read_only 0);;
  store_drive dnr drv (set_image NULL);;
  drive ← load_drive dnr drv;
  call (drive_set_half_track (current_half_track drive) (side drive) dnr drv);;
  mret 0.

(** Detach a disk image from the true drive emulation. *)
Definition drive_image_detach (image : ptr) (unit drv : Z) : M Z :=
  if bool_decide (unit < 8 ∨ unit >= 8 + NUM_DISK_UNITS) then mret (-1) else
  let dnr := unit - 8 in
  drive ← load_drive dnr drv;
  match DriveImage.image drive with
  | Some _ =>
      img ← load_image image;
      if is_case (img_type img)
           ([DISK_IMAGE_TYPE_D64; DISK_IMAGE_TYPE_D67; DISK_IMAGE_TYPE_D71;
             DISK_IMAGE_TYPE_G64; DISK_IMAGE_TYPE_G71; DISK_IMAGE_TYPE_P64]
            ++ case_X64)
      then call (disk_image_detach_log image unit drv);;
           drive_image_detach_teardown unit drv
      else mret (-1)
  | None => drive_image_detach_teardown unit drv
  end.

(** *** The stages of the two routines

    What the attach routine has written into the drive and the image at each
    point where it may return, and what the detach routine leaves behind. *)

(** The formats the switch of the attach routine knows. *)
Definition attach_switch (type : Z) : bool :=
  is_case type
    ([DISK_IMAGE_TYPE_D64; DISK_IMAGE_TYPE_D67; DISK_IMAGE_TYPE_D71;
      DISK_IMAGE_TYPE_G64; DISK_IMAGE_TYPE_G71]
     ++ case_X64 ++ [DISK_IMAGE_TYPE_P64]).

Definition attach_stamped (img : disk_image_t) (clk : Z) (d : drive_t) : drive_t :=
  set_ask_extend_disk_image DRIVE_EXTEND_ASK
    (if detach_clk d >? 0
     then set_attach_detach_clk clk
            (set_attach_clk clk (set_read_only (img_read_only img) d))
     else set_attach_clk clk (set_read_only (img_read_only img) d)).

Definition attach_wired (dnr drv : Z) (img : disk_image_t) : disk_image_t :=
  set_img_p64 (Some (dnr, drv)) (set_img_gcr (Some (dnr, drv)) img).

Definition attach_read (a : nat) (img : disk_image_t) (d : drive_t) : drive_t :=
  set_gcr (imap (disk_image_read_image_track img) (gcr d)) (set_image (Some a) d).

Definition attach_loaded (img : disk_image_t) (d : drive_t) : drive_t :=
  set_complicated_image_loaded
    (Z.b2z ((img_type img =? DISK_IMAGE_TYPE_P64)
            || (img_type img =? DISK_IMAGE_TYPE_G64)
            || (img_type img =? DISK_IMAGE_TYPE_G71)))
    (if img_type img =? DISK_IMAGE_TYPE_P64
     then set_P64_dirty 0 (set_P64_image_loaded 1 d)
     else set_GCR_image_loaded 1 d).


(** What the loop over the track slots does to one slot, to the slots from
    [i] on in [n] iterations, and the calls of [lib_free] it makes. *)
Definition free_slot (t : disk_track_t) : disk_track_t :=
  if data t is Some _ then {| data := None; size := 0 |} else t.

Fixpoint freed (i n : nat) (g : list disk_track_t) : list disk_track_t :=
  match n with
  | O => g
  | S n' => freed (S i) n' (alter free_slot i g)
  end.

Fixpoint free_calls (dnr drv : Z) (i n : nat) (g : list disk_track_t) : list event :=
  match n with
  | O => []
  | S n' =>
      (if g !! i is Some {| data := Some _ |} then [lib_free dnr drv i] else [])
      ++ free_calls dnr drv (S i) n' (alter free_slot i g)
  end.

(** The formats the switch of the detach routine knows. *)
Definition detach_switch (type : Z) : bool :=
  is_case type
    ([DISK_IMAGE_TYPE_D64; DISK_IMAGE_TYPE_D67; DISK_IMAGE_TYPE_D71;
      DISK_IMAGE_TYPE_G64; DISK_IMAGE_TYPE_G71; DISK_IMAGE_TYPE_P64]
     ++ case_X64).

Definition p64_pending (d : drive_t) : bool :=
  (P64_image_loaded d !=? 0) && (P64_dirty d !=? 0).

Definition writeback_calls (dnr drv : Z) (d : drive_t) (res : Z) : list event :=
  if p64_pending d
  then disk_image_write_p64_image (image d)
       :: (if res <? 0 then [log_error dnr "Cannot write disk image back."] else [])
  else [drive_gcr_data_writeback dnr drv].

Definition detached (clk : Z) (d : drive_t) : drive_t :=
  let dw := if p64_pending d then set_P64_dirty 0 d else d in
  set_image NULL
    (set_read_only 0
       (set_P64_image_loaded 0
          (set_GCR_image_loaded 0
             (set_detach_clk clk (set_gcr (freed 0 MAX_GCR_TRACKS (gcr dw)) dw))))).

(** *** The tables of the specification

    The compatibility relation between image formats and drive models, row
    by row as the specification lists it; [x64] says whether the X64 format
    belongs to the first row. *)
Definition compat_table (x64 : bool) : list (list Z * list Z) :=
  let models_1541 :=
    [DRIVE_TYPE_1540; DRIVE_TYPE_1541; DRIVE_TYPE_1541II; DRIVE_TYPE_1551;
     DRIVE_TYPE_1570; DRIVE_TYPE_1571; DRIVE_TYPE_1571CR; DRIVE_TYPE_2031;
     DRIVE_TYPE_2040; DRIVE_TYPE_3040; DRIVE_TYPE_4040] in
  [ ([DISK_IMAGE_TYPE_D64; DISK_IMAGE_TYPE_G64; DISK_IMAGE_TYPE_P64]
       ++ (if x64 then [DISK_IMAGE_TYPE_X64] else []),
     models_1541);
    ([DISK_IMAGE_TYPE_G71; DISK_IMAGE_TYPE_D71],
     [DRIVE_TYPE_1571; DRIVE_TYPE_1571CR]);
    ([DISK_IMAGE_TYPE_D67], models_1541);
    ([DISK_IMAGE_TYPE_D81], [DRIVE_TYPE_1581; DRIVE_TYPE_2000; DRIVE_TYPE_4000]);
    ([DISK_IMAGE_TYPE_D80; DISK_IMAGE_TYPE_D82],
     [DRIVE_TYPE_1001; DRIVE_TYPE_8050; DRIVE_TYPE_8250]);
    ([DISK_IMAGE_TYPE_D90], [DRIVE_TYPE_9000]);
    ([DISK_IMAGE_TYPE_D1M; DISK_IMAGE_TYPE_D2M; DISK_IMAGE_TYPE_D4M],
     [DRIVE_TYPE_2000; DRIVE_TYPE_4000]);
    ([DISK_IMAGE_TYPE_DHD], [DRIVE_TYPE_CMDHD]) ].

(** The pair (format, model) is listed in the table. *)
Definition listed (x64 : bool) (format model : Z) : Prop :=
  Exists (λ row, format ∈ row.1 ∧ model ∈ row.2) (compat_table x64).

(** The format-to-model table of the specification. *)
Definition drive_type_table : list (Z * Z) :=
  [ (DISK_IMAGE_TYPE_D64, DRIVE_TYPE_1541II);
    (DISK_IMAGE_TYPE_G64, DRIVE_TYPE_1541II);
    (DISK_IMAGE_TYPE_P64, DRIVE_TYPE_1541II);
    (DISK_IMAGE_TYPE_D71, DRIVE_TYPE_1571);
    (DISK_IMAGE_TYPE_G71, DRIVE_TYPE_1571);
    (DISK_IMAGE_TYPE_D81, DRIVE_TYPE_1581);
    (DISK_IMAGE_TYPE_D1M, DRIVE_TYPE_2000);
    (DISK_IMAGE_TYPE_D2M, DRIVE_TYPE_2000);
    (DISK_IMAGE_TYPE_D4M, DRIVE_TYPE_4000);
    (DISK_IMAGE_TYPE_D67, DRIVE_TYPE_2040);
    (DISK_IMAGE_TYPE_D80, DRIVE_TYPE_8050);
    (DISK_IMAGE_TYPE_D82, DRIVE_TYPE_8250);
    (DISK_IMAGE_TYPE_D90, DRIVE_TYPE_9000);
    (DISK_IMAGE_TYPE_DHD, DRIVE_TYPE_CMDHD) ].

(** *** What a call leaves alone *)

(** Slot [i] of a track array holds a buffer. *)
Definition buffered (g : list disk_track_t) (i : nat) : Prop :=
  is_Some (g !! i ≫= data).

#[global] Instance buffered_dec g i : Decision (buffered g i).
Proof. unfold buffered. apply _. Defined.

(** [st'] differs from [st] at most in drive [drv] of unit [dnr] and in the
    calls made: the clocks, the number of units and their models, the
    number of drives of every unit and every other drive are the same, and
    the calls of [st] are the first calls of [st']. *)
Definition touches_only (dnr drv : Z) (st st' : state) : Prop :=
  diskunit_clk st' = diskunit_clk st
  ∧ length (diskunit_context st') = length (diskunit_context st)
  ∧ (∀ k, unit_type <$> index (diskunit_context st') k
          = unit_type <$> index (diskunit_context st) k)
  ∧ (∀ k, length ∘ drives <$> index (diskunit_context st') k
          = length ∘ drives <$> index (diskunit_context st) k)
  ∧ (∀ dnr' drv', (dnr', drv') ≠ (dnr, drv) →
       drive_at st' dnr' drv' = drive_at st dnr' drv')
  ∧ trace st `prefix_of` trace st'.

(** A detach changes its drive and adds calls; the image descriptors are
    not written. *)
Definition detach_frame (dnr drv : Z) (st st' : state) : Prop :=
  touches_only dnr drv st st' ∧ images st' = images st.

(** The clocks are the same and drive [drv] of unit [dnr], if there is
    one, is still there with as many track slots. *)
Definition slots_kept (dnr drv : Z) (st st' : state) : Prop :=
  diskunit_clk st' = diskunit_clk st
  ∧ ∀ d, drive_at st dnr drv = Some d →
         ∃ d', drive_at st' dnr drv = Some d' ∧ length (gcr d') = length (gcr d).

(** Every run of [m] that returns is related by [R]. *)
Definition keeps {A} (R : state → state → Prop) (m : M A) : Prop :=
  ∀ st a st', m st = Some (a, st') → R st st'.

(** The arrays as the emulator declares them: [diskunit_context] and
    [diskunit_clk] have [NUM_DISK_UNITS] entries, and every unit has a
    drive [drv] whose track array has [MAX_GCR_TRACKS] slots. *)
Definition well_formed (drv : Z) (st : state) : Prop :=
  Z.of_nat (length (diskunit_context st)) = NUM_DISK_UNITS
  ∧ Z.of_nat (length (diskunit_clk st)) = NUM_DISK_UNITS
  ∧ Forall (λ u, ∃ d, index (drives u) drv = Some d
                      ∧ length (gcr d) = MAX_GCR_TRACKS)
      (diskunit_context st).

End Code.

(** ** A concrete configuration

    One assignment of the constants, used to run the code on examples: the
    format tags and model codes are numbered after the drives they name. *)
Module Sample.

#[export] Instance image_types : DiskImageTypes := {|
  DISK_IMAGE_TYPE_X64 := 0;
  DISK_IMAGE_TYPE_G64 := 100;
  DISK_IMAGE_TYPE_G71 := 101;
  DISK_IMAGE_TYPE_P64 := 200;
  DISK_IMAGE_TYPE_D64 := 1541;
  DISK_IMAGE_TYPE_D67 := 2040;
  DISK_IMAGE_TYPE_D71 := 1571;
  DISK_IMAGE_TYPE_D81 := 1581;
  DISK_IMAGE_TYPE_D80 := 8050;
  DISK_IMAGE_TYPE_D82 := 8250;
  DISK_IMAGE_TYPE_D90 := 9000;
  DISK_IMAGE_TYPE_D1M := 1000;
  DISK_IMAGE_TYPE_D2M := 2000;
  DISK_IMAGE_TYPE_D4M := 4000;
  DISK_IMAGE_TYPE_DHD := 4844;
  disk_image_types_distinct := ltac:(by apply (bool_decide_unpack _))
|}.

#[export] Instance drive_types : DriveTypes := {|
  DRIVE_TYPE_NONE := 0;
  DRIVE_TYPE_1540 := 1540;
  DRIVE_TYPE_1541 := 1541;
  DRIVE_TYPE_1541II := 1542;
  DRIVE_TYPE_1551 := 1551;
  DRIVE_TYPE_1570 := 1570;
  DRIVE_TYPE_1571 := 1571;
  DRIVE_TYPE_1571CR := 1573;
  DRIVE_TYPE_1581 := 1581;
  DRIVE_TYPE_2000 := 2000;
  DRIVE_TYPE_4000 := 4000;
  DRIVE_TYPE_CMDHD := 4844;
  DRIVE_TYPE_2031 := 2031;
  DRIVE_TYPE_2040 := 2040;
  DRIVE_TYPE_3040 := 3040;
  DRIVE_TYPE_4040 := 4040;
  DRIVE_TYPE_1001 := 1001;
  DRIVE_TYPE_8050 := 8050;
  DRIVE_TYPE_8250 := 8250;
  DRIVE_TYPE_9000 := 9000
|}.

(** A build without [HAVE_X64_IMAGE], four units, four track slots. *)
#[export] Instance config : DriveConfig := {|
  HAVE_X64_IMAGE := false;
  NUM_DISK_UNITS := 4;
  MAX_GCR_TRACKS := 4;
  DRIVE_EXTEND_ASK := 2
|}.

(** The sample reader cannot read the file behind a D71 image; it leaves a
    two-byte buffer in the first two track slots and releases the others.
    Writing a P64 image back always fails. *)
#[export] Instance io : DiskImageIO := {|
  disk_image_read_image_result img :=
    if img_type img =? DISK_IMAGE_TYPE_D71 then -1 else 0;
  disk_image_read_image_track img i t :=
    if (i <? 2)%nat then {| data := Some [0; 0]; size := 2 |}
    else {| data := None; size := 0 |};
  disk_image_write_p64_image_result img := -1
|}.

Definition no_tracks : list disk_track_t :=
  replicate MAX_GCR_TRACKS {| data := None; size := 0 |}.

(** A drive with nothing attached. *)
Definition empty_drive : drive_t :=
  {| image := NULL; read_only := 0; attach_clk := 0; detach_clk := 0;
     attach_detach_clk := 0; ask_extend_disk_image := 0; GCR_image_loaded := 0;
     P64_image_loaded := 0; P64_dirty := 0; complicated_image_loaded := 0;
     gcr := no_tracks; current_half_track := 36; side := 0 |}.

(** An image descriptor as its parser hands it over. *)
Definition image_of (type read_only : Z) : disk_image_t :=
  {| img_type := type; img_read_only := read_only;
     img_gcr := None; img_p64 := None |}.

(** Four units of two drives; unit 8 is of model [model] and holds [drive]
    as its drive 0; the clock of unit 8 stands at 100; the caller owns one
    image descriptor, at address 1. *)
Definition machine (model : Z) (drive : drive_t) (img : disk_image_t) : state :=
  {| diskunit_context :=
       [ {| unit_type := model; drives := [drive; empty_drive] |};
         {| unit_type := DRIVE_TYPE_NONE; drives := [empty_drive; empty_drive] |};
         {| unit_type := DRIVE_TYPE_NONE; drives := [empty_drive; empty_drive] |};
         {| unit_type := DRIVE_TYPE_NONE; drives := [empty_drive; empty_drive] |} ];
     diskunit_clk := [100; 0; 0; 0];
     images := {[ 1%nat := img ]};
     trace := [] |}.

(** The sample machine after the attach of its image to drive 0 of unit 8. *)
Definition after_attach (st : state) : state :=
  match drive_image_attach (Some 1%nat) 8 0 st with
  | Some (_, st') => st'
  | None => st
  end.

(** A drive holding a P64 image that has been written to; its first track
    slot holds a buffer. *)
Definition dirty_p64_drive : drive_t :=
  {| image := Some 1%nat; read_only := 0; attach_clk := 40; detach_clk := 0;
     attach_detach_clk := 0; ask_extend_disk_image := DRIVE_EXTEND_ASK;
     GCR_image_loaded := 0; P64_image_loaded := 1; P64_dirty := 1;
     complicated_image_loaded := 1;
     gcr := {| data := Some [85; 85]; size := 2 |}
            :: replicate 3 {| data := None; size := 0 |};
     current_half_track := 36; side := 0 |}.

End Sample.

End DriveImage.

Module VicSnapshot.

(** ** The snapshot container

    [snapshot.c] is not part of the sources at hand.  The definitions of
    this part, down to the VIC-I state, carry its interface as the
    specification describes it. *)

(** Modelled from the spec: a snapshot module, which is missing from the
    sources, is a named, versioned record; it holds its name, the version
    stamp (major, minor) and the bytes of the fields, in the order they
    were written. *)
Record snapshot_module_t := {
  m_name : string;
  m_major : Z;
  m_minor : Z;
  m_data : list Z
}.

(** Modelled from the spec: a snapshot, which is missing from the sources,
    is a container of named modules. *)
Abbreviation snapshot_t := (list snapshot_module_t).

(** What the medium behind a snapshot does is outside the program: whether
    a module can be created, whether one more field can be written after
    the bytes so far, and what closing a module returns.  [CLOCK_WIDTH] is
    the number of bytes of a clock-width field. *)
Class SnapshotIO := {
  CLOCK_WIDTH : nat;
  snapshot_create_ok : snapshot_t → bool;
  snapshot_write_ok : list Z → bool;
  snapshot_module_close_result : snapshot_module_t → Z
}.

(** The C integer types of the fields. *)
Definition uint8_t (v : Z) : Z := v mod 2 ^ 8.
Definition uint16_t (v : Z) : Z := v mod 2 ^ 16.
Definition uint32_t (v : Z) : Z := v mod 2 ^ 32.

(** An unsigned 32-bit value stored into an [int]. *)
Definition int_of_dword (v : Z) : Z := if v <? 2 ^ 31 then v else v - 2 ^ 32.

(** Modelled from the spec: the fixed-width primitive fields of [snapshot.c],
    which is missing from the sources.  A field of [n] bytes holds its value
    least significant byte first. *)
Fixpoint le_bytes (n : nat) (v : Z) : list Z :=
  match n with
  | O => []
  | S n' => v mod 256 :: le_bytes n' (v / 256)
  end.

Fixpoint le_value (bytes : list Z) : Z :=
  match bytes with
  | [] => 0
  | b :: bytes' => b + 256 * le_value bytes'
  end.

(** A call that can fail: it yields [true] when the C function returns a
    negative value, and the state it leaves. *)
Definition op (S : Type) : Type := S → bool * S.

(** The leading [0] of a chain of [||]. *)
Definition never {S} : op S := λ s, (false, s).

(** [a < 0 || b < 0]: [b] is called only when [a] did not fail. *)
Definition orelse {S} (a b : op S) : op S := λ s,
  let '(failed, s') := a s in
  if failed then (true, s') else b s'.

Infix "|||" := orelse (at level 50, left associativity).

(** [m'] is [m] with [bytes] written after the bytes it held. *)
Definition extends (m m' : snapshot_module_t) (bytes : list Z) : Prop :=
  m_name m' = m_name m ∧ m_major m' = m_major m ∧ m_minor m' = m_minor m
  ∧ m_data m' = m_data m ++ bytes.

Section Model.
Context `{SnapshotIO}.

Definition set_m_data (v : list Z) (m : snapshot_module_t) : snapshot_module_t :=
  {| m_name := m_name m; m_major := m_major m; m_minor := m_minor m; m_data := v |}.

(** Modelled from the spec: [snapshot_module_create] of [snapshot.c], which
    is missing from the sources, opens a named module stamped with (major,
    minor); [None] is the [NULL] it returns on failure. *)
Definition snapshot_module_create (s : snapshot_t) (name : string) (major minor : Z)
  : option snapshot_module_t :=
  if snapshot_create_ok s
  then Some {| m_name := name; m_major := uint8_t major;
               m_minor := uint8_t minor; m_data := [] |}
  else None.

(** Modelled from the spec: [snapshot_module_open] of [snapshot.c], which is
    missing from the sources, opens the module of the given name; the
    version stamp is read from the module. *)
Definition snapshot_module_open (s : snapshot_t) (name : string)
  : option snapshot_module_t :=
  snd <$> list_find (λ m, m_name m = name) s.

(** Modelled from the spec: [snapshot_version_is_smaller] of [snapshot.c],
    which is missing from the sources: the version is strictly older than
    the one required (lower major, or same major and lower minor). *)
Definition snapshot_version_is_smaller (major minor major_required minor_required : Z)
  : bool :=
  (major <? major_required)
  || ((major =? major_required) && (minor <? minor_required)).

(** Modelled from the spec: one field of [n] bytes is appended to the
    module, unless the medium refuses it. *)
Definition write_field (n : nat) (v : Z) : op snapshot_module_t := λ m,
  if snapshot_write_ok (m_data m)
  then (false, set_m_data (m_data m ++ le_bytes n v) m)
  else (true, m).

Definition SMW_B (v : Z) : op snapshot_module_t := write_field 1 v.
Definition SMW_W (v : Z) : op snapshot_module_t := write_field 2 v.
Definition SMW_DW (v : Z) : op snapshot_module_t := write_field 4 v.
Definition SMW_CLOCK (v : Z) : op snapshot_module_t := write_field CLOCK_WIDTH v.

(** Modelled from the spec: a block of bytes is appended as it is. *)
Definition SMW_BA (bytes : list Z) : op snapshot_module_t := λ m,
  if snapshot_write_ok (m_data m)
  then (false, set_m_data (m_data m ++ (uint8_t <$> bytes)) m)
  else (true, m).

(** Modelled from the spec: one field of [n] bytes is taken from the front
    of what is left of the module; the read fails when fewer than [n] bytes
    are left. *)
Definition read_field (n : nat) (m : snapshot_module_t)
  : option (Z * snapshot_module_t) :=
  if bool_decide (n ≤ length (m_data m))%nat
  then Some (le_value (take n (m_data m)), set_m_data (drop n (m_data m)) m)
  else None.

Definition read_block (n : nat) (m : snapshot_module_t)
  : option (list Z * snapshot_module_t) :=
  if bool_decide (n ≤ length (m_data m))%nat
  then Some (take n (m_data m), set_m_data (drop n (m_data m)) m)
  else None.

End Model.

(** ** The raster sub-module

    [raster-snapshot.c] and the type [raster_t] are not part of the
    sources: the bytes [raster_snapshot_write] emits for a raster, what
    [raster_snapshot_read] makes of the bytes left in a module (its status,
    the raster it leaves and the bytes it leaves), and
    [raster_force_repaint], are parameters. *)
Class RasterSnapshot := {
  raster_t : Type;
  raster_snapshot_bytes : raster_t → list Z;
  raster_snapshot_decode : list Z → raster_t → Z * raster_t * list Z;
  raster_force_repaint : raster_t → raster_t
}.

(** ** The VIC-I state *)

Section State.
Context `{SnapshotIO} `{RasterSnapshot}.

(** [vic.light_pen] *)
Record light_pen_t := {
  lp_state : Z;
  lp_triggered : Z;
  lp_x : Z;
  lp_y : Z;
  lp_x_extra_bits : Z;
  lp_trigger_cycle : Z
}.

(** The members of [vic] that the snapshot module holds. *)
Record vic_t := {
  interlace_enabled : Z;
  interlace_field : Z;
  framestart_cycle : Z;
  raster_cycle : Z;
  raster_line : Z;
  area : Z;
  fetch_state : Z;
  text_cols : Z;
  text_lines : Z;
  pending_text_cols : Z;
  line_was_blank : Z;
  memptr : Z;
  memptr_inc : Z;
  row_counter : Z;
  buf_offset : Z;
  light_pen : light_pen_t;
  vbuf : Z;
  regs : list Z;
  raster : raster_t
}.

(** Calls that leave the file, apart from those on the snapshot. *)
Inductive event :=
| sound_close
| log_error (format : string) (args : list Z).

(** The globals [vic], [mem_ram] and [maincpu_clk], and the calls made. *)
Record machine := {
  vic : vic_t;
  mem_ram : Z → Z;
  maincpu_clk : Z;
  calls : list event
}.

Definition set_vic (v : vic_t) (st : machine) : machine :=
  {| vic := v; mem_ram := mem_ram st; maincpu_clk := maincpu_clk st;
     calls := calls st |}.

Definition set_mem_ram (v : Z → Z) (st : machine) : machine :=
  {| vic := vic st; mem_ram := v; maincpu_clk := maincpu_clk st;
     calls := calls st |}.

Definition call (e : event) (st : machine) : machine :=
  {| vic := vic st; mem_ram := mem_ram st; maincpu_clk := maincpu_clk st;
     calls := calls st ++ [e] |}.

Definition set_lp_state (v : Z) (r : light_pen_t) : light_pen_t :=
  {| lp_state := v; lp_triggered := lp_triggered r; lp_x := lp_x r; lp_y := lp_y r;
     lp_x_extra_bits := lp_x_extra_bits r; lp_trigger_cycle := lp_trigger_cycle r |}.

Definition set_lp_triggered (v : Z) (r : light_pen_t) : light_pen_t :=
  {| lp_state := lp_state r; lp_triggered := v; lp_x := lp_x r; lp_y := lp_y r;
     lp_x_extra_bits := lp_x_extra_bits r; lp_trigger_cycle := lp_trigger_cycle r |}.

Definition set_lp_x (v : Z) (r : light_pen_t) : light_pen_t :=
  {| lp_state := lp_state r; lp_triggered := lp_triggered r; lp_x := v; lp_y := lp_y
     r; lp_x_extra_bits := lp_x_extra_bits r; lp_trigger_cycle := lp_trigger_cycle r |}.

Definition set_lp_y (v : Z) (r : light_pen_t) : light_pen_t :=
  {| lp_state := lp_state r; lp_triggered := lp_triggered r; lp_x := lp_x r; lp_y :=
     v; lp_x_extra_bits := lp_x_extra_bits r; lp_trigger_cycle := lp_trigger_cycle r |}.

Definition set_lp_x_extra_bits (v : Z) (r : light_pen_t) : light_pen_t :=
  {| lp_state := lp_state r; lp_triggered := lp_triggered r; lp_x := lp_x r; lp_y :=
     lp_y r; lp_x_extra_bits := v; lp_trigger_cycle := lp_trigger_cycle r |}.

Definition set_lp_trigger_cycle (v : Z) (r : light_pen_t) : light_pen_t :=
  {| lp_state := lp_state r; lp_triggered := lp_triggered r; lp_x := lp_x r; lp_y :=
     lp_y r; lp_x_extra_bits := lp_x_extra_bits r; lp_trigger_cycle := v |}.

Definition set_interlace_enabled (v : Z) (r : vic_t) : vic_t :=
  {| interlace_enabled := v; interlace_field := interlace_field r; framestart_cycle
     := framestart_cycle r; raster_cycle := raster_cycle r; raster_line :=
     raster_line r; area := area r; fetch_state := fetch_state r; text_cols :=
     text_cols r; text_lines := text_lines r; pending_text_cols := pending_text_cols
     r; line_was_blank := line_was_blank r; memptr := memptr r; memptr_inc :=
     memptr_inc r; row_counter := row_counter r; buf_offset := buf_offset r;
     light_pen := light_pen r; vbuf := vbuf r; regs := regs r; raster := raster r |}.

Definition set_interlace_field (v : Z) (r : vic_t) : vic_t :=
  {| interlace_enabled := interlace_enabled r; interlace_field := v;
     framestart_cycle := framestart_cycle r; raster_cycle := raster_cycle r;
     raster_line := raster_line r; area := area r; fetch_state := fetch_state r;
     text_cols := text_cols r; text_lines := text_lines r; pending_text_cols :=
     pending_text_cols r; line_was_blank := line_was_blank r; memptr := memptr r;
     memptr_inc := memptr_inc r; row_counter := row_counter r; buf_offset :=
     buf_offset r; light_pen := light_pen r; vbuf := vbuf r; regs := regs r; raster
     := raster r |}.

Definition set_framestart_cycle (v : Z) (r : vic_t) : vic_t :=
  {| interlace_enabled := interlace_enabled r; interlace_field := interlace_field r;
     framestart_cycle := v; raster_cycle := raster_cycle r; raster_line :=
     raster_line r; area := area r; fetch_state := fetch_state r; text_cols :=
     text_cols r; text_lines := text_lines r; pending_text_cols := pending_text_cols
     r; line_was_blank := line_was_blank r; memptr := memptr r; memptr_inc :=
     memptr_inc r; row_counter := row_counter r; buf_offset := buf_offset r;
     light_pen := light_pen r; vbuf := vbuf r; regs := regs r; raster := raster r |}.

Definition set_raster_cycle (v : Z) (r : vic_t) : vic_t :=
  {| interlace_enabled := interlace_enabled r; interlace_field := interlace_field r;
     framestart_cycle := framestart_cycle r; raster_cycle := v; raster_line :=
     raster_line r; area := area r; fetch_state := fetch_state r; text_cols :=
     text_cols r; text_lines := text_lines r; pending_text_cols := pending_text_cols
     r; line_was_blank := line_was_blank r; memptr := memptr r; memptr_inc :=
     memptr_inc r; row_counter := row_counter r; buf_offset := buf_offset r;
     light_pen := light_pen r; vbuf := vbuf r; regs := regs r; raster := raster r |}.

Definition set_raster_line (v : Z) (r : vic_t) : vic_t :=
  {| interlace_enabled := interlace_enabled r; interlace_field := interlace_field r;
     framestart_cycle := framestart_cycle r; raster_cycle := raster_cycle r;
     raster_line := v; area := area r; fetch_state := fetch_state r; text_cols :=
     text_cols r; text_lines := text_lines r; pending_text_cols := pending_text_cols
     r; line_was_blank := line_was_blank r; memptr := memptr r; memptr_inc :=
     memptr_inc r; row_counter := row_counter r; buf_offset := buf_offset r;
     light_pen := light_pen r; vbuf := vbuf r; regs := regs r; raster := raster r |}.

Definition set_area (v : Z) (r : vic_t) : vic_t :=
  {| interlace_enabled := interlace_enabled r; interlace_field := interlace_field r;
     framestart_cycle := framestart_cycle r; raster_cycle := raster_cycle r;
     raster_line := raster_line r; area := v; fetch_state := fetch_state r;
     text_cols := text_cols r; text_lines := text_lines r; pending_text_cols :=
     pending_text_cols r; line_was_blank := line_was_blank r; memptr := memptr r;
     memptr_inc := memptr_inc r; row_counter := row_counter r; buf_offset :=
     buf_offset r; light_pen := light_pen r; vbuf := vbuf r; regs := regs r; raster
     := raster r |}.

Definition set_fetch_state (v : Z) (r : vic_t) : vic_t :=
  {| interlace_enabled := interlace_enabled r; interlace_field := interlace_field r;
     framestart_cycle := framestart_cycle r; raster_cycle := raster_cycle r;
     raster_line := raster_line r; area := area r; fetch_state := v; text_cols :=
     text_cols r; text_lines := text_lines r; pending_text_cols := pending_text_cols
     r; line_was_blank := line_was_blank r; memptr := memptr r; memptr_inc :=
     memptr_inc r; row_counter := row_counter r; buf_offset := buf_offset r;
     light_pen := light_pen r; vbuf := vbuf r; regs := regs r; raster := raster r |}.

Definition set_text_cols (v : Z) (r : vic_t) : vic_t :=
  {| interlace_enabled := interlace_enabled r; interlace_field := interlace_field r;
     framestart_cycle := framestart_cycle r; raster_cycle := raster_cycle r;
     raster_line := raster_line r; area := area r; fetch_state := fetch_state r;
     text_cols := v; text_lines := text_lines r; pending_text_cols :=
     pending_text_cols r; line_was_blank := line_was_blank r; memptr := memptr r;
     memptr_inc := memptr_inc r; row_counter := row_counter r; buf_offset :=
     buf_offset r; light_pen := light_pen r; vbuf := vbuf r; regs := regs r; raster
     := raster r |}.

Definition set_text_lines (v : Z) (r : vic_t) : vic_t :=
  {| interlace_enabled := interlace_enabled r; interlace_field := interlace_field r;
     framestart_cycle := framestart_cycle r; raster_cycle := raster_cycle r;
     raster_line := raster_line r; area := area r; fetch_state := fetch_state r;
     text_cols := text_cols r; text_lines := v; pending_text_cols :=
     pending_text_cols r; line_was_blank := line_was_blank r; memptr := memptr r;
     memptr_inc := memptr_inc r; row_counter := row_counter r; buf_offset :=
     buf_offset r; light_pen := light_pen r; vbuf := vbuf r; regs := regs r; raster
     := raster r |}.

Definition set_pending_text_cols (v : Z) (r : vic_t) : vic_t :=
  {| interlace_enabled := interlace_enabled r; interlace_field := interlace_field r;
     framestart_cycle := framestart_cycle r; raster_cycle := raster_cycle r;
     raster_line := raster_line r; area := area r; fetch_state := fetch_state r;
     text_cols := text_cols r; text_lines := text_lines r; pending_text_cols := v;
     line_was_blank := line_was_blank r; memptr := memptr r; memptr_inc :=
     memptr_inc r; row_counter := row_counter r; buf_offset := buf_offset r;
     light_pen := light_pen r; vbuf := vbuf r; regs := regs r; raster := raster r |}.

Definition set_line_was_blank (v : Z) (r : vic_t) : vic_t :=
  {| interlace_enabled := interlace_enabled r; interlace_field := interlace_field r;
     framestart_cycle := framestart_cycle r; raster_cycle := raster_cycle r;
     raster_line := raster_line r; area := area r; fetch_state := fetch_state r;
     text_cols := text_cols r; text_lines := text_lines r; pending_text_cols :=
     pending_text_cols r; line_was_blank := v; memptr := memptr r; memptr_inc :=
     memptr_inc r; row_counter := row_counter r; buf_offset := buf_offset r;
     light_pen := light_pen r; vbuf := vbuf r; regs := regs r; raster := raster r |}.

Definition set_memptr (v : Z) (r : vic_t) : vic_t :=
  {| interlace_enabled := interlace_enabled r; interlace_field := interlace_field r;
     framestart_cycle := framestart_cycle r; raster_cycle := raster_cycle r;
     raster_line := raster_line r; area := area r; fetch_state := fetch_state r;
     text_cols := text_cols r; text_lines := text_lines r; pending_text_cols :=
     pending_text_cols r; line_was_blank := line_was_blank r; memptr := v;
     memptr_inc := memptr_inc r; row_counter := row_counter r; buf_offset :=
     buf_offset r; light_pen := light_pen r; vbuf := vbuf r; regs := regs r; raster
     := raster r |}.

Definition set_memptr_inc (v : Z) (r : vic_t) : vic_t :=
  {| interlace_enabled := interlace_enabled r; interlace_field := interlace_field r;
     framestart_cycle := framestart_cycle r; raster_cycle := raster_cycle r;
     raster_line := raster_line r; area := area r; fetch_state := fetch_state r;
     text_cols := text_cols r; text_lines := text_lines r; pending_text_cols :=
     pending_text_cols r; line_was_blank := line_was_blank r; memptr := memptr r;
     memptr_inc := v; row_counter := row_counter r; buf_offset := buf_offset r;
     light_pen := light_pen r; vbuf := vbuf r; regs := regs r; raster := raster r |}.

Definition set_row_counter (v : Z) (r : vic_t) : vic_t :=
  {| interlace_enabled := interlace_enabled r; interlace_field := interlace_field r;
     framestart_cycle := framestart_cycle r; raster_cycle := raster_cycle r;
     raster_line := raster_line r; area := area r; fetch_state := fetch_state r;
     text_cols := text_cols r; text_lines := text_lines r; pending_text_cols :=
     pending_text_cols r; line_was_blank := line_was_blank r; memptr := memptr r;
     memptr_inc := memptr_inc r; row_counter := v; buf_offset := buf_offset r;
     light_pen := light_pen r; vbuf := vbuf r; regs := regs r; raster := raster r |}.

Definition set_buf_offset (v : Z) (r : vic_t) : vic_t :=
  {| interlace_enabled := interlace_enabled r; interlace_field := interlace_field r;
     framestart_cycle := framestart_cycle r; raster_cycle := raster_cycle r;
     raster_line := raster_line r; area := area r; fetch_state := fetch_state r;
     text_cols := text_cols r; text_lines := text_lines r; pending_text_cols :=
     pending_text_cols r; line_was_blank := line_was_blank r; memptr := memptr r;
     memptr_inc := memptr_inc r; row_counter := row_counter r; buf_offset := v;
     light_pen := light_pen r; vbuf := vbuf r; regs := regs r; raster := raster r |}.

Definition set_light_pen (v : light_pen_t) (r : vic_t) : vic_t :=
  {| interlace_enabled := interlace_enabled r; interlace_field := interlace_field r;
     framestart_cycle := framestart_cycle r; raster_cycle := raster_cycle r;
     raster_line := raster_line r; area := area r; fetch_state := fetch_state r;
     text_cols := text_cols r; text_lines := text_lines r; pending_text_cols :=
     pending_text_cols r; line_was_blank := line_was_blank r; memptr := memptr r;
     memptr_inc := memptr_inc r; row_counter := row_counter r; buf_offset :=
     buf_offset r; light_pen := v; vbuf := vbuf r; regs := regs r; raster := raster
     r |}.

Definition set_vbuf (v : Z) (r : vic_t) : vic_t :=
  {| interlace_enabled := interlace_enabled r; interlace_field := interlace_field r;
     framestart_cycle := framestart_cycle r; raster_cycle := raster_cycle r;
     raster_line := raster_line r; area := area r; fetch_state := fetch_state r;
     text_cols := text_cols r; text_lines := text_lines r; pending_text_cols :=
     pending_text_cols r; line_was_blank := line_was_blank r; memptr := memptr r;
     memptr_inc := memptr_inc r; row_counter := row_counter r; buf_offset :=
     buf_offset r; light_pen := light_pen r; vbuf := v; regs := regs r; raster :=
     raster r |}.

Definition set_regs (v : list Z) (r : vic_t) : vic_t :=
  {| interlace_enabled := interlace_enabled r; interlace_field := interlace_field r;
     framestart_cycle := framestart_cycle r; raster_cycle := raster_cycle r;
     raster_line := raster_line r; area := area r; fetch_state := fetch_state r;
     text_cols := text_cols r; text_lines := text_lines r; pending_text_cols :=
     pending_text_cols r; line_was_blank := line_was_blank r; memptr := memptr r;
     memptr_inc := memptr_inc r; row_counter := row_counter r; buf_offset :=
     buf_offset r; light_pen := light_pen r; vbuf := vbuf r; regs := v; raster :=
     raster r |}.

Definition set_raster (v : raster_t) (r : vic_t) : vic_t :=
  {| interlace_enabled := interlace_enabled r; interlace_field := interlace_field r;
     framestart_cycle := framestart_cycle r; raster_cycle := raster_cycle r;
     raster_line := raster_line r; area := area r; fetch_state := fetch_state r;
     text_cols := text_cols r; text_lines := text_lines r; pending_text_cols :=
     pending_text_cols r; line_was_blank := line_was_blank r; memptr := memptr r;
     memptr_inc := memptr_inc r; row_counter := row_counter r; buf_offset :=
     buf_offset r; light_pen := light_pen r; vbuf := vbuf r; regs := regs r; raster
     := v |}.

(** [&vic.light_pen.member] *)
Definition set_light_pen_state (v : Z) (r : vic_t) : vic_t :=
  set_light_pen (set_lp_state v (light_pen r)) r.
Definition set_light_pen_triggered (v : Z) (r : vic_t) : vic_t :=
  set_light_pen (set_lp_triggered v (light_pen r)) r.
Definition set_light_pen_x (v : Z) (r : vic_t) : vic_t :=
  set_light_pen (set_lp_x v (light_pen r)) r.
Definition set_light_pen_y (v : Z) (r : vic_t) : vic_t :=
  set_light_pen (set_lp_y v (light_pen r)) r.
Definition set_light_pen_x_extra_bits (v : Z) (r : vic_t) : vic_t :=
  set_light_pen (set_lp_x_extra_bits v (light_pen r)) r.
Definition set_light_pen_trigger_cycle (v : Z) (r : vic_t) : vic_t :=
  set_light_pen (set_lp_trigger_cycle v (light_pen r)) r.

(** ** The chip

    [vic_store] of [vic-mem.c] and the macros [VIC_RASTER_CYCLE] and
    [VIC_RASTER_Y] of [victypes.h] are not part of the sources. *)
Class VicChip := {
  vic_store : Z → Z → machine → machine;
  VIC_RASTER_CYCLE : Z → Z;
  VIC_RASTER_Y : Z → Z
}.

Context `{VicChip}.

Definition snap_module_name : string := "VIC-I".
Definition SNAP_MAJOR : Z := 0.
Definition SNAP_MINOR : Z := 4.

(** Modelled from the spec: [snapshot_module_close] of [snapshot.c], which
    is missing from the sources, ends a module; a module that was being
    written is part of the snapshot from then on. *)
Definition snapshot_module_close (s : snapshot_t) (m : snapshot_module_t)
  : Z * snapshot_t :=
  (snapshot_module_close_result m, s ++ [m]).

(** The raster sub-module goes into the module as one more field. *)
Definition raster_snapshot_write (r : raster_t) : op snapshot_module_t := λ m,
  if snapshot_write_ok (m_data m)
  then (false, set_m_data (m_data m ++ raster_snapshot_bytes r) m)
  else (true, m).

(** The loop [for (i = 0; i < 0x10; i++)] of the writer, from [i] with [n]
    iterations to go.  [vic.regs] has at least 16 entries, so the default
    of the lookup is never used. *)
Fixpoint write_regs (v : vic_t) (i n : nat) : op snapshot_module_t :=
  match n with
  | O => never
  | S n' => SMW_B (uint8_t (regs v !!! i)) ||| write_regs v (S i) n'
  end.

(** The statement [if (0 || SMW_DW(...) < 0 || ... ) goto fail;] of the
    writer. *)
Definition vic_snapshot_write_fields (st : machine) : op snapshot_module_t :=
  never
  ||| SMW_DW (uint32_t (interlace_enabled (vic st)))
  ||| SMW_DW (uint32_t (interlace_field (vic st)))
  ||| SMW_CLOCK (framestart_cycle (vic st))
  ||| SMW_B (uint8_t (raster_cycle (vic st)))
  ||| SMW_W (uint16_t (raster_line (vic st)))
  ||| SMW_W (uint16_t (area (vic st)))
  ||| SMW_W (uint16_t (fetch_state (vic st)))
  ||| SMW_DW (uint32_t (raster_line (vic st)))
  ||| SMW_DW (uint32_t (text_cols (vic st)))
  ||| SMW_DW (uint32_t (text_lines (vic st)))
  ||| SMW_DW (uint32_t (pending_text_cols (vic st)))
  ||| SMW_DW (uint32_t (line_was_blank (vic st)))
  ||| SMW_DW (uint32_t (memptr (vic st)))
  ||| SMW_DW (uint32_t (memptr_inc (vic st)))
  ||| SMW_DW (uint32_t (row_counter (vic st)))
  ||| SMW_DW (uint32_t (buf_offset (vic st)))
  ||| SMW_B (uint8_t (lp_state (light_pen (vic st))))
  ||| SMW_B (uint8_t (lp_triggered (light_pen (vic st))))
  ||| SMW_DW (uint32_t (lp_x (light_pen (vic st))))
  ||| SMW_DW (uint32_t (lp_y (light_pen (vic st))))
  ||| SMW_DW (uint32_t (lp_x_extra_bits (light_pen (vic st))))
  ||| SMW_CLOCK (lp_trigger_cycle (light_pen (vic st)))
  ||| SMW_B (vbuf (vic st)).

Definition vic_snapshot_write_module (s : snapshot_t) (st : machine) : Z * snapshot_t :=
  match snapshot_module_create s snap_module_name SNAP_MAJOR SNAP_MINOR with
  | None => (-1, s)
  | Some m =>
      let fail (m : snapshot_module_t) := (-1, (snapshot_module_close s m).2) in
      let '(failed, m) := vic_snapshot_write_fields st m in
      if failed then fail m else
      (* Color RAM.  *)
      let '(failed, m) := SMW_BA (mem_ram st <$> seqZ 0x9400 0x400) m in
      if failed then fail m else
      let '(failed, m) := write_regs (vic st) 0 0x10 m in
      if failed then fail m else
      let '(failed, m) := raster_snapshot_write (raster (vic st)) m in
      if failed then fail m else
      snapshot_module_close s m
  end.

(** *** Reading *)

(** Modelled from the spec: the readers [SMR_*] of [snapshot.c], which is
    missing from the sources, read a field of the width their name gives
    and store it, converted to the type of the destination, through the
    pointer they are given; the setter stands for the pointer. *)
Definition read_into (n : nat) (conv : Z → Z) (set : Z → vic_t → vic_t)
  : op (snapshot_module_t * machine) := λ '(m, st),
  match read_field n m with
  | Some (v, m') => (false, (m', set_vic (set (conv v) (vic st)) st))
  | None => (true, (m, st))
  end.

Definition SMR_B := read_into 1 id.
Definition SMR_B_INT := read_into 1 id.
Definition SMR_B_UINT := read_into 1 id.
Definition SMR_W_INT := read_into 2 id.
Definition SMR_W_UINT := read_into 2 id.
Definition SMR_DW_INT := read_into 4 int_of_dword.
Definition SMR_DW_UINT := read_into 4 id.
Definition SMR_CLOCK := read_into CLOCK_WIDTH id.

(** [SMR_BA(m, mem_ram + base, n)] *)
Definition SMR_BA (base : Z) (n : nat) : op (snapshot_module_t * machine) := λ '(m, st),
  match read_block n m with
  | Some (bytes, m') =>
      (false,
       (m', set_mem_ram
              (λ a, if bool_decide (base ≤ a < base + Z.of_nat n)
                    then bytes !!! Z.to_nat (a - base)
                    else mem_ram st a) st))
  | None => (true, (m, st))
  end.

(** The loop [for (i = 0; i < 0x10; i++)] of the reader: a byte is read
    into [b] and handed to [vic_store]. *)
Fixpoint read_regs (i : Z) (n : nat) : op (snapshot_module_t * machine) :=
  match n with
  | O => never
  | S n' =>
      (λ '(m, st),
         match read_field 1 m with
         | Some (b, m') => (false, (m', vic_store i b st))
         | None => (true, (m, st))
         end)
      ||| read_regs (i + 1) n'
  end.

(** The statement [if (0 || SMR_DW_INT(...) < 0 || ... ) goto fail;] of the
    reader. *)
Definition vic_snapshot_read_fields : op (snapshot_module_t * machine) :=
  never
  ||| SMR_DW_INT set_interlace_enabled
  ||| SMR_DW_INT set_interlace_field
  ||| SMR_CLOCK set_framestart_cycle
  ||| SMR_B_UINT set_raster_cycle
  ||| SMR_W_UINT set_raster_line
  ||| SMR_W_INT set_area
  ||| SMR_W_INT set_fetch_state
  ||| SMR_DW_UINT set_raster_line
  ||| SMR_DW_UINT set_text_cols
  ||| SMR_DW_UINT set_text_lines
  ||| SMR_DW_UINT set_pending_text_cols
  ||| SMR_DW_UINT set_line_was_blank
  ||| SMR_DW_UINT set_memptr
  ||| SMR_DW_UINT set_memptr_inc
  ||| SMR_DW_UINT set_row_counter
  ||| SMR_DW_UINT set_buf_offset
  ||| SMR_B_INT set_light_pen_state
  ||| SMR_B_INT set_light_pen_triggered
  ||| SMR_DW_INT set_light_pen_x
  ||| SMR_DW_INT set_light_pen_y
  ||| SMR_DW_INT set_light_pen_x_extra_bits
  ||| SMR_CLOCK set_light_pen_trigger_cycle
  ||| SMR_B set_vbuf.

(** The reader from its two consistency checks to its end. *)
Definition vic_snapshot_read_checks (m : snapshot_module_t) (st : machine) : Z * machine :=
  if negb (raster_cycle (vic st) =? VIC_RASTER_CYCLE (maincpu_clk st))
  then
    (-1,
     call (log_error "Cycle value (%u) incorrect; should be %u."
             [raster_cycle (vic st); VIC_RASTER_CYCLE (maincpu_clk st)]) st)
  else
  if negb (raster_line (vic st) =? VIC_RASTER_Y (maincpu_clk st))
  then
    (-1,
     call (log_error "Raster line value (%u) incorrect; should be %u."
             [raster_line (vic st); VIC_RASTER_Y (maincpu_clk st)]) st)
  else
  let '(status, r, rest) := raster_snapshot_decode (m_data m) (raster (vic st)) in
  let st := set_vic (set_raster r (vic st)) st in
  if negb (status =? 0) then (-1, st) else
  let st := set_vic (set_raster (raster_force_repaint (raster (vic st))) (vic st)) st in
  (snapshot_module_close_result (set_m_data rest m), st).

Definition vic_snapshot_read_module (s : snapshot_t) (st : machine) : Z * machine :=
  let st := call sound_close st in
  match snapshot_module_open s snap_module_name with
  | None => (-1, st)
  | Some m =>
      let major_version := m_major m in
      let minor_version := m_minor m in
      if snapshot_version_is_smaller major_version minor_version SNAP_MAJOR SNAP_MINOR
      then
        (-1,
         call (log_error "Snapshot module version (%d.%d) older than %d.%d."
                 [major_version; minor_version; SNAP_MAJOR; SNAP_MINOR]) st)
      else
      let '(failed, (m, st)) := vic_snapshot_read_fields (m, st) in
      if failed then (-1, st) else
      (* Color RAM.  *)
      let '(failed, (m, st)) := SMR_BA 0x9400 0x400 (m, st) in
      if failed then (-1, st) else
      let '(failed, (m, st)) := read_regs 0 0x10 (m, st) in
      if failed then (-1, st) else
      vic_snapshot_read_checks m st
  end.

(** *** The layout of the module *)

(** The value a field of [n] bytes holds for [v]. *)
Definition wrap (n : nat) (v : Z) : Z := v mod 256 ^ Z.of_nat n.

(** The scalar fields in the order of the module: width in bytes, value. *)
Definition scalar_fields (v : vic_t) : list (nat * Z) :=
  [ (4%nat, interlace_enabled v);
    (4%nat, interlace_field v);
    (CLOCK_WIDTH, framestart_cycle v);
    (1%nat, raster_cycle v);
    (2%nat, raster_line v);
    (2%nat, area v);
    (2%nat, fetch_state v);
    (4%nat, raster_line v);
    (4%nat, text_cols v);
    (4%nat, text_lines v);
    (4%nat, pending_text_cols v);
    (4%nat, line_was_blank v);
    (4%nat, memptr v);
    (4%nat, memptr_inc v);
    (4%nat, row_counter v);
    (4%nat, buf_offset v);
    (1%nat, lp_state (light_pen v));
    (1%nat, lp_triggered (light_pen v));
    (4%nat, lp_x (light_pen v));
    (4%nat, lp_y (light_pen v));
    (4%nat, lp_x_extra_bits (light_pen v));
    (CLOCK_WIDTH, lp_trigger_cycle (light_pen v));
    (1%nat, vbuf v) ].

Definition encode_fields (fields : list (nat * Z)) : list Z :=
  flat_map (λ f, le_bytes f.1 f.2) fields.

(** The 0x400 bytes of colour RAM and the 16 register bytes. *)
Definition color_ram (st : machine) : list Z :=
  (λ a, uint8_t (mem_ram st a)) <$> seqZ 0x9400 0x400.

Definition register_bytes (v : vic_t) : list Z :=
  (λ i, uint8_t (regs v !!! i)) <$> seq 0 0x10.

(** The bytes of a module written from [st]. *)
Definition payload (st : machine) : list Z :=
  encode_fields (scalar_fields (vic st))
  ++ color_ram st
  ++ register_bytes (vic st)
  ++ raster_snapshot_bytes (raster (vic st)).

(** The fields before the raster sub-module, one list of bytes each. *)
Definition field_chunks (st : machine) : list (list Z) :=
  ((λ f, le_bytes f.1 f.2) <$> scalar_fields (vic st))
  ++ [color_ram st]
  ++ ((λ b, [b]) <$> register_bytes (vic st)).

(** The widths of the fields before the raster sub-module as the
    specification lists them (with eight doublewords after the three
    words), and as the module has them (with nine). *)
Definition widths_with (doublewords : nat) : list nat :=
  [4; 4; CLOCK_WIDTH; 1; 2; 2; 2]%nat ++ replicate doublewords 4%nat
  ++ [1; 1; 4; 4; 4; CLOCK_WIDTH; 1]%nat ++ [0x400%nat] ++ replicate 16 1%nat.

Definition claimed_widths : list nat := widths_with 8.
Definition module_widths : list nat := widths_with 9.

(** What the scalar fields of [x], read back, leave in a chip [y]. *)
Definition decoded_vic (x y : vic_t) : vic_t :=
  {| interlace_enabled := int_of_dword (wrap 4 (interlace_enabled x));
     interlace_field := int_of_dword (wrap 4 (interlace_field x));
     framestart_cycle := wrap CLOCK_WIDTH (framestart_cycle x);
     raster_cycle := wrap 1 (raster_cycle x);
     raster_line := wrap 4 (raster_line x);
     area := wrap 2 (area x);
     fetch_state := wrap 2 (fetch_state x);
     text_cols := wrap 4 (text_cols x);
     text_lines := wrap 4 (text_lines x);
     pending_text_cols := wrap 4 (pending_text_cols x);
     line_was_blank := wrap 4 (line_was_blank x);
     memptr := wrap 4 (memptr x);
     memptr_inc := wrap 4 (memptr_inc x);
     row_counter := wrap 4 (row_counter x);
     buf_offset := wrap 4 (buf_offset x);
     light_pen :=
       {| lp_state := wrap 1 (lp_state (light_pen x));
          lp_triggered := wrap 1 (lp_triggered (light_pen x));
          lp_x := int_of_dword (wrap 4 (lp_x (light_pen x)));
          lp_y := int_of_dword (wrap 4 (lp_y (light_pen x)));
          lp_x_extra_bits := int_of_dword (wrap 4 (lp_x_extra_bits (light_pen x)));
          lp_trigger_cycle := wrap CLOCK_WIDTH (lp_trigger_cycle (light_pen x)) |};
     vbuf := wrap 1 (vbuf x);
     regs := regs y;
     raster := raster y |}.

(** The machine [y] once the scalar fields and the colour RAM of [x] have
    been read back into it. *)
Definition decoded (x y : machine) : machine :=
  {| vic := decoded_vic (vic x) (vic y);
     mem_ram := λ a, if bool_decide (0x9400 ≤ a < 0x9400 + Z.of_nat 0x400)
                     then color_ram x !!! Z.to_nat (a - 0x9400)
                     else mem_ram y a;
     maincpu_clk := maincpu_clk y;
     calls := calls y |}.

(** The register bytes handed to [vic_store] one after the other. *)
Fixpoint restore_regs (i : Z) (bytes : list Z) (st : machine) : machine :=
  match bytes with
  | [] => st
  | b :: bytes' => restore_regs (i + 1) bytes' (vic_store i b st)
  end.

(** A register store without side effects. *)
Definition store_reg (addr value : Z) (st : machine) : machine :=
  set_vic (set_regs (<[Z.to_nat addr := value]> (regs (vic st))) (vic st)) st.

(** *** Valid states

    Every member lies in the range of its C type and of the field that
    carries it. *)
Definition int_range (v : Z) : Prop := - 2 ^ 31 ≤ v < 2 ^ 31.
Definition fits (n : nat) (v : Z) : Prop := 0 ≤ v < 256 ^ Z.of_nat n.

Definition vic_valid (st : machine) : Prop :=
  let v := vic st in
  int_range (interlace_enabled v)
  ∧ int_range (interlace_field v)
  ∧ fits CLOCK_WIDTH (framestart_cycle v)
  ∧ fits 1 (raster_cycle v)
  ∧ fits 4 (raster_line v)
  ∧ fits 2 (area v)
  ∧ fits 2 (fetch_state v)
  ∧ fits 4 (text_cols v)
  ∧ fits 4 (text_lines v)
  ∧ fits 4 (pending_text_cols v)
  ∧ fits 4 (line_was_blank v)
  ∧ fits 4 (memptr v)
  ∧ fits 4 (memptr_inc v)
  ∧ fits 4 (row_counter v)
  ∧ fits 4 (buf_offset v)
  ∧ fits 1 (lp_state (light_pen v))
  ∧ fits 1 (lp_triggered (light_pen v))
  ∧ int_range (lp_x (light_pen v))
  ∧ int_range (lp_y (light_pen v))
  ∧ int_range (lp_x_extra_bits (light_pen v))
  ∧ fits CLOCK_WIDTH (lp_trigger_cycle (light_pen v))
  ∧ fits 1 (vbuf v)
  ∧ (16 ≤ length (regs v))%nat
  ∧ Forall (fits 1) (take 16 (regs v))
  ∧ ∀ a, 0x9400 ≤ a < 0x9800 → fits 1 (mem_ram st a).

(** The members of [vic] that the module holds, the raster apart, agree. *)
Definition same_module_fields (v w : vic_t) : Prop :=
  interlace_enabled v = interlace_enabled w
  ∧ interlace_field v = interlace_field w
  ∧ framestart_cycle v = framestart_cycle w
  ∧ raster_cycle v = raster_cycle w
  ∧ raster_line v = raster_line w
  ∧ area v = area w
  ∧ fetch_state v = fetch_state w
  ∧ text_cols v = text_cols w
  ∧ text_lines v = text_lines w
  ∧ pending_text_cols v = pending_text_cols w
  ∧ line_was_blank v = line_was_blank w
  ∧ memptr v = memptr w
  ∧ memptr_inc v = memptr_inc w
  ∧ row_counter v = row_counter w
  ∧ buf_offset v = buf_offset w
  ∧ light_pen v = light_pen w
  ∧ vbuf v = vbuf w
  ∧ take 16 (regs v) = take 16 (regs w).

(** *** The raster position a module holds

    The reader takes two doublewords and a clock, then the byte of
    [raster_cycle], three words, and the doubleword of [raster_line],
    which is what it leaves in [vic.raster_line]: the stored cycle is the
    byte at offset 8 + [CLOCK_WIDTH] of the module, the stored line the
    doubleword at offset 15 + [CLOCK_WIDTH]. *)
Definition stored_raster_cycle (m : snapshot_module_t) : Z :=
  le_value (take 1 (drop (8 + CLOCK_WIDTH) (m_data m))).

Definition stored_raster_line (m : snapshot_module_t) : Z :=
  le_value (take 4 (drop (15 + CLOCK_WIDTH) (m_data m))).

(** [vic_store] leaves the raster position and the clock alone. *)
Definition keeps_raster_position (store : Z → Z → machine → machine) : Prop :=
  ∀ i b st,
    raster_cycle (vic (store i b st)) = raster_cycle (vic st)
    ∧ raster_line (vic (store i b st)) = raster_line (vic st)
    ∧ maincpu_clk (store i b st) = maincpu_clk st.

(** *** What the writer and the reader do to a module *)

(** The writers of the module have one shape: the chunk goes after the
    bytes written so far, unless the medium refuses it. *)
Definition write_chunk (chunk : list Z) : op snapshot_module_t := λ m,
  if snapshot_write_ok (m_data m)
  then (false, set_m_data (m_data m ++ chunk) m)
  else (true, m).

(** The chunks of a module in the order they are written: the fields, then
    the raster sub-module. *)
Definition module_chunks (st : machine) : list (list Z) :=
  field_chunks st ++ [raster_snapshot_bytes (raster (vic st))].

(** [a] writes the chunks of [chunks] in order and stops at the first one
    the medium refuses: it leaves the first [k] chunks after the bytes of the
    module, and it fails exactly when [k] is not all of them. *)
Definition writes (chunks : list (list Z)) (a : op snapshot_module_t) : Prop :=
  ∀ m failed m',
    a m = (failed, m') →
    ∃ k,
      m' = set_m_data (m_data m ++ concat (take k chunks)) m
      ∧ if failed
        then (k < length chunks)%nat ∧ snapshot_write_ok (m_data m') = false
        else k = length chunks.

(** [a] succeeds only on a module that holds [n] bytes or more, and takes
    exactly [n] bytes from its front. *)
Definition consumes (n : nat) (a : op (snapshot_module_t * machine)) : Prop :=
  ∀ m st m' st',
    a (m, st) = (false, (m', st')) →
    (n ≤ length (m_data m))%nat ∧ m' = set_m_data (drop n (m_data m)) m.

(** The bytes [vic_snapshot_read_module] reads before the raster
    sub-module. *)
Definition bytes_before_raster : nat := 1106 + 2 * CLOCK_WIDTH.

(** [st'] has the clock of [st] and its memory outside the colour RAM, and
    the calls of [st] are the first calls of [st']. *)
Definition reader_frame (st st' : machine) : Prop :=
  maincpu_clk st' = maincpu_clk st
  ∧ (∀ a, ¬ (0x9400 ≤ a < 0x9800) → mem_ram st' a = mem_ram st a)
  ∧ calls st `prefix_of` calls st'.

(** Whatever [a] does to the module, it keeps [R] between the machines. *)
Definition preserves (R : machine → machine → Prop)
    (a : op (snapshot_module_t * machine)) : Prop :=
  ∀ m st failed m' st', a (m, st) = (failed, (m', st')) → R st st'.

End State.

(** ** A concrete configuration

    A medium that takes every byte, clocks of eight bytes, a raster that is
    one 16-bit number, a chip with 71 cycles to the line and 312 lines
    whose register store has no side effects. *)
Module Sample.

#[export] Instance io : SnapshotIO := {|
  CLOCK_WIDTH := 8;
  snapshot_create_ok s := true;
  snapshot_write_ok bytes := true;
  snapshot_module_close_result m := 0
|}.

#[export] Instance raster_codec : RasterSnapshot := {|
  raster_t := Z;
  raster_snapshot_bytes r := le_bytes 2 r;
  raster_snapshot_decode bytes r0 :=
    if (2 <=? length bytes)%nat
    then (0, le_value (take 2 bytes), drop 2 bytes)
    else (-1, r0, bytes);
  raster_force_repaint r := r
|}.

#[export] Instance chip : VicChip := {|
  vic_store := store_reg;
  VIC_RASTER_CYCLE clk := clk mod 71;
  VIC_RASTER_Y clk := (clk / 71) mod 312
|}.

(** The chip at clock 1000: cycle 6 of line 14. *)
Definition chip_at_1000 : vic_t :=
  {| interlace_enabled := 1; interlace_field := -1; framestart_cycle := 6;
     raster_cycle := 6; raster_line := 14; area := 2; fetch_state := 3;
     text_cols := 22; text_lines := 23; pending_text_cols := 22;
     line_was_blank := 0; memptr := 0x1e00; memptr_inc := 22; row_counter := 5;
     buf_offset := 7;
     light_pen := {| lp_state := 1; lp_triggered := 0; lp_x := -3; lp_y := 40;
                     lp_x_extra_bits := 1; lp_trigger_cycle := 900 |};
     vbuf := 0x20;
     regs := [5; 25; 150; 46; 14; 240; 0; 0; 255; 255; 0; 0; 0; 0; 0; 27];
     raster := 14 |}.

Definition running : machine :=
  {| vic := chip_at_1000;
     mem_ram := λ a, if a =? 0x9400 then 6 else 0;
     maincpu_clk := 1000;
     calls := [] |}.

(** A machine after reset whose clock has been restored to [clk]. *)
Definition blank (clk : Z) : machine :=
  {| vic := {| interlace_enabled := 0; interlace_field := 0; framestart_cycle := 0;
               raster_cycle := 0; raster_line := 0; area := 0; fetch_state := 0;
               text_cols := 0; text_lines := 0; pending_text_cols := 0;
               line_was_blank := 0; memptr := 0; memptr_inc := 0; row_counter := 0;
               buf_offset := 0;
               light_pen := {| lp_state := 0; lp_triggered := 0; lp_x := 0; lp_y := 0;
                               lp_x_extra_bits := 0; lp_trigger_cycle := 0 |};
               vbuf := 0; regs := replicate 16 0; raster := 0 |};
     mem_ram := λ a, 0;
     maincpu_clk := clk;
     calls := [] |}.

(** The snapshot of the running machine, and one stamped by an older
    version of the module. *)
Definition saved : snapshot_t := (vic_snapshot_write_module [] running).2.

Definition saved_by_0_3 : snapshot_t :=
  [ {| m_name := snap_module_name; m_major := 0; m_minor := 3;
       m_data := payload running |} ].

End Sample.

End VicSnapshot.

(** * Properties of the drive image manager *)

Module DriveImageFacts.
Import DriveImage.

Lemma is_case_true x labels : is_case x labels = true ↔ In x labels.
Proof.
  unfold is_case. rewrite existsb_exists. split.
  - intros (y & Hy & Heq). apply Z.eqb_eq in Heq. by subst.
  - intros H. exists x. split; [done | apply Z.eqb_refl].
Qed.

Lemma is_case_false x labels : is_case x labels = false ↔ ¬ In x labels.
Proof.
  rewrite <- is_case_true. destruct (is_case x labels); split; try done.
Qed.


(** *** Arrays and the drive of a unit *)

Lemma index_Some {A} (l : list A) i x :
  index l i = Some x ↔ 0 ≤ i ∧ l !! Z.to_nat i = Some x.
Proof.
  unfold index. destruct (decide (0 ≤ i)).
  - rewrite bool_decide_eq_true_2 by done.
    split; [intros Hl; by split | by intros [_ Hl] ].
  - rewrite bool_decide_eq_false_2 by done.
    split; [done | by intros [Hi _] ].
Qed.

Lemma index_insert_eq {A} (l : list A) i x y :
  index l i = Some x → index (<[Z.to_nat i := y]> l) i = Some y.
Proof.
  rewrite !index_Some. intros [Hi Hx]. split; [done |].
  apply list_lookup_insert_eq. by eapply lookup_lt_Some.
Qed.

Lemma drive_of_put us dnr drv d d' :
  drive_of us dnr drv = Some d → drive_of (put_drive dnr drv d' us) dnr drv = Some d'.
Proof.
  unfold drive_of, put_drive. intros Hd.
  destruct (index us dnr) as [u |] eqn:Hu; [| done]. simpl in Hd.
  rewrite (index_insert_eq _ _ _ _ Hu). simpl.
  by eapply index_insert_eq.
Qed.

Lemma index_put_same us dnr drv d u :
  index us dnr = Some u →
  index (put_drive dnr drv d us) dnr
  = Some (set_drives (<[Z.to_nat drv := d]> (drives u)) u).
Proof.
  intros Hu. unfold put_drive. rewrite Hu. by eapply index_insert_eq.
Qed.

Lemma put_put us dnr drv d1 d2 :
  put_drive dnr drv d2 (put_drive dnr drv d1 us) = put_drive dnr drv d2 us.
Proof.
  unfold put_drive at 1 3.
  destruct (index us dnr) as [u |] eqn:Hu.
  - rewrite (index_put_same _ _ _ _ _ Hu). unfold put_drive. rewrite Hu. simpl.
    by rewrite !list_insert_insert_eq.
  - unfold put_drive. by rewrite Hu, Hu.
Qed.


Section Facts.
Context `{DiskImageTypes} `{DriveTypes} `{DriveConfig} `{DiskImageIO}.

(** All pairwise inequalities between the format tags. *)
Ltac distinct_types :=
  let H := fresh "Hdist" in
  pose proof disk_image_types_distinct as H;
  repeat (apply NoDup_cons in H as [? H]);
  clear H;
  repeat match goal with
         | Hn : _ ∉ _ :: _ |- _ => apply not_elem_of_cons in Hn as [? Hn]
         | Hn : _ ∉ [] |- _ => clear Hn
         end.

Ltac decide_cases :=
  repeat match goal with
         | |- context [Z.eqb ?a ?b] =>
             destruct (Z.eqb_spec a b); try congruence; simpl
         end.

(** *** The format-to-model lookup *)

Lemma type_to_drive_type_table type model :
  (type, model) ∈ drive_type_table → drive_image_type_to_drive_type type = model.
Proof.
  intros Hin. distinct_types.
  unfold drive_type_table in Hin.
  repeat (apply elem_of_cons in Hin as [Hin | Hin]; [injection Hin as -> -> |]);
    try (by apply elem_of_nil in Hin);
    unfold drive_image_type_to_drive_type, is_case; simpl.
  all: decide_cases; reflexivity.
Qed.

Lemma type_to_drive_type_other type :
  type ∉ drive_type_table.*1 → drive_image_type_to_drive_type type = DRIVE_TYPE_NONE.
Proof.
  intros Hout. simpl in Hout.
  repeat (apply not_elem_of_cons in Hout as [? Hout]).
  unfold drive_image_type_to_drive_type, is_case; simpl.
  decide_cases; reflexivity.
Qed.

(** C9: [drive_image_type_to_drive_type] is a pure lookup.  It maps every
    format of the table to the model the table gives (D64, G64, P64 to
    1541-II; D71, G71 to 1571; D81 to 1581; D1M, D2M to 2000; D4M to 4000;
    D67 to 2040; D80 to 8050; D82 to 8250; D90 to 9000; DHD to CMDHD), and
    every format outside the table to [DRIVE_TYPE_NONE]. *)
Theorem drive_image_type_to_drive_type_lookup :
  (∀ type model : Z,
     (type, model) ∈ drive_type_table →
     drive_image_type_to_drive_type type = model)
  ∧ (∀ type : Z,
       type ∉ drive_type_table.*1 →
       drive_image_type_to_drive_type type = DRIVE_TYPE_NONE).
Proof.
  split.
  - apply type_to_drive_type_table.
  - apply type_to_drive_type_other.
Qed.

(** *** The compatibility check *)

#[global] Instance listed_dec x64 format model : Decision (listed x64 format model).
Proof. unfold listed. apply _. Defined.

(** The table, read as a boolean test. *)
Definition listed_b (x64 : bool) (format model : Z) : bool :=
  existsb (λ row, is_case format row.1 && is_case model row.2) (compat_table x64).

Lemma listed_b_spec x64 format model :
  listed_b x64 format model = true ↔ listed x64 format model.
Proof.
  unfold listed_b, listed. rewrite existsb_exists, Exists_exists.
  split; intros (row & Hrow & Hin); exists row.
  - apply andb_true_iff in Hin as [Hf Hm].
    apply is_case_true in Hf, Hm. by rewrite !list_elem_of_In.
  - destruct Hin as [Hf Hm].
    apply list_elem_of_In in Hrow. apply list_elem_of_In in Hf, Hm.
    split; [done |]. apply andb_true_iff. by rewrite !is_case_true.
Qed.

Lemma drive_check_image_format_listed_b st format dnr unit :
  index (diskunit_context st) dnr = Some unit →
  drive_check_image_format format dnr st
  = Some (if listed_b HAVE_X64_IMAGE format (unit_type unit) then 0 else -1, st).
Proof.
  intros Hunit. distinct_types.
  unfold drive_check_image_format, load_unit, get, lift, mbind, M_bind.
  rewrite Hunit.
  unfold listed_b, compat_table, case_X64, is_case, mret, M_ret.
  destruct HAVE_X64_IMAGE; simpl.
  all: decide_cases; reflexivity.
Qed.

(** C1, as the code has it: for every format and every unit,
    [drive_check_image_format] returns 0 when the pair of the format and the
    unit's drive model is listed in the compatibility table and -1
    otherwise, and it changes nothing; the X64 format belongs to the row of
    D64 only in a build with [HAVE_X64_IMAGE]. *)
Theorem drive_check_image_format_table st format dnr unit :
  index (diskunit_context st) dnr = Some unit →
  ∃ r : Z,
    drive_check_image_format format dnr st = Some (r, st)
    ∧ (r = 0 ↔ listed HAVE_X64_IMAGE format (unit_type unit))
    ∧ (r = -1 ↔ ¬ listed HAVE_X64_IMAGE format (unit_type unit)).
Proof.
  intros Hunit.
  rewrite (drive_check_image_format_listed_b _ _ _ _ Hunit).
  pose proof (listed_b_spec HAVE_X64_IMAGE format (unit_type unit)) as Hs.
  destruct (listed_b HAVE_X64_IMAGE format (unit_type unit)); eexists;
    (split; [reflexivity |]); split; split; try done.
  - intros _. by apply Hs.
  - intros Hn. destruct Hn. by apply Hs.
  - intros Hl. by apply Hs in Hl.
  - intros _ Hl. by apply Hs in Hl.
Qed.

(** *** Running the statements *)

Lemma load_drive_step us c m t dnr drv d :
  drive_of us dnr drv = Some d →
  load_drive dnr drv (Build_state us c m t) = Some (d, Build_state us c m t).
Proof.
  unfold drive_of, load_drive, load_unit, get, lift, mbind, M_bind. simpl.
  destruct (index us dnr); simpl; [| done]. by intros ->.
Qed.

Lemma store_drive_step us c m t dnr drv f d :
  drive_of us dnr drv = Some d →
  store_drive dnr drv f (Build_state us c m t)
  = Some (tt, Build_state (put_drive dnr drv (f d) us) c m t).
Proof.
  unfold drive_of, store_drive, put_drive. simpl.
  destruct (index us dnr); simpl; [| done]. by intros ->.
Qed.

Lemma load_clk_step us c m t dnr clk :
  index c dnr = Some clk →
  load_clk dnr (Build_state us c m t) = Some (clk, Build_state us c m t).
Proof. unfold load_clk, get, lift, mbind, M_bind. simpl. by intros ->. Qed.

Lemma load_image_step us c m t a img :
  m !! a = Some img →
  load_image (Some a) (Build_state us c m t) = Some (img, Build_state us c m t).
Proof. unfold load_image, get, lift, mbind, M_bind. simpl. by intros ->. Qed.

Lemma store_image_step us c m t a f img :
  m !! a = Some img →
  store_image (Some a) f (Build_state us c m t)
  = Some (tt, Build_state us c (<[a := f img]> m) t).
Proof. unfold store_image. simpl. by intros ->. Qed.

Lemma call_step us c m t e :
  call e (Build_state us c m t) = Some (tt, Build_state us c m (t ++ [e])).
Proof. done. Qed.

Lemma bind_step {A B} (m : M A) (k : A → M B) st a st' :
  m st = Some (a, st') → (m ≫= k) st = k a st'.
Proof. unfold mbind, M_bind. by intros ->. Qed.


Ltac solve_drive := first [ eassumption | eapply drive_of_put; solve_drive ].
Ltac solve_image := first [ eassumption | apply lookup_insert_eq ].

Lemma mret_step {A} (a : A) (st : state) : (mret a : M A) st = Some (a, st).
Proof. done. Qed.

Lemma bind_assoc {A B C} (m : M A) (f : A → M B) (g : B → M C) st :
  ((m ≫= f) ≫= g) st = (m ≫= λ x, f x ≫= g) st.
Proof. unfold mbind, M_bind. by destruct (m st) as [[] |]. Qed.

Ltac proj :=
  cbn [image read_only attach_clk detach_clk attach_detach_clk
       ask_extend_disk_image GCR_image_loaded P64_image_loaded P64_dirty
       complicated_image_loaded gcr current_half_track side
       set_image set_read_only set_attach_clk set_detach_clk
       set_attach_detach_clk set_ask_extend_disk_image set_GCR_image_loaded
       set_P64_image_loaded set_P64_dirty set_complicated_image_loaded set_gcr
       img_type img_read_only img_gcr img_p64 set_img_gcr set_img_p64
       data size set_data set_size
       diskunit_context diskunit_clk images trace] in *.

Ltac step :=
  first
    [ erewrite (bind_step (load_drive _ _));
      [| apply load_drive_step; solve_drive ]
    | erewrite (bind_step (store_drive _ _ _));
      [| apply store_drive_step; solve_drive ];
      rewrite ?put_put
    | erewrite (bind_step (load_clk _));
      [| apply load_clk_step; eassumption ]
    | erewrite (bind_step (load_image _));
      [| apply load_image_step; solve_image ]
    | erewrite (bind_step (store_image _ _));
      [| apply store_image_step; solve_image ];
      rewrite ?insert_insert_eq
    | erewrite (bind_step (call _)); [| apply call_step ]
    | erewrite (bind_step (mret _)); [| apply mret_step ]
    | rewrite bind_assoc
    | rewrite mret_step ].

Ltac run := repeat first [ step | progress proj ].

Lemma attach_run_incompatible us c m t a unit drv d img u :
  ¬ (unit < 8 ∨ unit >= 8 + NUM_DISK_UNITS) →
  index us (unit - 8) = Some u →
  drive_of us (unit - 8) drv = Some d →
  m !! a = Some img →
  listed_b HAVE_X64_IMAGE (img_type img) (unit_type u) = false →
  drive_image_attach (Some a) unit drv (Build_state us c m t)
  = Some (-1, Build_state us c m t).
Proof.
  intros Hrange Hu Hd Himg Hl.
  unfold drive_image_attach.
  rewrite bool_decide_eq_false_2 by done.
  cbv zeta.
  do 2 step.
  erewrite bind_step by (apply drive_check_image_format_listed_b; simpl; eassumption).
  rewrite Hl. reflexivity.
Qed.

Lemma attach_run us c m t a unit drv d img u clk :
  ¬ (unit < 8 ∨ unit >= 8 + NUM_DISK_UNITS) →
  index us (unit - 8) = Some u →
  drive_of us (unit - 8) drv = Some d →
  m !! a = Some img →
  index c (unit - 8) = Some clk →
  listed_b HAVE_X64_IMAGE (img_type img) (unit_type u) = true →
  let dnr := unit - 8 in
  let d1 := attach_stamped img clk d in
  let img' := attach_wired dnr drv img in
  let d2 := attach_read a img' d1 in
  drive_image_attach (Some a) unit drv (Build_state us c m t)
  = Some
      (if attach_switch (img_type img) then
         if disk_image_read_image_result img' <? 0 then
           (-1,
            Build_state (put_drive dnr drv (set_image NULL d2) us) c (<[a := img']> m)
              (t ++ [disk_image_attach_log (Some a) unit drv;
                     disk_image_read_image (Some a)]))
         else
           (0,
            Build_state (put_drive dnr drv (attach_loaded img' d2) us) c
              (<[a := img']> m)
              (t ++ [disk_image_attach_log (Some a) unit drv;
                     disk_image_read_image (Some a);
                     drive_set_half_track (current_half_track d) (side d) dnr drv]))
       else (-1, Build_state (put_drive dnr drv d1 us) c m t)).
Proof.
  intros Hrange Hu Hd Himg Hclk Hl. cbv zeta.
  unfold drive_image_attach, attach_read, attach_loaded, attach_stamped, attach_wired.
  rewrite bool_decide_eq_false_2 by done.
  cbv zeta.
  do 2 step.
  erewrite bind_step by (apply drive_check_image_format_listed_b; simpl; eassumption).
  rewrite Hl. rewrite Z.ltb_irrefl.
  do 5 step. proj.
  destruct (detach_clk d >? 0) eqn:Hdc.
  all: run.
  all: destruct (attach_switch (img_type img)) eqn:Hsw;
    unfold attach_switch in Hsw; rewrite Hsw.
  all: run.
  all: unfold call_disk_image_read_image.
  all: run.
  all: try match goal with
           | |- context [disk_image_read_image_result ?i <? 0] =>
               destruct (disk_image_read_image_result i <? 0) eqn:Hres
           end.
  all: run.
  all: try destruct (img_type img =? DISK_IMAGE_TYPE_P64) eqn:Hp64.
  all: run.
  all: rewrite <- ?app_assoc; simpl app.
  all: rewrite ?Hp64; reflexivity.
Qed.

Lemma set_gcr_id d : set_gcr (gcr d) d = d.
Proof. by destruct d. Qed.

Lemma put_drive_id us dnr drv d :
  drive_of us dnr drv = Some d → put_drive dnr drv d us = us.
Proof.
  unfold drive_of, put_drive. intros Hd.
  destruct (index us dnr) as [u |] eqn:Hu; [| done]. simpl in Hd.
  apply index_Some in Hu as [_ Hu]. apply index_Some in Hd as [_ Hd].
  rewrite (list_insert_id _ _ _ Hd).
  apply list_insert_id. by destruct u.
Qed.

Lemma lift_step {A} (o : option A) (x : A) st :
  o = Some x → lift o st = Some (x, st).
Proof. by intros ->. Qed.

Lemma free_tracks_run dnr drv n : ∀ i us c m t d,
  drive_of us dnr drv = Some d →
  (i + n ≤ length (gcr d))%nat →
  free_tracks dnr drv i n (Build_state us c m t)
  = Some (tt,
          Build_state (put_drive dnr drv (set_gcr (freed i n (gcr d)) d) us) c m
            (t ++ free_calls dnr drv i n (gcr d))).
Proof.
  induction n as [| n IH]; intros i us c m t d Hd Hlen.
  - simpl. rewrite mret_step, app_nil_r, set_gcr_id, put_drive_id; done.
  - destruct (lookup_lt_is_Some_2 (gcr d) i) as [trk Htrk]; [lia |].
    cbn [free_tracks freed free_calls]. rewrite Htrk.
    step. erewrite (bind_step (lift _)) by (by apply lift_step).
    destruct trk as [[buf |] sz]; cbn [data].
    + run. unfold set_track. proj.
      erewrite IH; [| solve_drive | proj; rewrite !length_alter; lia].
      rewrite put_put. proj.
      rewrite list_alter_alter_eq, <- app_assoc.
      replace (alter (set_size 0 ∘ set_data None) i (gcr d))
        with (alter free_slot i (gcr d)); [done |].
      apply list_alter_ext; [| done]. intros x Hx.
      rewrite Htrk in Hx. by injection Hx as <-.
    + run.
      replace (alter free_slot i (gcr d)) with (gcr d).
      2:{ rewrite <- (list_alter_id id (gcr d) i) at 1 by done.
          apply list_alter_ext; [| done]. intros x Hx.
          rewrite Htrk in Hx. by injection Hx as <-. }
      erewrite IH; [| solve_drive | lia]. done.
Qed.

Lemma teardown_run us c m t unit drv d clk :
  drive_of us (unit - 8) drv = Some d →
  index c (unit - 8) = Some clk →
  (MAX_GCR_TRACKS ≤ length (gcr d))%nat →
  drive_image_detach_teardown unit drv (Build_state us c m t)
  = Some (0,
          Build_state (put_drive (unit - 8) drv (detached clk d) us) c m
            (t ++ writeback_calls (unit - 8) drv d
                    (disk_image_write_p64_image_result (a ← image d; m !! a))
               ++ free_calls (unit - 8) drv 0 MAX_GCR_TRACKS (gcr d)
               ++ [drive_set_half_track (current_half_track d) (side d)
                     (unit - 8) drv])).
Proof.
  intros Hd Hclk Hlen.
  unfold drive_image_detach_teardown, detached, writeback_calls. cbv zeta.
  step. fold (p64_pending d).
  destruct (p64_pending d) eqn:Hp.
  - unfold call_disk_image_write_p64_image, get. run.
    unfold mbind at 1, M_bind at 1. run.
    match goal with
    | |- context [disk_image_write_p64_image_result ?o <? 0] =>
        destruct (disk_image_write_p64_image_result o <? 0)
    end.
    all: run.
    all: erewrite (bind_step (free_tracks _ _ _ _));
      [| apply free_tracks_run; [solve_drive | proj; lia] ].
    all: rewrite ?put_put; run.
    all: rewrite <- ?app_assoc; reflexivity.
  - run.
    erewrite (bind_step (free_tracks _ _ _ _));
      [| apply free_tracks_run; [solve_drive | proj; lia] ].
    rewrite ?put_put; run.
    rewrite <- ?app_assoc; reflexivity.
Qed.

Lemma length_freed n : ∀ i g, length (freed i n g) = length g.
Proof.
  induction n as [| n IH]; intros i g; [done |].
  simpl. by rewrite IH, length_alter.
Qed.

Lemma freed_lookup n : ∀ i g j,
  freed i n g !! j
  = if bool_decide (i ≤ j < i + n)%nat then free_slot <$> g !! j else g !! j.
Proof.
  induction n as [| n IH]; intros i g j.
  - simpl. rewrite bool_decide_eq_false_2 by lia. done.
  - simpl. rewrite IH.
    destruct (decide (j = i)) as [-> | Hne].
    + rewrite bool_decide_eq_false_2 by lia.
      rewrite bool_decide_eq_true_2 by lia.
      by rewrite list_lookup_alter_eq.
    + rewrite list_lookup_alter_ne by done.
      destruct (decide (i ≤ j < i + S n)%nat).
      * rewrite !bool_decide_eq_true_2 by lia. done.
      * rewrite !bool_decide_eq_false_2 by lia. done.
Qed.

Lemma free_calls_elem dnr drv n : ∀ i g j trk,
  g !! j = Some trk → is_Some (data trk) → (i ≤ j < i + n)%nat →
  lib_free dnr drv j ∈ free_calls dnr drv i n g.
Proof.
  induction n as [| n IH]; intros i g j trk Hj Hdata Hij; [lia |].
  simpl. apply elem_of_app.
  destruct (decide (j = i)) as [-> | Hne].
  - left. rewrite Hj. destruct trk as [[buf |] sz]; [| by destruct Hdata].
    apply list_elem_of_singleton. done.
  - right. apply (IH _ _ _ trk); [| done | lia].
    by rewrite list_lookup_alter_ne.
Qed.

Lemma free_calls_only_free dnr drv n : ∀ i g e,
  e ∈ free_calls dnr drv i n g → ∃ j, e = lib_free dnr drv j.
Proof.
  induction n as [| n IH]; intros i g e He; simpl in He.
  - by apply elem_of_nil in He.
  - apply elem_of_app in He as [He | He]; [| by eapply IH].
    destruct (g !! i) as [[[buf |] sz] |]; try by apply elem_of_nil in He.
    apply list_elem_of_singleton in He. by exists i.
Qed.

(** Reading a successful run backwards. *)
Lemma bind_inv {A B} (m : M A) (k : A → M B) st y :
  (m ≫= k) st = Some y → ∃ a st1, m st = Some (a, st1) ∧ k a st1 = Some y.
Proof.
  unfold mbind, M_bind. destruct (m st) as [[a st1] |]; [| done].
  intros Hk. by exists a, st1.
Qed.

Lemma load_drive_inv dnr drv st d st1 :
  load_drive dnr drv st = Some (d, st1) →
  st1 = st ∧ drive_of (diskunit_context st) dnr drv = Some d
  ∧ ∃ u, index (diskunit_context st) dnr = Some u.
Proof.
  unfold load_drive, load_unit, get, lift, drive_of, mbind at 1 2, M_bind. simpl.
  destruct (index (diskunit_context st) dnr) as [u |]; simpl; [| done].
  destruct (index (drives u) drv); [| done].
  intros [= -> ->]. eauto.
Qed.

Lemma load_image_inv p st img st1 :
  load_image p st = Some (img, st1) →
  st1 = st ∧ ∃ a, p = Some a ∧ images st !! a = Some img.
Proof.
  unfold load_image, get, lift, mbind at 1, M_bind. simpl.
  destruct p as [a |]; simpl; [| done].
  destruct (images st !! a) eqn:Ha; [| done].
  intros [= -> ->]. eauto.
Qed.

Lemma load_clk_inv dnr st clk st1 :
  load_clk dnr st = Some (clk, st1) →
  st1 = st ∧ index (diskunit_clk st) dnr = Some clk.
Proof.
  unfold load_clk, get, lift, mbind, M_bind. simpl.
  destruct (index (diskunit_clk st) dnr); [| done].
  by intros [= -> ->].
Qed.

Lemma store_drive_inv dnr drv f st x st1 :
  store_drive dnr drv f st = Some (x, st1) →
  diskunit_clk st1 = diskunit_clk st ∧ images st1 = images st.
Proof.
  unfold store_drive.
  destruct (index (diskunit_context st) dnr) as [u |]; simpl; [| done].
  destruct (index (drives u) drv); simpl; [| done].
  by intros [= _ <-].
Qed.

(** What an in-range call of the attach routine must have found to return
    at all. *)
Lemma attach_inv image unit drv st r st' :
  ¬ (unit < 8 ∨ unit >= 8 + NUM_DISK_UNITS) →
  drive_image_attach image unit drv st = Some (r, st') →
  ∃ a img u d,
    image = Some a ∧ images st !! a = Some img
    ∧ index (diskunit_context st) (unit - 8) = Some u
    ∧ drive_of (diskunit_context st) (unit - 8) drv = Some d
    ∧ (listed_b HAVE_X64_IMAGE (img_type img) (unit_type u) = true →
       ∃ clk, index (diskunit_clk st) (unit - 8) = Some clk).
Proof.
  intros Hrange. unfold drive_image_attach.
  rewrite bool_decide_eq_false_2 by done. cbv zeta. intros Hrun.
  apply bind_inv in Hrun as (d & st1 & Hd & Hrun).
  apply load_drive_inv in Hd as (-> & Hd & u & Hu).
  apply bind_inv in Hrun as (img & st1 & Himg & Hrun).
  apply load_image_inv in Himg as (-> & a & -> & Himg).
  exists a, img, u, d. repeat (split; [done |]).
  intros Hl.
  apply bind_inv in Hrun as (r0 & st1 & Hchk & Hrun).
  rewrite (drive_check_image_format_listed_b _ _ _ _ Hu), Hl in Hchk.
  injection Hchk as <- <-. rewrite Z.ltb_irrefl in Hrun.
  apply bind_inv in Hrun as (img1 & st1 & Himg1 & Hrun).
  apply load_image_inv in Himg1 as (-> & _).
  apply bind_inv in Hrun as (x & st2 & Hst & Hrun).
  apply store_drive_inv in Hst as (Hc & _).
  apply bind_inv in Hrun as (clk & st3 & Hclk & _).
  apply load_clk_inv in Hclk as (-> & Hclk).
  exists clk. by rewrite <- Hc.
Qed.

(** C2, as the code has it: [drive_image_attach] has no rollback.  A call
    that returns -1 has either changed nothing, and then the unit number is
    out of range or the pair of the image's format and the unit's model is
    not in the compatibility table; or it failed later, on an in-range unit
    and a pair of the table, and then the drive already carries the image's
    [read_only], the clock of the unit as [attach_clk] (and as
    [attach_detach_clk] when [detach_clk] is positive) and
    [DRIVE_EXTEND_ASK], while [detach_clk], both loaded flags, [P64_dirty]
    and [complicated_image_loaded] are as they were.  The later failure is
    either a format the switch of the attach routine does not know, which
    leaves the image pointer, the buffers, the image descriptors and the
    calls as they were, or a failing [disk_image_read_image], which leaves
    the image pointer [NULL]. *)
Theorem drive_image_attach_failure st image unit drv st' :
  drive_image_attach image unit drv st = Some (-1, st') →
  ((* the unit number or the format is rejected: nothing was written *)
   ((unit < 8 ∨ unit >= 8 + NUM_DISK_UNITS
     ∨ ∃ a img u,
         image = Some a ∧ images st !! a = Some img
         ∧ index (diskunit_context st) (unit - 8) = Some u
         ∧ ¬ listed HAVE_X64_IMAGE (img_type img) (unit_type u))
    ∧ st' = st)
   (* a later failure, of an in-range unit and a listed pair: the drive is
      already stamped *)
   ∨ ∃ a img u clk d d',
       8 ≤ unit < 8 + NUM_DISK_UNITS
       ∧ image = Some a ∧ images st !! a = Some img
       ∧ index (diskunit_context st) (unit - 8) = Some u
       ∧ listed HAVE_X64_IMAGE (img_type img) (unit_type u)
       ∧ index (diskunit_clk st) (unit - 8) = Some clk
       ∧ drive_at st (unit - 8) drv = Some d
       ∧ drive_at st' (unit - 8) drv = Some d'
       ∧ read_only d' = img_read_only img
       ∧ attach_clk d' = clk
       ∧ attach_detach_clk d' = (if detach_clk d >? 0 then clk else attach_detach_clk d)
       ∧ ask_extend_disk_image d' = DRIVE_EXTEND_ASK
       ∧ detach_clk d' = detach_clk d
       ∧ GCR_image_loaded d' = GCR_image_loaded d
       ∧ P64_image_loaded d' = P64_image_loaded d
       ∧ P64_dirty d' = P64_dirty d
       ∧ complicated_image_loaded d' = complicated_image_loaded d
       ∧ ((attach_switch (img_type img) = false
           ∧ DriveImage.image d' = DriveImage.image d ∧ gcr d' = gcr d
           ∧ images st' = images st ∧ trace st' = trace st)
          ∨ (attach_switch (img_type img) = true
             ∧ disk_image_read_image_result (attach_wired (unit - 8) drv img) < 0
             ∧ DriveImage.image d' = NULL)))
  (* so a rejected unit number or format always leaves the state as it was *)
  ∧ (unit < 8 ∨ unit >= 8 + NUM_DISK_UNITS
     ∨ (∃ a img u,
          image = Some a ∧ images st !! a = Some img
          ∧ index (diskunit_context st) (unit - 8) = Some u
          ∧ ¬ listed HAVE_X64_IMAGE (img_type img) (unit_type u)) →
     st' = st).
Proof.
  intros Hrun.
  match goal with |- ?cases ∧ _ => assert cases as Hcases end.
  2:{ split; [exact Hcases |]. intros Hrejected.
      destruct Hcases as [[_ Hsame] | (a & img & u & clk & d & d' & Hrange & Ha & Himg
                                       & Hu & Hlisted & _)]; [exact Hsame |].
      exfalso.
      destruct Hrejected as [Hlow | [Hhigh | (a0 & img0 & u0 & Ha0 & Himg0 & Hu0 & Hnot)] ];
        [lia | lia |].
      rewrite Ha in Ha0. injection Ha0 as <-.
      rewrite Himg in Himg0. injection Himg0 as <-.
      rewrite Hu in Hu0. injection Hu0 as <-.
      by apply Hnot. }
  destruct (decide (unit < 8 ∨ unit >= 8 + NUM_DISK_UNITS)) as [Hout | Hin].
  { left. unfold drive_image_attach in Hrun.
    rewrite bool_decide_eq_true_2 in Hrun by done.
    injection Hrun as <-. split; [| done]. tauto. }
  assert (8 ≤ unit < 8 + NUM_DISK_UNITS) as Hrange by lia.
  destruct (attach_inv _ _ _ _ _ _ Hin Hrun) as (a & img & u & d & -> & Himg & Hu & Hd & Hclk).
  destruct st as [us c m t]. proj.
  destruct (listed_b HAVE_X64_IMAGE (img_type img) (unit_type u)) eqn:Hl.
  - destruct Hclk as [clk Hclk]; [done |].
    assert (listed HAVE_X64_IMAGE (img_type img) (unit_type u)) as Hlisted
      by (by apply listed_b_spec).
    right. exists a, img, u, clk, d.
    rewrite (attach_run _ _ _ _ _ _ _ _ _ _ _ Hin Hu Hd Himg Hclk Hl) in Hrun.
    cbv zeta in Hrun.
    destruct (attach_switch (img_type img)) eqn:Hsw.
    + destruct (disk_image_read_image_result _ <? 0) eqn:Hres;
        [| by injection Hrun].
      injection Hrun as <-. eexists.
      split; [exact Hrange |]. do 3 (split; [done |]). split; [exact Hlisted |].
      repeat (split; [done |]).
      split; [by eapply drive_of_put |].
      unfold attach_read, attach_stamped.
      destruct (detach_clk d >? 0); proj; repeat (split; [done |]).
      all: right; repeat (split; [done |]); split; [| done].
      all: by apply Z.ltb_lt.
    + injection Hrun as <-. eexists.
      split; [exact Hrange |]. do 3 (split; [done |]). split; [exact Hlisted |].
      repeat (split; [done |]).
      split; [by eapply drive_of_put |].
      unfold attach_read, attach_stamped.
      destruct (detach_clk d >? 0); proj; repeat (split; [done |]).
      all: by left.
  - left.
    rewrite (attach_run_incompatible _ _ _ _ _ _ _ _ _ _ Hin Hu Hd Himg Hl) in Hrun.
    injection Hrun as <-. split; [| done].
    right. right. exists a, img, u. repeat (split; [done |]).
    rewrite <- listed_b_spec. by rewrite Hl.
Qed.


(** How a detach call runs on a drive that exists. *)
Lemma detach_run us c m t image unit drv d clk :
  ¬ (unit < 8 ∨ unit >= 8 + NUM_DISK_UNITS) →
  drive_of us (unit - 8) drv = Some d →
  index c (unit - 8) = Some clk →
  (MAX_GCR_TRACKS ≤ length (gcr d))%nat →
  (DriveImage.image d = NULL
   ∨ ∃ a img, image = Some a ∧ m !! a = Some img ∧ detach_switch (img_type img) = true) →
  drive_image_detach image unit drv (Build_state us c m t)
  = Some (0,
          Build_state (put_drive (unit - 8) drv (detached clk d) us) c m
            (t ++ (if DriveImage.image d is Some _
                   then [disk_image_detach_log image unit drv] else [])
               ++ writeback_calls (unit - 8) drv d
                    (disk_image_write_p64_image_result (a ← DriveImage.image d; m !! a))
               ++ free_calls (unit - 8) drv 0 MAX_GCR_TRACKS (gcr d)
               ++ [drive_set_half_track (current_half_track d) (side d)
                     (unit - 8) drv])).
Proof.
  intros Hrange Hd Hclk Hlen Himage.
  unfold drive_image_detach.
  rewrite bool_decide_eq_false_2 by done. cbv zeta.
  erewrite (bind_step (load_drive _ _)); [| by apply load_drive_step].
  destruct (DriveImage.image d) as [a0 |] eqn:Hptr.
  - destruct Himage as [? | (a & img & -> & Himg & Hsw)]; [done |].
    erewrite (bind_step (load_image _)); [| by apply load_image_step].
    unfold detach_switch in Hsw. rewrite Hsw.
    erewrite (bind_step (call _)); [| apply call_step].
    rewrite (teardown_run _ _ _ _ _ _ _ _ Hd Hclk Hlen), Hptr.
    by rewrite <- !app_assoc.
  - rewrite (teardown_run _ _ _ _ _ _ _ _ Hd Hclk Hlen), Hptr.
    done.
Qed.

Lemma detached_slots clk d i t1 :
  length (gcr d) = MAX_GCR_TRACKS →
  gcr d !! i = Some t1 →
  gcr (detached clk d) !! i = Some (free_slot t1).
Proof.
  intros Hlen Hi. unfold detached. cbv zeta. proj.
  replace (gcr (if p64_pending d then set_P64_dirty 0 d else d)) with (gcr d)
    by (by destruct (p64_pending d)).
  rewrite freed_lookup. rewrite bool_decide_eq_true_2.
  - by rewrite Hi.
  - apply lookup_lt_Some in Hi. lia.
Qed.

Lemma detached_flags clk d :
  DriveImage.image (detached clk d) = NULL
  ∧ read_only (detached clk d) = 0
  ∧ GCR_image_loaded (detached clk d) = 0
  ∧ P64_image_loaded (detached clk d) = 0
  ∧ detach_clk (detached clk d) = clk
  ∧ length (gcr (detached clk d)) = length (gcr d)
  ∧ (p64_pending d = true → P64_dirty (detached clk d) = 0).
Proof.
  unfold detached. cbv zeta. proj. repeat (split; [done |]).
  split.
  - rewrite length_freed. by destruct (p64_pending d).
  - by intros ->.
Qed.

Lemma free_slot_spec t1 :
  data (free_slot t1) = None
  ∧ (is_Some (data t1) → size (free_slot t1) = 0)
  ∧ (data t1 = None → free_slot t1 = t1).
Proof.
  unfold free_slot. destruct t1 as [[buf |] sz]; simpl; repeat split; try done.
Qed.



Lemma free_slot_idem t : free_slot (free_slot t) = free_slot t.
Proof. by destruct t as [[buf |] sz]. Qed.

Lemma freed_idem n i g : freed i n (freed i n g) = freed i n g.
Proof.
  apply list_eq. intros j. rewrite !freed_lookup.
  destruct (bool_decide (i ≤ j < i + n)%nat); [| done].
  destruct (g !! j); simpl; [| done]. by rewrite free_slot_idem.
Qed.

Lemma detached_idem clk d : detached clk (detached clk d) = detached clk d.
Proof.
  unfold detached. cbv zeta.
  set (dw := if p64_pending d then set_P64_dirty 0 d else d).
  unfold p64_pending at 1 2. proj. rewrite Z.eqb_refl. simpl negb. simpl andb.
  cbv iota. proj. rewrite freed_idem. reflexivity.
Qed.

Lemma detached_no_buffers clk d :
  length (gcr d) = MAX_GCR_TRACKS →
  Forall (λ t, data t = None) (gcr (detached clk d)).
Proof.
  intros Hlen. apply Forall_lookup. intros i t2 Hi2.
  destruct (lookup_lt_is_Some_2 (gcr d) i) as [t1 Hi1].
  { apply lookup_lt_Some in Hi2.
    destruct (detached_flags clk d) as (_ & _ & _ & _ & _ & Hl & _). lia. }
  rewrite (detached_slots clk d i t1 Hlen Hi1) in Hi2. injection Hi2 as <-.
  apply free_slot_spec.
Qed.

(** C6: a drive with a P64 image loaded and dirty.  Whatever
    [disk_image_write_p64_image] returns, the detach returns 0, the dirty
    flag and both loaded flags are clear, the image pointer is [NULL], no
    slot holds a buffer and every buffer that was present has been handed
    to [lib_free]; when the write-back fails the failure is logged. *)
Theorem detach_dirty_p64_write_back st a img unit drv d clk :
  8 ≤ unit < 8 + NUM_DISK_UNITS →
  drive_at st (unit - 8) drv = Some d →
  index (diskunit_clk st) (unit - 8) = Some clk →
  length (gcr d) = MAX_GCR_TRACKS →
  DriveImage.image d = Some a →
  images st !! a = Some img →
  img_type img = DISK_IMAGE_TYPE_P64 →
  P64_image_loaded d ≠ 0 →
  P64_dirty d ≠ 0 →
  ∃ st' d',
    drive_image_detach (Some a) unit drv st = Some (0, st')
    ∧ drive_at st' (unit - 8) drv = Some d'
    ∧ P64_dirty d' = 0
    ∧ P64_image_loaded d' = 0
    ∧ GCR_image_loaded d' = 0
    ∧ DriveImage.image d' = NULL
    ∧ length (gcr d') = MAX_GCR_TRACKS
    ∧ Forall (λ t, data t = None) (gcr d')
    ∧ (∀ i t, gcr d !! i = Some t → is_Some (data t) →
         lib_free (unit - 8) drv i ∈ trace st')
    ∧ disk_image_write_p64_image (Some a) ∈ trace st'
    ∧ (disk_image_write_p64_image_result (Some img) < 0 →
       log_error (unit - 8) "Cannot write disk image back." ∈ trace st').
Proof.
  intros Hrange Hd Hclk Hlen Hptr Himg Hty Hloaded Hdirty.
  destruct st as [us c m t]. unfold drive_at in *. proj.
  assert (p64_pending d = true) as Hpend.
  { unfold p64_pending. apply andb_true_iff.
    split; apply negb_true_iff; by apply Z.eqb_neq. }
  rewrite (detach_run _ _ _ _ _ _ _ _ clk) by
    first [ lia | done
          | right; exists a, img; repeat (split; [done |]);
            unfold detach_switch; apply is_case_true; rewrite Hty;
            apply in_or_app; left; simpl; tauto ].
  eexists _, (detached clk d). split; [reflexivity |]. proj.
  split; [by eapply drive_of_put |].
  destruct (detached_flags clk d) as (Hi & _ & Hg & Hp & _ & Hl & Hdy).
  split; [by apply Hdy |]. repeat (split; [done |]).
  split; [by rewrite Hl |].
  split; [by apply detached_no_buffers |].
  rewrite Hptr. unfold writeback_calls. rewrite Hpend, Hptr. simpl mbind. rewrite Himg.
  split; [| split].
  - intros i trk Hi1 Hsome. rewrite !elem_of_app. right. right. right. left.
    eapply free_calls_elem; [done | done |]. apply lookup_lt_Some in Hi1. lia.
  - rewrite !elem_of_app. right. right. left. apply elem_of_cons. by left.
  - intros Hfail. apply Z.ltb_lt in Hfail. rewrite Hfail.
    rewrite !elem_of_app. right. right. left. apply elem_of_cons. right.
    apply elem_of_cons. by left.
Qed.

(** C10: a drive with nothing attached, in a unit of the valid range.
    Whatever image pointer the call is given, the format check is skipped
    (nothing is logged for the image), the GCR write-back is invoked, every
    buffer still present is released with its size set to 0 and no slot
    holds a buffer, [detach_clk] is stamped, both loaded flags and
    [read_only] are clear, the image pointer stays [NULL] and the call
    returns 0.  A second detach returns 0 again and leaves the drive as the
    first did. *)
Theorem detach_empty_drive st image unit drv d clk :
  8 ≤ unit < 8 + NUM_DISK_UNITS →
  drive_at st (unit - 8) drv = Some d →
  index (diskunit_clk st) (unit - 8) = Some clk →
  length (gcr d) = MAX_GCR_TRACKS →
  Empty d →
  ∃ st' d',
    drive_image_detach image unit drv st = Some (0, st')
    ∧ drive_at st' (unit - 8) drv = Some d'
    ∧ trace st'
      = trace st
        ++ [drive_gcr_data_writeback (unit - 8) drv]
        ++ free_calls (unit - 8) drv 0 MAX_GCR_TRACKS (gcr d)
        ++ [drive_set_half_track (current_half_track d) (side d) (unit - 8) drv]
    ∧ detach_clk d' = clk
    ∧ GCR_image_loaded d' = 0
    ∧ P64_image_loaded d' = 0
    ∧ read_only d' = 0
    ∧ DriveImage.image d' = NULL
    ∧ length (gcr d') = MAX_GCR_TRACKS
    ∧ (∀ i t1, gcr d !! i = Some t1 →
         lib_free (unit - 8) drv i ∈ trace st' ∨ data t1 = None)
    ∧ (∀ i t1, gcr d !! i = Some t1 →
         ∃ t2, gcr d' !! i = Some t2 ∧ data t2 = None
               ∧ (is_Some (data t1) → size t2 = 0)
               ∧ (data t1 = None → size t2 = size t1))
    ∧ ∃ st'',
        drive_image_detach image unit drv st' = Some (0, st'')
        ∧ drive_at st'' (unit - 8) drv = Some d'.
Proof.
  intros Hrange Hd Hclk Hlen (Hnull & Hgcr & Hp64).
  destruct st as [us c m t]. unfold drive_at in *. proj.
  assert (p64_pending d = false) as Hpend.
  { unfold p64_pending. by rewrite Hp64. }
  rewrite (detach_run _ _ _ _ _ _ _ _ clk) by first [ lia | done | by left ].
  eexists _, (detached clk d). split; [reflexivity |]. proj.
  assert (drive_of (put_drive (unit - 8) drv (detached clk d) us) (unit - 8) drv
          = Some (detached clk d)) as Hd' by (by eapply drive_of_put).
  split; [done |].
  destruct (detached_flags clk d) as (Hi & Hro & Hg & Hp & Hdc & Hl & _).
  rewrite Hnull. unfold writeback_calls. rewrite Hpend. rewrite app_nil_l.
  split; [done |]. repeat (split; [done |]).
  split; [by rewrite Hl |].
  split; [| split].
  - intros i t1 Hi1. destruct (data t1) eqn:Hdata; [left | by right].
    rewrite !elem_of_app. right. right. left.
    eapply free_calls_elem; [done | by rewrite Hdata |].
    apply lookup_lt_Some in Hi1. lia.
  - intros i t1 Hi1. exists (free_slot t1).
    split; [by apply detached_slots |].
    destruct (free_slot_spec t1) as (? & ? & Hkeep).
    repeat (split; [done |]). intros Hn. by rewrite Hkeep.
  - rewrite (detach_run _ _ _ _ _ _ _ _ clk) by
      first [ lia | done | by left | by rewrite Hl, Hlen ].
    eexists. split; [reflexivity |]. proj.
    rewrite put_put, detached_idem. done.
Qed.

(** *** The drive type suggested for a format *)

(** X1: the drive model [drive_image_type_to_drive_type] suggests for an
    image format always takes that format: whenever the function returns a
    model other than [DRIVE_TYPE_NONE] and the unit is of that model,
    [drive_check_image_format] returns 0 and changes nothing. *)
Theorem suggested_drive_type_accepts_format st format dnr unit :
  index (diskunit_context st) dnr = Some unit →
  unit_type unit = drive_image_type_to_drive_type format →
  drive_image_type_to_drive_type format ≠ DRIVE_TYPE_NONE →
  drive_check_image_format format dnr st = Some (0, st).
Proof.
  intros Hunit Hty Hsome.
  rewrite (drive_check_image_format_listed_b _ _ _ _ Hunit), Hty.
  replace (listed_b HAVE_X64_IMAGE format (drive_image_type_to_drive_type format))
    with true; [done |].
  symmetry. distinct_types. revert Hsome.
  unfold drive_image_type_to_drive_type, listed_b, compat_table, is_case.
  destruct HAVE_X64_IMAGE; simpl;
    repeat match goal with
           | |- context [Z.eqb format ?b] =>
               destruct (Z.eqb_spec format b); try congruence; simpl
           end;
    rewrite ?Z.eqb_refl, ?orb_true_r; simpl; done.
Qed.

(** *** Formats that are checked alike *)

(** The answer of the check in terms of the table, also where the unit
    index is outside the array. *)
Lemma drive_check_image_format_run st format dnr :
  drive_check_image_format format dnr st
  = u ← index (diskunit_context st) dnr;
    Some (if listed_b HAVE_X64_IMAGE format (unit_type u) then 0 else -1, st).
Proof.
  destruct (index (diskunit_context st) dnr) as [u |] eqn:Hu.
  - by rewrite (drive_check_image_format_listed_b _ _ _ _ Hu).
  - unfold drive_check_image_format, load_unit, get, lift, mbind, M_bind.
    by rewrite Hu.
Qed.

Ltac compare_tags :=
  distinct_types;
  unfold listed_b, compat_table, is_case; destruct HAVE_X64_IMAGE; simpl;
  repeat match goal with
         | |- context [Z.eqb ?a ?a] => rewrite (Z.eqb_refl a)
         | Hne : ?a ≠ ?b |- context [Z.eqb ?a ?b] =>
             rewrite (proj2 (Z.eqb_neq a b) Hne)
         | Hne : ?b ≠ ?a |- context [Z.eqb ?a ?b] =>
             rewrite (proj2 (Z.eqb_neq a b) (not_eq_sym Hne))
         end;
  simpl.

(** X2: the groups of formats of [drive_check_image_format].  The formats
    D64, G64, P64 and D67 get the same answer on every unit, although D67
    has a block of its own in the switch; so do G71 and D71, D80 and D82,
    and D1M, D2M and D4M. *)
Theorem drive_check_image_format_groups st dnr :
  drive_check_image_format DISK_IMAGE_TYPE_G64 dnr st
  = drive_check_image_format DISK_IMAGE_TYPE_D64 dnr st
  ∧ drive_check_image_format DISK_IMAGE_TYPE_P64 dnr st
    = drive_check_image_format DISK_IMAGE_TYPE_D64 dnr st
  ∧ drive_check_image_format DISK_IMAGE_TYPE_D67 dnr st
    = drive_check_image_format DISK_IMAGE_TYPE_D64 dnr st
  ∧ drive_check_image_format DISK_IMAGE_TYPE_D71 dnr st
    = drive_check_image_format DISK_IMAGE_TYPE_G71 dnr st
  ∧ drive_check_image_format DISK_IMAGE_TYPE_D82 dnr st
    = drive_check_image_format DISK_IMAGE_TYPE_D80 dnr st
  ∧ drive_check_image_format DISK_IMAGE_TYPE_D2M dnr st
    = drive_check_image_format DISK_IMAGE_TYPE_D1M dnr st
  ∧ drive_check_image_format DISK_IMAGE_TYPE_D4M dnr st
    = drive_check_image_format DISK_IMAGE_TYPE_D1M dnr st.
Proof.
  rewrite !drive_check_image_format_run.
  destruct (index (diskunit_context st) dnr) as [u |]; [| done]. simpl.
  repeat split; do 3 f_equal; compare_tags; reflexivity.
Qed.

(** X3: newer drives take the older formats.  A unit that passes the
    check for a G71 image passes it for D64, G64, P64 and D67 images, and a
    unit that passes it for a D1M image passes it for a D81 image. *)
Theorem drive_check_image_format_older_formats st dnr :
  (drive_check_image_format DISK_IMAGE_TYPE_G71 dnr st = Some (0, st) →
   drive_check_image_format DISK_IMAGE_TYPE_D64 dnr st = Some (0, st))
  ∧ (drive_check_image_format DISK_IMAGE_TYPE_D1M dnr st = Some (0, st) →
     drive_check_image_format DISK_IMAGE_TYPE_D81 dnr st = Some (0, st)).
Proof.
  rewrite !drive_check_image_format_run.
  destruct (index (diskunit_context st) dnr) as [u |]; [| done]. simpl.
  split.
  - replace (listed_b HAVE_X64_IMAGE DISK_IMAGE_TYPE_G71 (unit_type u))
      with ((unit_type u =? DRIVE_TYPE_1571) || (unit_type u =? DRIVE_TYPE_1571CR))
      by (compare_tags; by rewrite ?orb_false_r).
    replace (listed_b HAVE_X64_IMAGE DISK_IMAGE_TYPE_D64 (unit_type u))
      with (is_case (unit_type u)
              [DRIVE_TYPE_1540; DRIVE_TYPE_1541; DRIVE_TYPE_1541II; DRIVE_TYPE_1551;
               DRIVE_TYPE_1570; DRIVE_TYPE_1571; DRIVE_TYPE_1571CR; DRIVE_TYPE_2031;
               DRIVE_TYPE_2040; DRIVE_TYPE_3040; DRIVE_TYPE_4040])
      by (compare_tags; by rewrite ?orb_false_r).
    unfold is_case. simpl.
    destruct (unit_type u =? DRIVE_TYPE_1571); simpl;
      [intros _; by rewrite ?orb_true_r |].
    destruct (unit_type u =? DRIVE_TYPE_1571CR); simpl;
      [intros _; by rewrite ?orb_true_r | done].
  - replace (listed_b HAVE_X64_IMAGE DISK_IMAGE_TYPE_D1M (unit_type u))
      with ((unit_type u =? DRIVE_TYPE_2000) || (unit_type u =? DRIVE_TYPE_4000))
      by (compare_tags; by rewrite ?orb_false_r).
    replace (listed_b HAVE_X64_IMAGE DISK_IMAGE_TYPE_D81 (unit_type u))
      with (is_case (unit_type u)
              [DRIVE_TYPE_1581; DRIVE_TYPE_2000; DRIVE_TYPE_4000])
      by (compare_tags; by rewrite ?orb_false_r).
    unfold is_case. simpl.
    destruct (unit_type u =? DRIVE_TYPE_2000); simpl;
      [intros _; by rewrite ?orb_true_r |].
    destruct (unit_type u =? DRIVE_TYPE_4000); simpl;
      [intros _; by rewrite ?orb_true_r | done].
Qed.

(** *** Every outcome of the attach routine *)

(** What an in-range call that returns has found and done. *)
Lemma attach_outcome st image unit drv r st' :
  ¬ (unit < 8 ∨ unit >= 8 + NUM_DISK_UNITS) →
  drive_image_attach image unit drv st = Some (r, st') →
  ∃ a img u d,
    image = Some a ∧ images st !! a = Some img
    ∧ index (diskunit_context st) (unit - 8) = Some u
    ∧ drive_at st (unit - 8) drv = Some d
    ∧ if listed_b HAVE_X64_IMAGE (img_type img) (unit_type u) then
        ∃ clk,
          index (diskunit_clk st) (unit - 8) = Some clk
          ∧ let dnr := unit - 8 in
            let d1 := attach_stamped img clk d in
            let img' := attach_wired dnr drv img in
            let d2 := attach_read a img' d1 in
            (r, st')
            = if attach_switch (img_type img) then
                if disk_image_read_image_result img' <? 0 then
                  (-1,
                   Build_state (put_drive dnr drv (set_image NULL d2)
                                  (diskunit_context st))
                     (diskunit_clk st) (<[a := img']> (images st))
                     (trace st ++ [disk_image_attach_log (Some a) unit drv;
                                   disk_image_read_image (Some a)]))
                else
                  (0,
                   Build_state (put_drive dnr drv (attach_loaded img' d2)
                                  (diskunit_context st))
                     (diskunit_clk st) (<[a := img']> (images st))
                     (trace st ++ [disk_image_attach_log (Some a) unit drv;
                                   disk_image_read_image (Some a);
                                   drive_set_half_track (current_half_track d)
                                     (side d) dnr drv]))
              else
                (-1,
                 Build_state (put_drive dnr drv d1 (diskunit_context st))
                   (diskunit_clk st) (images st) (trace st))
      else (r, st') = (-1, st).
Proof.
  intros Hrange Hrun.
  destruct (attach_inv _ _ _ _ _ _ Hrange Hrun)
    as (a & img & u & d & -> & Himg & Hu & Hd & Hclk).
  exists a, img, u, d. do 4 (split; [done |]).
  destruct st as [us c m t]. cbn [diskunit_context diskunit_clk images trace] in *.
  destruct (listed_b HAVE_X64_IMAGE (img_type img) (unit_type u)) eqn:Hl.
  - destruct (Hclk eq_refl) as [clk Hc]. exists clk. split; [done |].
    rewrite (attach_run us c m t a unit drv d img u clk Hrange Hu Hd Himg Hc Hl)
      in Hrun.
    cbv zeta. apply (inj Some) in Hrun. symmetry. exact Hrun.
  - rewrite (attach_run_incompatible us c m t a unit drv d img u Hrange Hu Hd Himg Hl)
      in Hrun.
    apply (inj Some) in Hrun. symmetry. exact Hrun.
Qed.

(** X4: [drive_image_attach] returns 0 or -1, and it returns 0 exactly when
    the unit number is in range, the pair of the image's format and the
    unit's model is in the compatibility table, the format is one the
    switch of the attach routine knows (D64, D67, D71, G64, G71, P64, and
    X64 in a build with [HAVE_X64_IMAGE]) and [disk_image_read_image] does
    not return a negative value.  So an image of any other format (D81,
    D80, D82, D90, D1M, D2M, D4M, DHD) is never attached, whatever the
    drive. *)
Theorem drive_image_attach_success_iff st image unit drv r st' :
  drive_image_attach image unit drv st = Some (r, st') →
  (r = 0 ∨ r = -1)
  ∧ (r = 0 ↔
       8 ≤ unit < 8 + NUM_DISK_UNITS
       ∧ ∃ a img u,
           image = Some a ∧ images st !! a = Some img
           ∧ index (diskunit_context st) (unit - 8) = Some u
           ∧ listed HAVE_X64_IMAGE (img_type img) (unit_type u)
           ∧ attach_switch (img_type img) = true
           ∧ 0 ≤ disk_image_read_image_result (attach_wired (unit - 8) drv img)).
Proof.
  intros Hrun.
  destruct (decide (unit < 8 ∨ unit >= 8 + NUM_DISK_UNITS)) as [Hout | Hin].
  { unfold drive_image_attach in Hrun.
    rewrite bool_decide_eq_true_2 in Hrun by done.
    injection Hrun as <- <-. split; [by right |].
    split; [done | intros [? _]; lia]. }
  destruct (attach_outcome _ _ _ _ _ _ Hin Hrun)
    as (a & img & u & d & -> & Himg & Hu & Hd & Hcases).
  pose proof (listed_b_spec HAVE_X64_IMAGE (img_type img) (unit_type u)) as Hspec.
  assert ((8 ≤ unit < 8 + NUM_DISK_UNITS
           ∧ ∃ a0 img0 u0,
               Some a = Some a0 ∧ images st !! a0 = Some img0
               ∧ index (diskunit_context st) (unit - 8) = Some u0
               ∧ listed HAVE_X64_IMAGE (img_type img0) (unit_type u0)
               ∧ attach_switch (img_type img0) = true
               ∧ 0 ≤ disk_image_read_image_result
                       (attach_wired (unit - 8) drv img0)) →
          listed HAVE_X64_IMAGE (img_type img) (unit_type u)
          ∧ attach_switch (img_type img) = true
          ∧ 0 ≤ disk_image_read_image_result (attach_wired (unit - 8) drv img))
    as Hback.
  { intros (_ & a0 & img0 & u0 & [= <-] & Himg0 & Hu0 & Hrest).
    rewrite Himg in Himg0. injection Himg0 as <-.
    rewrite Hu in Hu0. injection Hu0 as <-. exact Hrest. }
  destruct (listed_b HAVE_X64_IMAGE (img_type img) (unit_type u)).
  - destruct Hcases as (clk & Hclk & Hres). cbv zeta in Hres.
    destruct (attach_switch (img_type img)) eqn:Hsw.
    + destruct (Z.ltb_spec (disk_image_read_image_result
                              (attach_wired (unit - 8) drv img)) 0) as [Hneg | Hpos].
      * pose proof (f_equal fst Hres) as Hr. cbn [fst] in Hr. subst r.
        split; [by right |]. split; [done |]. intros Hall.
        apply Hback in Hall. lia.
      * pose proof (f_equal fst Hres) as Hr. cbn [fst] in Hr. subst r.
        split; [by left |]. split; [| done]. intros _.
        split; [lia |]. exists a, img, u. repeat (split; [done |]).
        split; [by apply Hspec |]. split; [done | exact Hpos].
    + pose proof (f_equal fst Hres) as Hr. cbn [fst] in Hr. subst r.
      split; [by right |]. split; [done |]. intros Hall.
      apply Hback in Hall. destruct Hall as (_ & Hsw' & _). congruence.
  - pose proof (f_equal fst Hcases) as Hr. cbn [fst] in Hr. subst r.
    split; [by right |]. split; [done |]. intros Hall.
    apply Hback in Hall. destruct Hall as (Hl & _).
    apply Hspec in Hl. done.
Qed.

(** X5: what a successful attach leaves, whatever the drive held before.
    The drive points to the image and carries the image's [read_only], the
    clock of the unit as [attach_clk] (and as [attach_detach_clk] when
    [detach_clk] is positive) and [DRIVE_EXTEND_ASK]; the image's [gcr] and
    [p64] pointers point to the buffers of the drive, whose track slots
    hold what [disk_image_read_image] left.  The loaded flag of the
    image's kind is set and the other one is not touched, [P64_dirty] is
    cleared for a P64 image only, and [detach_clk], [current_half_track]
    and [side] are kept.  The calls made are [disk_image_attach_log],
    [disk_image_read_image] and [drive_set_half_track], in this order. *)
Theorem drive_image_attach_success_state st image unit drv st' :
  drive_image_attach image unit drv st = Some (0, st') →
  ∃ a img clk d d',
    image = Some a ∧ images st !! a = Some img
    ∧ index (diskunit_clk st) (unit - 8) = Some clk
    ∧ drive_at st (unit - 8) drv = Some d
    ∧ drive_at st' (unit - 8) drv = Some d'
    ∧ DriveImage.image d' = Some a
    ∧ read_only d' = img_read_only img
    ∧ attach_clk d' = clk
    ∧ attach_detach_clk d' = (if detach_clk d >? 0 then clk else attach_detach_clk d)
    ∧ ask_extend_disk_image d' = DRIVE_EXTEND_ASK
    ∧ P64_image_loaded d'
      = (if img_type img =? DISK_IMAGE_TYPE_P64 then 1 else P64_image_loaded d)
    ∧ GCR_image_loaded d'
      = (if img_type img =? DISK_IMAGE_TYPE_P64 then GCR_image_loaded d else 1)
    ∧ P64_dirty d' = (if img_type img =? DISK_IMAGE_TYPE_P64 then 0 else P64_dirty d)
    ∧ complicated_image_loaded d'
      = Z.b2z ((img_type img =? DISK_IMAGE_TYPE_P64)
               || (img_type img =? DISK_IMAGE_TYPE_G64)
               || (img_type img =? DISK_IMAGE_TYPE_G71))
    ∧ detach_clk d' = detach_clk d
    ∧ current_half_track d' = current_half_track d
    ∧ side d' = side d
    ∧ gcr d'
      = imap (disk_image_read_image_track (attach_wired (unit - 8) drv img)) (gcr d)
    ∧ images st' !! a
      = Some {| img_type := img_type img; img_read_only := img_read_only img;
                img_gcr := Some (unit - 8, drv); img_p64 := Some (unit - 8, drv) |}
    ∧ trace st'
      = trace st
        ++ [disk_image_attach_log (Some a) unit drv;
            disk_image_read_image (Some a);
            drive_set_half_track (current_half_track d) (side d) (unit - 8) drv].
Proof.
  intros Hrun.
  destruct (decide (unit < 8 ∨ unit >= 8 + NUM_DISK_UNITS)) as [Hout | Hin].
  { unfold drive_image_attach in Hrun.
    rewrite bool_decide_eq_true_2 in Hrun by done. discriminate Hrun. }
  destruct (attach_outcome _ _ _ _ _ _ Hin Hrun)
    as (a & img & u & d & -> & Himg & Hu & Hd & Hcases).
  destruct (listed_b HAVE_X64_IMAGE (img_type img) (unit_type u));
    [| discriminate Hcases].
  destruct Hcases as (clk & Hclk & Hres). cbv zeta in Hres.
  destruct (attach_switch (img_type img)); [| discriminate Hres].
  destruct (disk_image_read_image_result _ <? 0); [discriminate Hres |].
  pose proof (f_equal snd Hres) as Hst. cbn [snd] in Hst. subst st'. clear Hres.
  eexists a, img, clk, d, _.
  do 4 (split; [done |]).
  split; [unfold drive_at; cbn [diskunit_context]; by eapply drive_of_put |].
  unfold attach_loaded, attach_read, attach_stamped, attach_wired.
  clear Hrun. cbn [images trace]. rewrite lookup_insert_eq. proj.
  destruct (img_type img =? DISK_IMAGE_TYPE_P64), (detach_clk d >? 0); proj;
    repeat (split; [reflexivity |]); reflexivity.
Qed.

(** *** What a call leaves alone *)

Lemma index_insert_ne {A} (l : list A) i j y :
  0 ≤ i → i ≠ j → index (<[Z.to_nat i := y]> l) j = index l j.
Proof.
  intros Hi Hne. unfold index.
  destruct (decide (0 ≤ j)).
  - rewrite bool_decide_eq_true_2 by done. apply list_lookup_insert_ne. lia.
  - by rewrite bool_decide_eq_false_2.
Qed.

Lemma drive_of_put_ne us dnr drv d0 d dnr' drv' :
  drive_of us dnr drv = Some d0 →
  (dnr', drv') ≠ (dnr, drv) →
  drive_of (put_drive dnr drv d us) dnr' drv' = drive_of us dnr' drv'.
Proof.
  unfold drive_of, put_drive. intros Hd Hne.
  destruct (index us dnr) as [u |] eqn:Hu; [| done]. simpl in Hd.
  apply index_Some in Hu as Hu'. destruct Hu' as [Hdnr _].
  apply index_Some in Hd as Hd'. destruct Hd' as [Hdrv _].
  destruct (decide (dnr' = dnr)) as [-> | Hdiff].
  - rewrite (index_insert_eq _ _ _ _ Hu), Hu. simpl.
    apply index_insert_ne; [done |]. congruence.
  - by rewrite index_insert_ne.
Qed.

Lemma put_drive_touches_only us c m m' t t' dnr drv d0 d :
  drive_of us dnr drv = Some d0 →
  touches_only dnr drv (Build_state us c m t)
    (Build_state (put_drive dnr drv d us) c m' (t ++ t')).
Proof.
  intros Hd. unfold touches_only, drive_at. cbn [diskunit_context diskunit_clk trace].
  split; [done |].
  assert (∃ u, index us dnr = Some u ∧ 0 ≤ dnr) as (u & Hu & Hdnr).
  { unfold drive_of in Hd. destruct (index us dnr) as [u |] eqn:Hu; [| done].
    exists u. split; [done |]. by apply index_Some in Hu as [? _]. }
  unfold put_drive. rewrite Hu.
  split; [by rewrite length_insert |].
  split; [| split; [| split] ].
  - intros k. destruct (decide (k = dnr)) as [-> | Hk].
    + by rewrite (index_insert_eq _ _ _ _ Hu), Hu.
    + by rewrite index_insert_ne.
  - intros k. destruct (decide (k = dnr)) as [-> | Hk].
    + rewrite (index_insert_eq _ _ _ _ Hu), Hu. simpl. by rewrite length_insert.
    + by rewrite index_insert_ne.
  - intros dnr' drv' Hne.
    pose proof (drive_of_put_ne us dnr drv d0 d dnr' drv' Hd Hne) as Hput.
    unfold put_drive in Hput. by rewrite Hu in Hput.
  - by apply prefix_app_r.
Qed.

#[local] Instance touches_only_refl dnr drv : Reflexive (touches_only dnr drv).
Proof. intros st. unfold touches_only. by repeat split. Qed.

#[local] Instance touches_only_trans dnr drv : Transitive (touches_only dnr drv).
Proof.
  intros st1 st2 st3 (Hc1 & Hl1 & Hu1 & Hn1 & Hd1 & Ht1) (Hc2 & Hl2 & Hu2 & Hn2 & Hd2 & Ht2).
  unfold touches_only. split; [congruence |]. split; [congruence |].
  split; [intros k; by rewrite Hu2 |]. split; [intros k; by rewrite Hn2 |].
  split; [intros ? ? Hne; by rewrite Hd2, Hd1 | by etransitivity].
Qed.

(** X6: whatever [drive_image_attach] returns, it touches only the drive
    it was given and the image it was given.  The clocks, the models and
    the sizes of the units, every other drive and every other image
    descriptor are as they were; of the image it changes neither the type
    nor [read_only]; the drive keeps its number of track slots; calls are
    only added. *)
Theorem drive_image_attach_frame st image unit drv r st' :
  drive_image_attach image unit drv st = Some (r, st') →
  touches_only (unit - 8) drv st st'
  ∧ (∀ b, image ≠ Some b → images st' !! b = images st !! b)
  ∧ (∀ b img, images st !! b = Some img →
       ∃ img', images st' !! b = Some img'
               ∧ img_type img' = img_type img
               ∧ img_read_only img' = img_read_only img)
  ∧ (∀ d d', drive_at st (unit - 8) drv = Some d →
       drive_at st' (unit - 8) drv = Some d' →
       length (gcr d') = length (gcr d)).
Proof.
  intros Hrun.
  destruct (decide (unit < 8 ∨ unit >= 8 + NUM_DISK_UNITS)) as [Hout | Hin].
  { unfold drive_image_attach in Hrun.
    rewrite bool_decide_eq_true_2 in Hrun by done. injection Hrun as <- <-.
    split; [reflexivity |]. split; [done |]. split; [by eauto |].
    intros d d' Hd Hd'. congruence. }
  destruct (attach_outcome _ _ _ _ _ _ Hin Hrun)
    as (a & img & u & d & -> & Himg & Hu & Hd & Hcases).
  assert (∀ m' t' dx,
            length (gcr dx) = length (gcr d) →
            (∀ b, Some a ≠ Some b → m' !! b = images st !! b) →
            (∃ img', m' !! a = Some img' ∧ img_type img' = img_type img
                     ∧ img_read_only img' = img_read_only img) →
            st' = Build_state (put_drive (unit - 8) drv dx (diskunit_context st))
                    (diskunit_clk st) m' (trace st ++ t') →
            touches_only (unit - 8) drv st st'
            ∧ (∀ b, Some a ≠ Some b → images st' !! b = images st !! b)
            ∧ (∀ b img0, images st !! b = Some img0 →
                 ∃ img', images st' !! b = Some img'
                         ∧ img_type img' = img_type img0
                         ∧ img_read_only img' = img_read_only img0)
            ∧ (∀ d0 d', drive_at st (unit - 8) drv = Some d0 →
                 drive_at st' (unit - 8) drv = Some d' →
                 length (gcr d') = length (gcr d0))) as Hput.
  { intros m' t' dx Hlen Hother Hsame ->.
    split; [destruct st; by eapply put_drive_touches_only |].
    cbn [images]. split; [exact Hother |]. split.
    - intros b img0 Hb. destruct (decide (a = b)) as [<- | Hab].
      + rewrite Himg in Hb. injection Hb as <-. exact Hsame.
      + exists img0. rewrite Hother by congruence. done.
    - intros d0 d' Hd0 Hd'. unfold drive_at in Hd'. cbn [diskunit_context] in Hd'.
      rewrite (drive_of_put _ _ _ _ _ Hd) in Hd'. injection Hd' as <-.
      unfold drive_at in Hd, Hd0. congruence. }
  destruct (listed_b HAVE_X64_IMAGE (img_type img) (unit_type u)).
  - destruct Hcases as (clk & Hclk & Hres). cbv zeta in Hres.
    assert (∀ b, Some a ≠ Some b →
              <[a := attach_wired (unit - 8) drv img]> (images st) !! b
              = images st !! b) as Hins.
    { intros b Hab. apply lookup_insert_ne. congruence. }
    assert (length (gcr (attach_read a (attach_wired (unit - 8) drv img)
                           (attach_stamped img clk d))) = length (gcr d)) as Hlen.
    { unfold attach_read, attach_stamped. proj. rewrite length_imap.
      by destruct (detach_clk d >? 0). }
    assert (∃ img', <[a := attach_wired (unit - 8) drv img]> (images st) !! a
                    = Some img'
                    ∧ img_type img' = img_type img
                    ∧ img_read_only img' = img_read_only img) as Hwired.
    { rewrite lookup_insert_eq. eexists. split; [done |]. by unfold attach_wired. }
    destruct (attach_switch (img_type img)).
    + destruct (disk_image_read_image_result _ <? 0);
        pose proof (f_equal snd Hres) as Hst; cbn [snd] in Hst.
      * exact (Hput _ _ (set_image NULL _) Hlen Hins Hwired Hst).
      * refine (Hput _ _ _ _ Hins Hwired Hst).
        rewrite <- Hlen. unfold attach_loaded.
        by destruct (img_type _ =? DISK_IMAGE_TYPE_P64).
    + pose proof (f_equal snd Hres) as Hst. cbn [snd] in Hst.
      rewrite <- (app_nil_r (trace st)) in Hst.
      refine (Hput _ _ _ _ (λ b _, eq_refl) _ Hst).
      * unfold attach_stamped. by destruct (detach_clk d >? 0).
      * by exists img.
  - injection Hcases as -> ->.
    split; [reflexivity |]. split; [done |]. split; [by eauto |].
    intros d0 d' Hd0 Hd'. congruence.
Qed.

(** *** Every outcome of the detach routine *)

Lemma keeps_ret {A} R `{!Reflexive R} (a : A) : keeps R (mret a).
Proof. intros st a' st' [= _ <-]. reflexivity. Qed.

Lemma keeps_bind {A B} R `{!Transitive R} (m : M A) (k : A → M B) :
  keeps R m → (∀ a, keeps R (k a)) → keeps R (m ≫= k).
Proof.
  intros Hm Hk st b st' Hrun.
  apply bind_inv in Hrun as (a & st1 & Hrun1 & Hrun2).
  etransitivity; [by eapply Hm | by eapply Hk].
Qed.

Lemma keeps_load_drive R `{!Reflexive R} dnr drv : keeps R (load_drive dnr drv).
Proof. intros st d st' Hrun. apply load_drive_inv in Hrun as [-> _]. reflexivity. Qed.

Lemma keeps_load_clk R `{!Reflexive R} dnr : keeps R (load_clk dnr).
Proof. intros st d st' Hrun. apply load_clk_inv in Hrun as [-> _]. reflexivity. Qed.

Lemma keeps_load_image R `{!Reflexive R} p : keeps R (load_image p).
Proof. intros st d st' Hrun. apply load_image_inv in Hrun as [-> _]. reflexivity. Qed.

Lemma keeps_lift {A} R `{!Reflexive R} (o : option A) : keeps R (lift o).
Proof. intros st a st'. unfold lift. destruct o; [| done]. by intros [= _ <-]. Qed.

Lemma keeps_get R `{!Reflexive R} : keeps R get.
Proof. by intros st a st' [= _ <-]. Qed.

#[local] Instance detach_frame_refl dnr drv : Reflexive (detach_frame dnr drv).
Proof. intros st. by split. Qed.

#[local] Instance detach_frame_trans dnr drv : Transitive (detach_frame dnr drv).
Proof.
  intros st1 st2 st3 [Ht1 Hi1] [Ht2 Hi2].
  split; [by etransitivity | congruence].
Qed.

Lemma keeps_call dnr drv e : keeps (detach_frame dnr drv) (call e).
Proof.
  intros st a st' [= _ <-]. split; [| done].
  unfold touches_only, drive_at. cbn [diskunit_context diskunit_clk trace].
  repeat (split; [done |]). by apply prefix_app_r.
Qed.

Lemma keeps_store_drive dnr drv f : keeps (detach_frame dnr drv) (store_drive dnr drv f).
Proof.
  intros [us c m t] a st'. unfold store_drive. cbn [diskunit_context].
  destruct (index us dnr) as [u |] eqn:Hu; simpl; [| done].
  destruct (index (drives u) drv) as [d |] eqn:Hd; simpl; [| done].
  intros [= _ <-]. split; [| done].
  assert (drive_of us dnr drv = Some d) as Hdrive.
  { unfold drive_of. by rewrite Hu. }
  pose proof (put_drive_touches_only us c m m t [] dnr drv d (f d) Hdrive) as Hput.
  unfold put_drive in Hput. by rewrite Hu, app_nil_r in Hput.
Qed.

Ltac keeps_frame_with known :=
  repeat first
    [ known
    | apply keeps_bind; [apply _ | | intros ?]
    | apply keeps_ret; apply _
    | apply keeps_load_drive; apply _
    | apply keeps_load_clk; apply _
    | apply keeps_load_image; apply _
    | apply keeps_lift; apply _
    | apply keeps_get; apply _
    | apply keeps_call
    | apply keeps_store_drive
    | match goal with
      | |- keeps _ (if ?b then _ else _) => destruct b
      | |- keeps _ (match ?x with _ => _ end) => destruct x
      end ].

Ltac keeps_frame := keeps_frame_with fail.

Lemma keeps_free_tracks dnr drv n : ∀ i,
  keeps (detach_frame dnr drv) (free_tracks dnr drv i n).
Proof.
  induction n as [| n IH]; intros i; cbn [free_tracks].
  - keeps_frame.
  - keeps_frame_with ltac:(apply IH).
Qed.

Lemma keeps_teardown unit drv :
  keeps (detach_frame (unit - 8) drv) (drive_image_detach_teardown unit drv).
Proof.
  unfold drive_image_detach_teardown, call_disk_image_write_p64_image. cbv zeta.
  keeps_frame_with ltac:(apply keeps_free_tracks).
Qed.

Lemma teardown_returns_0 unit drv st r st' :
  drive_image_detach_teardown unit drv st = Some (r, st') → r = 0.
Proof.
  unfold drive_image_detach_teardown. cbv zeta. intros Hrun.
  repeat (apply bind_inv in Hrun as (? & ? & _ & Hrun); cbv beta in Hrun).
  by injection Hrun as <- _.
Qed.

(** X7: a detach that returns -1 has changed nothing, and it returns -1 in
    two cases only: the unit number is out of range, or the drive holds an
    image and the format of the image the call was given is not one the
    switch of the detach routine knows. *)
Theorem drive_image_detach_failure st image unit drv st' :
  drive_image_detach image unit drv st = Some (-1, st') →
  st' = st
  ∧ (unit < 8 ∨ unit >= 8 + NUM_DISK_UNITS
     ∨ ∃ d a img,
         drive_at st (unit - 8) drv = Some d ∧ DriveImage.image d ≠ NULL
         ∧ image = Some a ∧ images st !! a = Some img
         ∧ detach_switch (img_type img) = false).
Proof.
  unfold drive_image_detach.
  destruct (decide (unit < 8 ∨ unit >= 8 + NUM_DISK_UNITS)) as [Hout | Hin].
  { rewrite bool_decide_eq_true_2 by done. intros [= <-]. split; [done | tauto]. }
  rewrite bool_decide_eq_false_2 by done. cbv zeta. intros Hrun.
  apply bind_inv in Hrun as (d & st1 & Hd & Hrun).
  apply load_drive_inv in Hd as (-> & Hd & _).
  destruct (DriveImage.image d) as [a0 |] eqn:Hptr.
  - apply bind_inv in Hrun as (img & st1 & Himg & Hrun).
    apply load_image_inv in Himg as (-> & a & -> & Himg).
    fold (detach_switch (img_type img)) in Hrun.
    destruct (detach_switch (img_type img)) eqn:Hsw.
    + apply bind_inv in Hrun as (? & st1 & _ & Hrun).
      apply teardown_returns_0 in Hrun. discriminate Hrun.
    + injection Hrun as <-. split; [done |]. right. right.
      exists d, a, img. rewrite Hptr. done.
  - apply teardown_returns_0 in Hrun. discriminate Hrun.
Qed.

(** X8: whatever [drive_image_detach] returns, it touches only the drive
    it was given.  The clocks, the models and the sizes of the units and
    every other drive are as they were, no image descriptor is written (the
    image that was attached keeps its pointers to the buffers of the
    drive), and calls are only added. *)
Theorem drive_image_detach_frame st image unit drv r st' :
  drive_image_detach image unit drv st = Some (r, st') →
  touches_only (unit - 8) drv st st' ∧ images st' = images st.
Proof.
  revert st r st'. change (keeps (detach_frame (unit - 8) drv)
                             (drive_image_detach image unit drv)).
  unfold drive_image_detach. cbv zeta.
  keeps_frame_with ltac:(apply keeps_teardown).
Qed.

(** *** The buffers a detach releases *)

Lemma free_calls_filter dnr drv g n : ∀ i g',
  (∀ j, (i ≤ j)%nat → g' !! j = g !! j) →
  free_calls dnr drv i n g' = lib_free dnr drv <$> filter (buffered g) (seq i n).
Proof.
  induction n as [| n IH]; intros i g' Hsame; [done |].
  cbn [free_calls seq]. rewrite filter_cons.
  rewrite (IH (S i) (alter free_slot i g')).
  2:{ intros j Hj. rewrite list_lookup_alter_ne by lia. apply Hsame. lia. }
  rewrite (Hsame i) by lia.
  destruct (g !! i) as [[[buf |] sz] |] eqn:Hslot; simpl.
  - rewrite decide_True; [done |]. unfold buffered. rewrite Hslot. by eexists.
  - rewrite decide_False; [done |]. unfold buffered. rewrite Hslot. by intros [? ?].
  - rewrite decide_False; [done |]. unfold buffered. rewrite Hslot. by intros [? ?].
Qed.

Lemma lib_free_inj dnr drv : Inj (=) (=) (lib_free dnr drv).
Proof. by intros i j [= ->]. Qed.

(** X9: a detach that goes through releases each buffer exactly once.  The
    calls it makes are, in this order: [disk_image_detach_log] when an
    image was attached; the write-back ([disk_image_write_p64_image] for a
    P64 image that is dirty, followed by [log_error] when it fails, and
    [drive_gcr_data_writeback] otherwise); one [lib_free] for each track
    slot below [MAX_GCR_TRACKS] that holds a buffer, in increasing order
    and for no other slot; [drive_set_half_track]. *)
Theorem drive_image_detach_releases_once st image unit drv d clk :
  8 ≤ unit < 8 + NUM_DISK_UNITS →
  drive_at st (unit - 8) drv = Some d →
  index (diskunit_clk st) (unit - 8) = Some clk →
  (MAX_GCR_TRACKS ≤ length (gcr d))%nat →
  (DriveImage.image d = NULL
   ∨ ∃ a img, image = Some a ∧ images st !! a = Some img
              ∧ detach_switch (img_type img) = true) →
  ∃ st' released,
    drive_image_detach image unit drv st = Some (0, st')
    ∧ released
      = lib_free (unit - 8) drv <$> filter (buffered (gcr d)) (seq 0 MAX_GCR_TRACKS)
    ∧ trace st'
      = trace st
        ++ (if DriveImage.image d is Some _
            then [disk_image_detach_log image unit drv] else [])
        ++ (if (P64_image_loaded d !=? 0) && (P64_dirty d !=? 0)
            then disk_image_write_p64_image (DriveImage.image d)
                 :: (if disk_image_write_p64_image_result
                          (a ← DriveImage.image d; images st !! a) <? 0
                     then [log_error (unit - 8) "Cannot write disk image back."]
                     else [])
            else [drive_gcr_data_writeback (unit - 8) drv])
        ++ released
        ++ [drive_set_half_track (current_half_track d) (side d) (unit - 8) drv]
    ∧ NoDup released
    ∧ ∀ i, lib_free (unit - 8) drv i ∈ released
           ↔ (i < MAX_GCR_TRACKS)%nat ∧ ∃ t buf, gcr d !! i = Some t ∧ data t = Some buf.
Proof.
  intros Hrange Hd Hclk Hlen Himage.
  destruct st as [us c m t]. unfold drive_at in Hd.
  cbn [diskunit_context diskunit_clk images trace] in *.
  eexists _, _.
  split; [apply (detach_run us c m t image unit drv d clk); [lia | done..] |].
  split; [reflexivity |]. cbn [trace].
  split.
  { unfold writeback_calls, p64_pending.
    by rewrite (free_calls_filter _ _ (gcr d)). }
  split.
  { apply NoDup_fmap_2; [apply lib_free_inj |].
    apply NoDup_filter, NoDup_seq. }
  intros i. rewrite list_elem_of_fmap. split.
  - intros (j & [= ->] & Hj). apply list_elem_of_filter in Hj as [Hbuf Hj].
    apply elem_of_seq in Hj. split; [lia |].
    destruct Hbuf as [buf Hbuf].
    destruct (gcr d !! j) as [trk |]; [| done]. by exists trk, buf.
  - intros (Hi & trk & buf & Hslot & Hdata). exists i. split; [done |].
    apply list_elem_of_filter. split.
    + unfold buffered. rewrite Hslot. by exists buf.
    + apply elem_of_seq. lia.
Qed.

(** *** The arrays are indexed inside their bounds *)

Lemma well_formed_unit drv st dnr :
  well_formed drv st → 0 ≤ dnr < NUM_DISK_UNITS →
  ∃ u d clk,
    index (diskunit_context st) dnr = Some u
    ∧ drive_at st dnr drv = Some d
    ∧ length (gcr d) = MAX_GCR_TRACKS
    ∧ index (diskunit_clk st) dnr = Some clk.
Proof.
  intros (Hus & Hc & Hall) Hdnr.
  destruct (lookup_lt_is_Some_2 (diskunit_context st) (Z.to_nat dnr)) as [u Hu];
    [lia |].
  destruct (lookup_lt_is_Some_2 (diskunit_clk st) (Z.to_nat dnr)) as [clk Hclk];
    [lia |].
  destruct (Forall_lookup_1 _ _ _ _ Hall Hu) as (d & Hd & Hlen).
  assert (index (diskunit_context st) dnr = Some u) as Hu'
    by (apply index_Some; split; [lia | done]).
  exists u, d, clk. split; [done |].
  split; [unfold drive_at, drive_of; by rewrite Hu' |].
  split; [done |]. apply index_Some. split; [lia | done].
Qed.

Lemma well_formed_put drv us c m t dnr d0 d m' t' :
  well_formed drv (Build_state us c m t) →
  drive_of us dnr drv = Some d0 →
  length (gcr d) = MAX_GCR_TRACKS →
  well_formed drv (Build_state (put_drive dnr drv d us) c m' t').
Proof.
  intros (Hus & Hc & Hall) Hd Hlen. unfold well_formed.
  cbn [diskunit_context diskunit_clk] in *.
  unfold put_drive, drive_of in *.
  destruct (index us dnr) as [u |] eqn:Hu; [| done]. simpl in Hd.
  rewrite length_insert. split; [done |]. split; [done |].
  apply Forall_insert; [done |].
  exists d. split; [| done]. cbn [drives set_drives].
  by eapply index_insert_eq.
Qed.

(** X10: the range check of the unit number keeps [drive_image_attach]
    inside the arrays.  In a state where [diskunit_context] and
    [diskunit_clk] have [NUM_DISK_UNITS] entries and every unit has the
    drive [drv], a call with a valid image pointer returns for every unit
    number, in or out of range, and the state it leaves has the same
    shape. *)
Theorem drive_image_attach_in_bounds st a img unit drv :
  well_formed drv st →
  images st !! a = Some img →
  ∃ r st',
    drive_image_attach (Some a) unit drv st = Some (r, st')
    ∧ well_formed drv st'.
Proof.
  intros Hwf Himg.
  destruct (decide (unit < 8 ∨ unit >= 8 + NUM_DISK_UNITS)) as [Hout | Hin].
  { exists (-1), st. unfold drive_image_attach.
    by rewrite bool_decide_eq_true_2. }
  destruct (well_formed_unit drv st (unit - 8) Hwf) as (u & d & clk & Hu & Hd & Hlen & Hclk);
    [lia |].
  destruct st as [us c m t]. unfold drive_at in Hd.
  cbn [diskunit_context diskunit_clk images] in *.
  destruct (listed_b HAVE_X64_IMAGE (img_type img) (unit_type u)) eqn:Hl.
  - rewrite (attach_run us c m t a unit drv d img u clk Hin Hu Hd Himg Hclk Hl).
    cbv zeta.
    assert (length (gcr (attach_stamped img clk d)) = MAX_GCR_TRACKS) as Hlen1.
    { unfold attach_stamped. by destruct (detach_clk d >? 0). }
    assert (length (gcr (attach_read a (attach_wired (unit - 8) drv img)
                           (attach_stamped img clk d))) = MAX_GCR_TRACKS) as Hlen2.
    { unfold attach_read. cbn [gcr set_gcr]. by rewrite length_imap. }
    destruct (attach_switch (img_type img)).
    + destruct (disk_image_read_image_result _ <? 0); eexists _, _;
        (split; [reflexivity |]); eapply well_formed_put; try done.
      unfold attach_loaded.
      by destruct (img_type _ =? DISK_IMAGE_TYPE_P64).
    + eexists _, _. split; [reflexivity |]. by eapply well_formed_put.
  - rewrite (attach_run_incompatible us c m t a unit drv d img u Hin Hu Hd Himg Hl).
    by eexists _, _.
Qed.

(** X11: the same for [drive_image_detach], which also needs the image
    pointer only when the drive holds an image: in a state of that shape,
    with an image pointer that is valid whenever the drive's own is not
    [NULL], a call returns for every unit number and leaves a state of the
    same shape. *)
Theorem drive_image_detach_in_bounds st image unit drv :
  well_formed drv st →
  (∀ d, drive_at st (unit - 8) drv = Some d → DriveImage.image d ≠ NULL →
        ∃ a img, image = Some a ∧ images st !! a = Some img) →
  ∃ r st',
    drive_image_detach image unit drv st = Some (r, st')
    ∧ well_formed drv st'.
Proof.
  intros Hwf Hvalid.
  destruct (decide (unit < 8 ∨ unit >= 8 + NUM_DISK_UNITS)) as [Hout | Hin].
  { exists (-1), st. unfold drive_image_detach.
    by rewrite bool_decide_eq_true_2. }
  destruct (well_formed_unit drv st (unit - 8) Hwf) as (u & d & clk & Hu & Hd & Hlen & Hclk);
    [lia |].
  specialize (Hvalid d Hd).
  destruct st as [us c m t]. unfold drive_at in Hd.
  cbn [diskunit_context diskunit_clk images] in *.
  assert (length (gcr (detached clk d)) = MAX_GCR_TRACKS) as Hlen'.
  { destruct (detached_flags clk d) as (_ & _ & _ & _ & _ & Hl & _). congruence. }
  destruct (DriveImage.image d) as [a0 |] eqn:Hptr.
  - destruct Hvalid as (a & img & -> & Himg); [done |].
    destruct (detach_switch (img_type img)) eqn:Hsw.
    + rewrite (detach_run us c m t (Some a) unit drv d clk Hin Hd Hclk); [| lia |].
      2:{ right. by exists a, img. }
      eexists _, _. split; [reflexivity |]. by eapply well_formed_put.
    + exists (-1), (Build_state us c m t). split; [| done].
      unfold drive_image_detach. rewrite bool_decide_eq_false_2 by done. cbv zeta.
      step. rewrite Hptr. step.
      unfold detach_switch in Hsw. by rewrite Hsw.
  - rewrite (detach_run us c m t image unit drv d clk Hin Hd Hclk); [| lia | by left].
    eexists _, _. split; [reflexivity |]. by eapply well_formed_put.
Qed.

(** *** What a detach that returns has found *)

#[local] Instance slots_kept_refl dnr drv : Reflexive (slots_kept dnr drv).
Proof. intros st. split; [done |]. intros d Hd. by exists d. Qed.

#[local] Instance slots_kept_trans dnr drv : Transitive (slots_kept dnr drv).
Proof.
  intros st1 st2 st3 [Hc1 Hd1] [Hc2 Hd2]. split; [congruence |].
  intros d Hd. destruct (Hd1 d Hd) as (d' & Hd' & Hl').
  destruct (Hd2 d' Hd') as (d'' & Hd'' & Hl''). exists d''. split; [done | congruence].
Qed.

Lemma slots_kept_call dnr drv e : keeps (slots_kept dnr drv) (call e).
Proof. intros st a st' [= _ <-]. split; [done |]. intros d Hd. by exists d. Qed.

Lemma slots_kept_store_drive dnr drv f :
  (∀ d, length (gcr (f d)) = length (gcr d)) →
  keeps (slots_kept dnr drv) (store_drive dnr drv f).
Proof.
  intros Hf [us c m t] a st'. unfold store_drive. cbn [diskunit_context].
  destruct (index us dnr) as [u |] eqn:Hu; simpl; [| done].
  destruct (index (drives u) drv) as [d |] eqn:Hd; simpl; [| done].
  intros [= _ <-]. split; [done |].
  assert (drive_of us dnr drv = Some d) as Hdrive.
  { unfold drive_of. by rewrite Hu. }
  intros d0 Hd0. unfold drive_at in *. cbn [diskunit_context] in *.
  exists (f d). split; [| congruence].
  pose proof (drive_of_put us dnr drv d (f d) Hdrive) as Hput.
  unfold put_drive in Hput. by rewrite Hu in Hput.
Qed.

Ltac keeps_slots known :=
  keeps_frame_with
    ltac:(first [ known
                | apply slots_kept_call
                | apply slots_kept_store_drive; intros ?; unfold set_track;
                  cbn [gcr set_gcr set_P64_dirty]; rewrite ?length_alter; reflexivity ]).

Lemma slots_kept_free_tracks dnr drv n : ∀ i,
  keeps (slots_kept dnr drv) (free_tracks dnr drv i n).
Proof.
  induction n as [| n IH]; intros i; cbn [free_tracks].
  - keeps_slots fail.
  - keeps_slots ltac:(apply IH).
Qed.

Lemma free_tracks_inv dnr drv n : ∀ i st x st' d,
  free_tracks dnr drv i n st = Some (x, st') →
  drive_at st dnr drv = Some d →
  (0 < n)%nat → (i + n ≤ length (gcr d))%nat.
Proof.
  induction n as [| n IH]; intros i st x st' d Hrun Hd Hn; [lia |].
  cbn [free_tracks] in Hrun.
  apply bind_inv in Hrun as (d0 & st0 & Hload & Hrun).
  apply load_drive_inv in Hload as (-> & Hd0 & _).
  unfold drive_at in Hd. rewrite Hd in Hd0. injection Hd0 as <-.
  apply bind_inv in Hrun as (trk & st0 & Hslot & Hrun).
  unfold lift in Hslot. destruct (gcr d !! i) as [trk0 |] eqn:Hi; [| done].
  injection Hslot as -> <-. apply lookup_lt_Some in Hi.
  apply bind_inv in Hrun as ([] & st1 & Hfree & Hrun).
  assert (slots_kept dnr drv st st1) as [_ Hkept].
  { match type of Hfree with
    | ?m _ = _ => assert (keeps (slots_kept dnr drv) m) as Hk by keeps_slots fail
    end.
    by eapply Hk. }
  destruct (Hkept d Hd) as (d1 & Hd1 & Hl1).
  destruct n as [| n]; [lia |].
  pose proof (IH (S i) st1 x st' d1 Hrun Hd1 ltac:(lia)). lia.
Qed.

Lemma teardown_inv unit drv st r st' :
  drive_image_detach_teardown unit drv st = Some (r, st') →
  ∃ d clk,
    drive_at st (unit - 8) drv = Some d
    ∧ index (diskunit_clk st) (unit - 8) = Some clk
    ∧ (MAX_GCR_TRACKS ≤ length (gcr d))%nat.
Proof.
  unfold drive_image_detach_teardown. cbv zeta. intros Hrun.
  apply bind_inv in Hrun as (d & st0 & Hload & Hrun).
  apply load_drive_inv in Hload as (-> & Hd & _).
  apply bind_inv in Hrun as ([] & st1 & Hwb & Hrun).
  assert (slots_kept (unit - 8) drv st st1) as [Hc1 Hk1].
  { match type of Hwb with
    | ?m _ = _ =>
        assert (keeps (slots_kept (unit - 8) drv) m) as Hk
          by (unfold call_disk_image_write_p64_image; keeps_slots fail)
    end.
    by eapply Hk. }
  destruct (Hk1 d Hd) as (d1 & Hd1 & Hl1).
  apply bind_inv in Hrun as ([] & st2 & Hfree & Hrun).
  destruct (slots_kept_free_tracks _ _ _ _ _ _ _ Hfree) as [Hc2 _].
  apply bind_inv in Hrun as (clk & st3 & Hclk & _).
  apply load_clk_inv in Hclk as (-> & Hclk).
  exists d, clk. split; [done |]. split; [congruence |].
  destruct MAX_GCR_TRACKS as [| n] eqn:Hmax; [lia |].
  pose proof (free_tracks_inv _ _ _ _ _ _ _ _ Hfree Hd1 ltac:(lia)). lia.
Qed.

(** X12: what a detach that returns 0 leaves.  The drive has no image,
    [read_only] and both loaded flags are 0, [detach_clk] is the clock of
    the unit, no track slot below [MAX_GCR_TRACKS] holds a buffer, and
    [P64_dirty] is cleared when a dirty P64 image was loaded.  The routine
    does not touch [attach_clk], [attach_detach_clk],
    [ask_extend_disk_image], [current_half_track], [side] or
    [complicated_image_loaded], which stays set after a G64, G71 or P64
    image has been detached. *)
Theorem drive_image_detach_success_state st image unit drv st' :
  drive_image_detach image unit drv st = Some (0, st') →
  ∃ d clk d',
    drive_at st (unit - 8) drv = Some d
    ∧ index (diskunit_clk st) (unit - 8) = Some clk
    ∧ drive_at st' (unit - 8) drv = Some d'
    ∧ DriveImage.image d' = NULL
    ∧ read_only d' = 0
    ∧ GCR_image_loaded d' = 0
    ∧ P64_image_loaded d' = 0
    ∧ detach_clk d' = clk
    ∧ P64_dirty d'
      = (if (P64_image_loaded d !=? 0) && (P64_dirty d !=? 0) then 0 else P64_dirty d)
    ∧ attach_clk d' = attach_clk d
    ∧ attach_detach_clk d' = attach_detach_clk d
    ∧ ask_extend_disk_image d' = ask_extend_disk_image d
    ∧ complicated_image_loaded d' = complicated_image_loaded d
    ∧ current_half_track d' = current_half_track d
    ∧ side d' = side d
    ∧ length (gcr d') = length (gcr d)
    ∧ ∀ i t, gcr d' !! i = Some t →
        if bool_decide (i < MAX_GCR_TRACKS)%nat
        then data t = None
        else gcr d !! i = Some t.
Proof.
  intros Hrun.
  assert (¬ (unit < 8 ∨ unit >= 8 + NUM_DISK_UNITS)) as Hin.
  { intros Hout. unfold drive_image_detach in Hrun.
    rewrite bool_decide_eq_true_2 in Hrun by done. discriminate Hrun. }
  assert (∃ d clk,
            drive_at st (unit - 8) drv = Some d
            ∧ index (diskunit_clk st) (unit - 8) = Some clk
            ∧ (MAX_GCR_TRACKS ≤ length (gcr d))%nat
            ∧ (DriveImage.image d = NULL
               ∨ ∃ a img, image = Some a ∧ images st !! a = Some img
                          ∧ detach_switch (img_type img) = true))
    as (d & clk & Hd & Hclk & Hlen & Himage).
  { pose proof Hrun as Hrun'. unfold drive_image_detach in Hrun'.
    rewrite bool_decide_eq_false_2 in Hrun' by done. cbv zeta in Hrun'.
    apply bind_inv in Hrun' as (d & st1 & Hd & Hrun').
    apply load_drive_inv in Hd as (-> & Hd & _).
    destruct (DriveImage.image d) as [a0 |] eqn:Hptr.
    - apply bind_inv in Hrun' as (img & st1 & Himg & Hrun').
      apply load_image_inv in Himg as (-> & a & -> & Himg).
      fold (detach_switch (img_type img)) in Hrun'.
      destruct (detach_switch (img_type img)) eqn:Hsw; [| discriminate Hrun'].
      apply bind_inv in Hrun' as ([] & st1 & Hlog & Hrun').
      injection Hlog as <-.
      apply teardown_inv in Hrun' as (d1 & clk & Hd1 & Hclk & Hlen).
      unfold drive_at in Hd1. cbn [diskunit_context diskunit_clk] in Hd1, Hclk.
      rewrite Hd in Hd1. injection Hd1 as <-.
      exists d, clk. repeat (split; [done |]). right. by exists a, img.
    - apply teardown_inv in Hrun' as (d1 & clk & Hd1 & Hclk & Hlen).
      unfold drive_at in Hd1. rewrite Hd in Hd1. injection Hd1 as <-.
      exists d, clk. repeat (split; [done |]). by left. }
  destruct st as [us c m t]. unfold drive_at in *.
  cbn [diskunit_context diskunit_clk images] in *.
  rewrite (detach_run us c m t image unit drv d clk Hin Hd Hclk Hlen Himage) in Hrun.
  injection Hrun as <-. cbn [diskunit_context].
  exists d, clk, (detached clk d). do 2 (split; [done |]).
  split; [by eapply drive_of_put |].
  unfold detached. cbv zeta. fold (p64_pending d).
  assert (∀ dw : drive_t, gcr dw = gcr d →
            ∀ i trk, freed 0 MAX_GCR_TRACKS (gcr dw) !! i = Some trk →
              if bool_decide (i < MAX_GCR_TRACKS)%nat
              then data trk = None else gcr d !! i = Some trk) as Hslots.
  { intros dw -> i trk. rewrite freed_lookup.
    destruct (decide (i < MAX_GCR_TRACKS)%nat).
    - rewrite !bool_decide_eq_true_2 by lia.
      destruct (gcr d !! i) as [t1 |]; [| done]. intros [= <-].
      apply free_slot_spec.
    - by rewrite !bool_decide_eq_false_2 by lia. }
  destruct (p64_pending d); proj; rewrite length_freed;
    repeat (split; [reflexivity |]); by apply Hslots.
Qed.

End Facts.

(** *** The code on the sample configuration *)

Section Examples.
Import Sample.

(** C1: a D64 image is accepted by a unit configured as a 1541-II. *)
Lemma drive_check_image_format_table_witness :
  ∃ r : Z,
    drive_check_image_format DISK_IMAGE_TYPE_D64 0
      (machine DRIVE_TYPE_1541II empty_drive (image_of DISK_IMAGE_TYPE_D64 0))
    = Some (r, machine DRIVE_TYPE_1541II empty_drive (image_of DISK_IMAGE_TYPE_D64 0))
    ∧ (r = 0 ↔ listed HAVE_X64_IMAGE DISK_IMAGE_TYPE_D64 DRIVE_TYPE_1541II)
    ∧ (r = -1 ↔ ¬ listed HAVE_X64_IMAGE DISK_IMAGE_TYPE_D64 DRIVE_TYPE_1541II).
Proof.
  apply (drive_check_image_format_table
           (machine DRIVE_TYPE_1541II empty_drive (image_of DISK_IMAGE_TYPE_D64 0))
           DISK_IMAGE_TYPE_D64 0
           {| unit_type := DRIVE_TYPE_1541II; drives := [empty_drive; empty_drive] |}).
  reflexivity.
Defined.

(** C1, as claimed, fails in a build without [HAVE_X64_IMAGE]: the pair of
    X64 and the 1541 is in the table the claim gives, and the check rejects
    it. *)
Lemma drive_check_image_format_x64_rejected :
  listed true DISK_IMAGE_TYPE_X64 DRIVE_TYPE_1541
  ∧ drive_check_image_format DISK_IMAGE_TYPE_X64 0
      (machine DRIVE_TYPE_1541 empty_drive (image_of DISK_IMAGE_TYPE_X64 0))
    = Some (-1, machine DRIVE_TYPE_1541 empty_drive (image_of DISK_IMAGE_TYPE_X64 0)).
Proof.
  split; [| reflexivity].
  apply listed_b_spec. reflexivity.
Qed.

(** C2, as claimed, fails.  A D81 image passes the compatibility check of a
    1581 and is then turned away by the switch of the attach routine; a D71
    image passes both on a 1571 and its file cannot be read.  Both calls
    return -1, and the drive that had [read_only = 0] and [attach_clk = 0]
    now has the image's [read_only] and the clock of the unit. *)
Lemma drive_image_attach_failure_keeps_stamps :
  (∃ st',
     drive_image_attach (Some 1%nat) 8 0
       (machine DRIVE_TYPE_1581 empty_drive (image_of DISK_IMAGE_TYPE_D81 1))
     = Some (-1, st')
     ∧ read_only <$> drive_at st' 0 0 = Some 1
     ∧ attach_clk <$> drive_at st' 0 0 = Some 100
     ∧ ask_extend_disk_image <$> drive_at st' 0 0 = Some DRIVE_EXTEND_ASK)
  ∧ (∃ st',
       drive_image_attach (Some 1%nat) 8 0
         (machine DRIVE_TYPE_1571 empty_drive (image_of DISK_IMAGE_TYPE_D71 1))
       = Some (-1, st')
       ∧ read_only <$> drive_at st' 0 0 = Some 1
       ∧ attach_clk <$> drive_at st' 0 0 = Some 100
       ∧ gcr <$> drive_at st' 0 0 ≠ Some (gcr empty_drive))
  ∧ read_only empty_drive = 0
  ∧ attach_clk empty_drive = 0
  ∧ ask_extend_disk_image empty_drive = 0.
Proof.
  split; [| split].
  - eexists. split; [vm_compute; reflexivity |]. by vm_compute.
  - eexists. split; [vm_compute; reflexivity |]. by vm_compute.
  - done.
Qed.

(** C2: the D81 image on the 1581 is a late failure. *)
Lemma drive_image_attach_failure_witness :
  ∃ st' d',
    drive_image_attach (Some 1%nat) 8 0
      (machine DRIVE_TYPE_1581 empty_drive (image_of DISK_IMAGE_TYPE_D81 1))
    = Some (-1, st')
    ∧ drive_at st' 0 0 = Some d'
    ∧ read_only d' = 1 ∧ attach_clk d' = 100
    ∧ GCR_image_loaded d' = 0 ∧ P64_image_loaded d' = 0
    ∧ DriveImage.image d' = NULL.
Proof.
  exists (after_attach
            (machine DRIVE_TYPE_1581 empty_drive (image_of DISK_IMAGE_TYPE_D81 1))).
  assert (drive_image_attach (Some 1%nat) 8 0
            (machine DRIVE_TYPE_1581 empty_drive (image_of DISK_IMAGE_TYPE_D81 1))
          = Some (-1, after_attach
                        (machine DRIVE_TYPE_1581 empty_drive
                           (image_of DISK_IMAGE_TYPE_D81 1)))) as Hrun
    by (vm_compute; reflexivity).
  destruct (proj1 (drive_image_attach_failure _ _ _ _ _ Hrun))
    as [[_ Hsame] | (a & img & u & clk & d & d' & _ & Ha & Himg & _ & _ & Hclk & Hd
                     & Hd' & Hro & Hac & _ & _ & _ & Hg & Hp & _ & _ & Hlate)].
  - by vm_compute in Hsame.
  - injection Ha as <-.
    vm_compute in Himg. injection Himg as <-.
    vm_compute in Hclk. injection Hclk as <-.
    vm_compute in Hd. injection Hd as <-.
    exists d'. repeat (split; [done |]).
    destruct Hlate as [(_ & Hi & _) | (Hsw & _)]; [done | by vm_compute in Hsw].
Defined.




(** C6: the write-back of the sample configuration always fails. *)
Lemma detach_dirty_p64_write_back_witness :
  ∃ st' d',
    drive_image_detach (Some 1%nat) 8 0
      (machine DRIVE_TYPE_1541II dirty_p64_drive (image_of DISK_IMAGE_TYPE_P64 0))
    = Some (0, st')
    ∧ drive_at st' 0 0 = Some d'
    ∧ P64_dirty d' = 0 ∧ P64_image_loaded d' = 0
    ∧ DriveImage.image d' = NULL
    ∧ Forall (λ t, data t = None) (gcr d')
    ∧ lib_free 0 0 0 ∈ trace st'
    ∧ log_error 0 "Cannot write disk image back." ∈ trace st'.
Proof.
  destruct (detach_dirty_p64_write_back
              (machine DRIVE_TYPE_1541II dirty_p64_drive (image_of DISK_IMAGE_TYPE_P64 0))
              1%nat (image_of DISK_IMAGE_TYPE_P64 0) 8 0 dirty_p64_drive 100)
    as (st' & d' & Hrun & Hd' & Hdirty & Hp & _ & Hi & _ & Hnone & Hfree & _ & Hlog);
    [cbn; lia | reflexivity | reflexivity | reflexivity
    | reflexivity | reflexivity | reflexivity | discriminate | discriminate |].
  exists st', d'.
  split; [exact Hrun |]. split; [exact Hd' |]. split; [exact Hdirty |].
  split; [exact Hp |]. split; [exact Hi |]. split; [exact Hnone |]. split.
  - apply (Hfree 0%nat {| data := Some [85; 85]; size := 2 |}); [reflexivity | by eexists].
  - apply Hlog. reflexivity.
Defined.

(** C10: the empty drive 0 of unit 8, detached with a [NULL] image. *)
Lemma detach_empty_drive_witness :
  ∃ st' d',
    drive_image_detach NULL 8 0
      (machine DRIVE_TYPE_1541II empty_drive (image_of DISK_IMAGE_TYPE_D64 0))
    = Some (0, st')
    ∧ drive_at st' 0 0 = Some d'
    ∧ trace st' = [drive_gcr_data_writeback 0 0; drive_set_half_track 36 0 0 0]
    ∧ detach_clk d' = 100
    ∧ DriveImage.image d' = NULL
    ∧ ∃ st'',
        drive_image_detach NULL 8 0 st' = Some (0, st'')
        ∧ drive_at st'' 0 0 = Some d'.
Proof.
  destruct (detach_empty_drive
              (machine DRIVE_TYPE_1541II empty_drive (image_of DISK_IMAGE_TYPE_D64 0))
              NULL 8 0 empty_drive 100)
    as (st' & d' & Hrun & Hd' & Htrace & Hclk & _ & _ & _ & Hi & _ & _ & _ & Hagain);
    [cbn; lia | reflexivity | reflexivity | reflexivity
    | repeat split |].
  exists st', d'.
  split; [exact Hrun |]. split; [exact Hd' |]. split; [exact Htrace |].
  split; [exact Hclk |]. split; [exact Hi |]. exact Hagain.
Defined.

(** The sample machine has the shape the routines expect. *)
Lemma machine_well_formed model img :
  well_formed 0 (machine model empty_drive img).
Proof.
  split; [reflexivity |]. split; [reflexivity |].
  repeat constructor; by exists empty_drive.
Qed.

(** X1: a D64 image and the 1541-II suggested for it. *)
Lemma suggested_drive_type_accepts_format_witness :
  drive_check_image_format DISK_IMAGE_TYPE_D64 0
    (machine (drive_image_type_to_drive_type DISK_IMAGE_TYPE_D64) empty_drive
       (image_of DISK_IMAGE_TYPE_D64 0))
  = Some (0, machine (drive_image_type_to_drive_type DISK_IMAGE_TYPE_D64) empty_drive
               (image_of DISK_IMAGE_TYPE_D64 0)).
Proof.
  apply (suggested_drive_type_accepts_format _ DISK_IMAGE_TYPE_D64 0
           {| unit_type := drive_image_type_to_drive_type DISK_IMAGE_TYPE_D64;
              drives := [empty_drive; empty_drive] |}).
  - reflexivity.
  - reflexivity.
  - vm_compute. discriminate.
Defined.

(** X3: a 1571 takes G71 images, hence D64 images. *)
Lemma drive_check_image_format_older_formats_witness :
  drive_check_image_format DISK_IMAGE_TYPE_D64 0
    (machine DRIVE_TYPE_1571 empty_drive (image_of DISK_IMAGE_TYPE_D64 0))
  = Some (0, machine DRIVE_TYPE_1571 empty_drive (image_of DISK_IMAGE_TYPE_D64 0)).
Proof.
  apply (proj1 (drive_check_image_format_older_formats
                  (machine DRIVE_TYPE_1571 empty_drive (image_of DISK_IMAGE_TYPE_D64 0))
                  0)).
  reflexivity.
Defined.

(** X4: the D81 image on a 1581 passes the compatibility check and is not
    attached. *)
Lemma drive_image_attach_success_iff_witness :
  (-1 = 0 ∨ -1 = -1)
  ∧ (-1 = 0 ↔
       8 ≤ 8 < 8 + NUM_DISK_UNITS
       ∧ ∃ a img u,
           Some 1%nat = Some a
           ∧ images (machine DRIVE_TYPE_1581 empty_drive
                       (image_of DISK_IMAGE_TYPE_D81 1)) !! a = Some img
           ∧ index (diskunit_context
                      (machine DRIVE_TYPE_1581 empty_drive
                         (image_of DISK_IMAGE_TYPE_D81 1))) (8 - 8) = Some u
           ∧ listed HAVE_X64_IMAGE (img_type img) (unit_type u)
           ∧ attach_switch (img_type img) = true
           ∧ 0 ≤ disk_image_read_image_result (attach_wired (8 - 8) 0 img)).
Proof.
  apply (drive_image_attach_success_iff
           (machine DRIVE_TYPE_1581 empty_drive (image_of DISK_IMAGE_TYPE_D81 1))
           (Some 1%nat) 8 0 (-1)
           (after_attach
              (machine DRIVE_TYPE_1581 empty_drive (image_of DISK_IMAGE_TYPE_D81 1)))).
  vm_compute. reflexivity.
Defined.

(** X5: a read-only G64 image attached to a 1541-II at clock 100. *)
Lemma drive_image_attach_success_state_witness :
  ∃ d',
    drive_at (after_attach
                (machine DRIVE_TYPE_1541II empty_drive
                   (image_of DISK_IMAGE_TYPE_G64 1))) 0 0 = Some d'
    ∧ DriveImage.image d' = Some 1%nat
    ∧ read_only d' = 1
    ∧ attach_clk d' = 100
    ∧ GCR_image_loaded d' = 1
    ∧ P64_image_loaded d' = 0
    ∧ complicated_image_loaded d' = 1.
Proof.
  pose (st := machine DRIVE_TYPE_1541II empty_drive (image_of DISK_IMAGE_TYPE_G64 1)).
  assert (drive_image_attach (Some 1%nat) 8 0 st = Some (0, after_attach st)) as Hrun
    by (vm_compute; reflexivity).
  destruct (drive_image_attach_success_state st (Some 1%nat) 8 0 (after_attach st) Hrun)
    as (a & img & clk & d & d' & Ha & Himg & Hclk & Hd & Hd' & Hptr & Hro & Hac & _ & _
        & Hp64 & Hgcr & _ & Hcomp & _).
  injection Ha as <-.
  vm_compute in Himg. injection Himg as <-.
  vm_compute in Hclk. injection Hclk as <-.
  vm_compute in Hd. injection Hd as <-.
  exists d'. split; [exact Hd' |]. split; [exact Hptr |]. split; [exact Hro |].
  split; [exact Hac |]. split; [exact Hgcr |]. split; [exact Hp64 |]. exact Hcomp.
Defined.

(** X6: the attach of the D71 image whose file cannot be read. *)
Lemma drive_image_attach_frame_witness :
  touches_only 0 0
    (machine DRIVE_TYPE_1571 empty_drive (image_of DISK_IMAGE_TYPE_D71 1))
    (after_attach
       (machine DRIVE_TYPE_1571 empty_drive (image_of DISK_IMAGE_TYPE_D71 1))).
Proof.
  pose (st := machine DRIVE_TYPE_1571 empty_drive (image_of DISK_IMAGE_TYPE_D71 1)).
  assert (drive_image_attach (Some 1%nat) 8 0 st = Some (-1, after_attach st)) as Hrun
    by (vm_compute; reflexivity).
  exact (proj1 (drive_image_attach_frame st (Some 1%nat) 8 0 (-1) (after_attach st)
                  Hrun)).
Defined.

(** X7: the drive holds a P64 image and the detach is given a D81 image. *)
Lemma drive_image_detach_failure_witness :
  drive_image_detach (Some 1%nat) 8 0
    (machine DRIVE_TYPE_1541II dirty_p64_drive (image_of DISK_IMAGE_TYPE_D81 0))
  = Some (-1, machine DRIVE_TYPE_1541II dirty_p64_drive (image_of DISK_IMAGE_TYPE_D81 0))
  ∧ ∃ d a img,
      drive_at (machine DRIVE_TYPE_1541II dirty_p64_drive
                  (image_of DISK_IMAGE_TYPE_D81 0)) 0 0 = Some d
      ∧ DriveImage.image d ≠ NULL
      ∧ Some 1%nat = Some a
      ∧ images (machine DRIVE_TYPE_1541II dirty_p64_drive
                  (image_of DISK_IMAGE_TYPE_D81 0)) !! a = Some img
      ∧ detach_switch (img_type img) = false.
Proof.
  pose (st := machine DRIVE_TYPE_1541II dirty_p64_drive (image_of DISK_IMAGE_TYPE_D81 0)).
  assert (drive_image_detach (Some 1%nat) 8 0 st = Some (-1, st)) as Hrun
    by (vm_compute; reflexivity).
  split; [exact Hrun |].
  destruct (drive_image_detach_failure st (Some 1%nat) 8 0 st Hrun)
    as [_ [Hlow | [Hhigh | Hcase] ] ].
  - exfalso. lia.
  - exfalso. vm_compute in Hhigh. by apply Hhigh.
  - exact Hcase.
Defined.

(** The sample machine after the detach of the image of drive 0 of unit 8. *)
Lemma detach_dirty_p64_run :
  ∃ st',
    drive_image_detach (Some 1%nat) 8 0
      (machine DRIVE_TYPE_1541II dirty_p64_drive (image_of DISK_IMAGE_TYPE_P64 0))
    = Some (0, st').
Proof. eexists. vm_compute. reflexivity. Qed.

(** X8: the detach of the dirty P64 image. *)
Lemma drive_image_detach_frame_witness :
  ∃ st',
    drive_image_detach (Some 1%nat) 8 0
      (machine DRIVE_TYPE_1541II dirty_p64_drive (image_of DISK_IMAGE_TYPE_P64 0))
    = Some (0, st')
    ∧ touches_only 0 0
        (machine DRIVE_TYPE_1541II dirty_p64_drive (image_of DISK_IMAGE_TYPE_P64 0)) st'
    ∧ images st'
      = images (machine DRIVE_TYPE_1541II dirty_p64_drive
                  (image_of DISK_IMAGE_TYPE_P64 0)).
Proof.
  destruct detach_dirty_p64_run as [st' Hrun]. exists st'.
  split; [exact Hrun |].
  exact (drive_image_detach_frame _ (Some 1%nat) 8 0 0 st' Hrun).
Defined.

(** X9: the dirty P64 drive has one buffer, in slot 0. *)
Lemma drive_image_detach_releases_once_witness :
  ∃ st',
    drive_image_detach (Some 1%nat) 8 0
      (machine DRIVE_TYPE_1541II dirty_p64_drive (image_of DISK_IMAGE_TYPE_P64 0))
    = Some (0, st')
    ∧ trace st'
      = [disk_image_detach_log (Some 1%nat) 8 0;
         disk_image_write_p64_image (Some 1%nat);
         log_error 0 "Cannot write disk image back.";
         lib_free 0 0 0;
         drive_set_half_track 36 0 0 0].
Proof.
  destruct (drive_image_detach_releases_once
              (machine DRIVE_TYPE_1541II dirty_p64_drive (image_of DISK_IMAGE_TYPE_P64 0))
              (Some 1%nat) 8 0 dirty_p64_drive 100)
    as (st' & released & Hrun & Hrel & Htrace & _).
  - cbn. lia.
  - reflexivity.
  - reflexivity.
  - vm_compute. lia.
  - right. exists 1%nat, (image_of DISK_IMAGE_TYPE_P64 0).
    split; [reflexivity |]. split; [reflexivity |]. reflexivity.
  - exists st'. split; [exact Hrun |]. rewrite Htrace, Hrel. reflexivity.
Defined.

(** X10: unit 12 is out of range, unit 9 is a unit without a model. *)
Lemma drive_image_attach_in_bounds_witness :
  (∃ r st',
     drive_image_attach (Some 1%nat) 12 0
       (machine DRIVE_TYPE_1541II empty_drive (image_of DISK_IMAGE_TYPE_G64 0))
     = Some (r, st') ∧ well_formed 0 st')
  ∧ (∃ r st',
       drive_image_attach (Some 1%nat) 9 0
         (machine DRIVE_TYPE_1541II empty_drive (image_of DISK_IMAGE_TYPE_G64 0))
       = Some (r, st') ∧ well_formed 0 st').
Proof.
  split;
    apply (drive_image_attach_in_bounds _ 1%nat (image_of DISK_IMAGE_TYPE_G64 0));
    first [apply machine_well_formed | reflexivity].
Defined.

(** X11: no image pointer is needed to detach from an empty drive. *)
Lemma drive_image_detach_in_bounds_witness :
  ∃ r st',
    drive_image_detach NULL 8 0
      (machine DRIVE_TYPE_1541II empty_drive (image_of DISK_IMAGE_TYPE_G64 0))
    = Some (r, st') ∧ well_formed 0 st'.
Proof.
  apply drive_image_detach_in_bounds.
  - apply machine_well_formed.
  - intros d Hd Hptr. exfalso. vm_compute in Hd. injection Hd as <-. by apply Hptr.
Defined.

(** X12: the dirty P64 image detached at clock 100. *)
Lemma drive_image_detach_success_state_witness :
  ∃ st' d',
    drive_image_detach (Some 1%nat) 8 0
      (machine DRIVE_TYPE_1541II dirty_p64_drive (image_of DISK_IMAGE_TYPE_P64 0))
    = Some (0, st')
    ∧ drive_at st' 0 0 = Some d'
    ∧ DriveImage.image d' = NULL
    ∧ detach_clk d' = 100
    ∧ P64_dirty d' = 0
    ∧ attach_clk d' = 40
    ∧ complicated_image_loaded d' = 1.
Proof.
  destruct detach_dirty_p64_run as [st' Hrun].
  destruct (drive_image_detach_success_state _ (Some 1%nat) 8 0 st' Hrun)
    as (d & clk & d' & Hd & Hclk & Hd' & Hptr & _ & _ & _ & Hdc & Hdirty & Hac & _ & _
        & Hcomp & _).
  vm_compute in Hd. injection Hd as <-.
  vm_compute in Hclk. injection Hclk as <-.
  exists st', d'. split; [exact Hrun |]. split; [exact Hd' |]. split; [exact Hptr |].
  split; [exact Hdc |]. split; [exact Hdirty |]. split; [exact Hac |]. exact Hcomp.
Defined.

End Examples.

End DriveImageFacts.

(** * Facts about [vic-snapshot.c] *)
Module VicSnapshotFacts.
Import VicSnapshot.

(** ** Little-endian fields *)

Lemma length_le_bytes n : ∀ v, length (le_bytes n v) = n.
Proof. induction n as [| n IH]; intros v; simpl; [done | by rewrite IH]. Qed.

Lemma le_value_le_bytes n : ∀ v, le_value (le_bytes n v) = v mod 256 ^ Z.of_nat n.
Proof.
  induction n as [| n IH]; intros v.
  - simpl. by rewrite Z.mod_1_r.
  - cbn [le_bytes le_value]. rewrite IH.
    rewrite Nat2Z.inj_succ, Z.pow_succ_r by lia.
    rewrite Z.rem_mul_r by lia. lia.
Qed.

Lemma le_bytes_mod n : ∀ v k,
  (n ≤ k)%nat → le_bytes n (v mod 256 ^ Z.of_nat k) = le_bytes n v.
Proof.
  induction n as [| n IH]; intros v k Hk; [done |].
  destruct k as [| k]; [lia |].
  cbn [le_bytes].
  rewrite Nat2Z.inj_succ, Z.pow_succ_r by lia.
  rewrite Z.rem_mul_r by lia. rewrite (Z.mul_comm 256).
  f_equal.
  - rewrite Z.mod_add by lia. apply Z.mod_mod. lia.
  - rewrite Z.div_add by lia.
    rewrite (Z.div_small (v mod 256)) by (apply Z.mod_pos_bound; lia).
    rewrite Z.add_0_l. apply IH. lia.
Qed.

Lemma le_bytes_byte n : ∀ v, Forall (λ b, 0 ≤ b < 256) (le_bytes n v).
Proof.
  induction n as [| n IH]; intros v; simpl; constructor; [| done].
  apply Z.mod_pos_bound. lia.
Qed.

Section Facts.
Context `{SnapshotIO} `{RasterSnapshot} `{!VicChip}.

(** ** What a successful write leaves *)

Lemma le_bytes_uint32 v : le_bytes 4 (uint32_t v) = le_bytes 4 v.
Proof. apply (le_bytes_mod 4 v 4). lia. Qed.
Lemma le_bytes_uint16 v : le_bytes 2 (uint16_t v) = le_bytes 2 v.
Proof. apply (le_bytes_mod 2 v 2). lia. Qed.
Lemma le_bytes_uint8 v : le_bytes 1 (uint8_t v) = le_bytes 1 v.
Proof. apply (le_bytes_mod 1 v 1). lia. Qed.

Lemma le_bytes_1_uint8 v : le_bytes 1 (uint8_t v) = [uint8_t v].
Proof.
  cbn [le_bytes]. f_equal. unfold uint8_t.
  change (2 ^ 8) with 256. apply Z.mod_mod. lia.
Qed.

Lemma orelse_false_inv {S} (a b : op S) s s' :
  (a ||| b) s = (false, s') → ∃ s1, a s = (false, s1) ∧ b s1 = (false, s').
Proof.
  unfold orelse. destruct (a s) as [[] s1]; [done |]. intros Hb. by exists s1.
Qed.

Lemma extends_trans m m1 m2 b1 b2 :
  extends m m1 b1 → extends m1 m2 b2 → extends m m2 (b1 ++ b2).
Proof.
  intros (Hn1 & Hj1 & Hi1 & Hd1) (Hn2 & Hj2 & Hi2 & Hd2).
  unfold extends. rewrite Hn2, Hj2, Hi2, Hd2, Hn1, Hj1, Hi1, Hd1, app_assoc. done.
Qed.

Lemma write_field_inv n v m m' :
  write_field n v m = (false, m') → extends m m' (le_bytes n v).
Proof.
  unfold write_field. destruct (snapshot_write_ok (m_data m)); [| done].
  by intros [= <-].
Qed.

Lemma write_regs_inv v n : ∀ i m m',
  write_regs v i n m = (false, m') →
  extends m m' ((λ k, uint8_t (regs v !!! k)) <$> seq i n).
Proof.
  induction n as [| n IH]; intros i m m' Hw.
  - cbn [write_regs] in Hw. unfold never in Hw. injection Hw as <-.
    cbn [seq fmap list_fmap]. unfold extends. by rewrite app_nil_r.
  - cbn [write_regs] in Hw. apply orelse_false_inv in Hw as (m1 & Hb & Hrest).
    apply IH in Hrest. unfold SMW_B in Hb. apply write_field_inv in Hb.
    rewrite le_bytes_1_uint8 in Hb.
    apply (extends_trans _ _ _ _ _ Hb Hrest).
Qed.

Lemma write_fields_inv st m m' :
  vic_snapshot_write_fields st m = (false, m') →
  extends m m' (encode_fields (scalar_fields (vic st))).
Proof.
  unfold vic_snapshot_write_fields, SMW_B, SMW_W, SMW_DW, SMW_CLOCK.
  intros Hchain.
  repeat match goal with
         | Hc : (_ ||| _) _ = (false, _) |- _ =>
             let m := fresh "m" in
             let Hw := fresh "Hw" in
             apply orelse_false_inv in Hc as (m & Hc & Hw);
             apply write_field_inv in Hw
         end.
  unfold never in Hchain. injection Hchain as <-.
  unfold encode_fields, scalar_fields. cbn [flat_map fst snd].
  rewrite !le_bytes_uint32, !le_bytes_uint16, !le_bytes_uint8 in *.
  repeat match goal with
         | Ha : extends ?a ?b _, Hb : extends ?b ?c _ |- _ =>
             pose proof (extends_trans _ _ _ _ _ Ha Hb); clear Ha Hb
         end.
  rewrite <- ?app_assoc in *. rewrite ?app_nil_r in *. assumption.
Qed.

Lemma write_module_inv s st s' :
  vic_snapshot_write_module s st = (0, s') →
  s' = s ++ [ {| m_name := snap_module_name; m_major := SNAP_MAJOR;
                 m_minor := SNAP_MINOR; m_data := payload st |} ].
Proof.
  unfold vic_snapshot_write_module, snapshot_module_create, snapshot_module_close.
  destruct (snapshot_create_ok s); [| done].
  cbv zeta.
  destruct (vic_snapshot_write_fields st _) as [[] m1] eqn:Hchain; [done |].
  destruct (SMW_BA _ m1) as [[] m2] eqn:Hram; [done |].
  destruct (write_regs _ _ _ m2) as [[] m3] eqn:Hregs; [done |].
  destruct (raster_snapshot_write _ m3) as [[] m4] eqn:Hraster; [done |].
  intros [= _ <-]. f_equal. f_equal.
  apply write_fields_inv in Hchain.
  assert (extends m1 m2 (color_ram st)) as Hram'.
  { unfold SMW_BA in Hram. destruct (snapshot_write_ok (m_data m1)); [| done].
    pose proof (f_equal snd Hram) as Hm. cbn [snd] in Hm. subst m2.
    unfold extends, color_ram.
    cbn [set_m_data m_data m_name m_major m_minor]. by rewrite <- list_fmap_compose. }
  apply write_regs_inv in Hregs.
  assert (extends m3 m4 (raster_snapshot_bytes (raster (vic st)))) as Hraster'.
  { unfold raster_snapshot_write in Hraster.
    destruct (snapshot_write_ok (m_data m3)); [| done].
    pose proof (f_equal snd Hraster) as Hm. cbn [snd] in Hm. by subst m4. }
  pose proof (extends_trans _ _ _ _ _ Hchain
                (extends_trans _ _ _ _ _ Hram'
                   (extends_trans _ _ _ _ _ Hregs Hraster'))) as (Hn & Hj & Hi & Hd).
  destruct m4 as [nm mj mn dt].
  cbn [m_name m_major m_minor m_data] in Hn, Hj, Hi, Hd.
  rewrite Hn, Hj, Hi, Hd. reflexivity.
Qed.

(** ** Reading a written module *)

Lemma read_field_le nm mj mn n v rest :
  read_field n (Build_snapshot_module_t nm mj mn (le_bytes n v ++ rest))
  = Some (wrap n v, Build_snapshot_module_t nm mj mn rest).
Proof.
  unfold read_field, set_m_data. cbn [m_data m_name m_major m_minor].
  rewrite bool_decide_eq_true_2 by (rewrite length_app, length_le_bytes; lia).
  rewrite take_app_length' by (by rewrite length_le_bytes).
  rewrite drop_app_length' by (by rewrite length_le_bytes).
  by rewrite le_value_le_bytes.
Qed.

Lemma read_into_le nm mj mn n conv set v rest w y :
  read_into n conv set
    (Build_snapshot_module_t nm mj mn (le_bytes n v ++ rest), set_vic w y)
  = (false,
     (Build_snapshot_module_t nm mj mn rest, set_vic (set (conv (wrap n v)) w) y)).
Proof. unfold read_into. by rewrite read_field_le. Qed.

Lemma orelse_run {S} (a b : op S) s s1 r :
  a s = (false, s1) → b s1 = r → (a ||| b) s = r.
Proof. unfold orelse. by intros -> ->. Qed.

Lemma set_vic_vic y : set_vic (vic y) y = y.
Proof. by destruct y. Qed.

Ltac run_fields :=
  lazymatch goal with
  | |- (_ ||| _) _ = _ => eapply orelse_run; [run_fields | apply read_into_le]
  | |- never _ = _ => reflexivity
  end.

Lemma read_fields_encoded nm mj mn x rest y :
  vic_snapshot_read_fields
    (Build_snapshot_module_t nm mj mn (encode_fields (scalar_fields x) ++ rest), y)
  = (false, (Build_snapshot_module_t nm mj mn rest, set_vic (decoded_vic x (vic y)) y)).
Proof.
  unfold encode_fields, scalar_fields. cbn [flat_map fst snd].
  rewrite <- !app_assoc. rewrite app_nil_l.
  rewrite <- (set_vic_vic y) at 1.
  unfold vic_snapshot_read_fields, SMR_B, SMR_B_INT, SMR_B_UINT, SMR_W_INT,
    SMR_W_UINT, SMR_DW_INT, SMR_DW_UINT, SMR_CLOCK.
  etransitivity; [run_fields |].
  reflexivity.
Qed.

Lemma read_block_app nm mj mn n bytes rest :
  length bytes = n →
  read_block n (Build_snapshot_module_t nm mj mn (bytes ++ rest))
  = Some (bytes, Build_snapshot_module_t nm mj mn rest).
Proof.
  intros Hlen. unfold read_block, set_m_data. cbn [m_data m_name m_major m_minor].
  rewrite bool_decide_eq_true_2 by (rewrite length_app; lia).
  by rewrite take_app_length', drop_app_length'.
Qed.

Lemma length_color_ram st : length (color_ram st) = 0x400%nat.
Proof. unfold color_ram. rewrite length_fmap, length_seqZ. reflexivity. Qed.

Lemma length_register_bytes v : length (register_bytes v) = 0x10%nat.
Proof. unfold register_bytes. by rewrite length_fmap, length_seq. Qed.

Lemma read_field_byte nm mj mn b rest :
  read_field 1 (Build_snapshot_module_t nm mj mn (b :: rest))
  = Some (b, Build_snapshot_module_t nm mj mn rest).
Proof.
  unfold read_field, set_m_data. cbn [m_data m_name m_major m_minor].
  rewrite bool_decide_eq_true_2 by (rewrite length_cons; lia).
  cbn [take drop]. rewrite (take_0 rest), (drop_0 rest). cbn [le_value].
  do 2 f_equal. lia.
Qed.

Lemma read_regs_run nm mj mn bytes : ∀ i rest st,
  read_regs i (length bytes) (Build_snapshot_module_t nm mj mn (bytes ++ rest), st)
  = (false, (Build_snapshot_module_t nm mj mn rest, restore_regs i bytes st)).
Proof.
  induction bytes as [| b bytes IH]; intros i rest st; [done |].
  cbn [length read_regs restore_regs app].
  eapply orelse_run; [| apply IH].
  cbv beta iota. by rewrite read_field_byte.
Qed.

(** Reading a module that holds the payload of [x]. *)
Lemma read_module_payload s m x y :
  snapshot_module_open s snap_module_name = Some m →
  snapshot_version_is_smaller (m_major m) (m_minor m) SNAP_MAJOR SNAP_MINOR = false →
  m_data m = payload x →
  vic_snapshot_read_module s y
  = vic_snapshot_read_checks
      (set_m_data (raster_snapshot_bytes (raster (vic x))) m)
      (restore_regs 0 (register_bytes (vic x)) (decoded x (call sound_close y))).
Proof.
  intros Hopen Hver Hdata. unfold vic_snapshot_read_module. cbv zeta.
  rewrite Hopen, Hver.
  destruct m as [nm mj mn dt]. cbn [m_data] in Hdata. subst dt.
  unfold payload. rewrite read_fields_encoded. cbv beta iota.
  unfold SMR_BA. rewrite read_block_app by apply length_color_ram. cbv beta iota.
  rewrite <- (length_register_bytes (vic x)).
  rewrite read_regs_run. cbv beta iota.
  reflexivity.
Qed.

(** ** Valid states *)

Lemma wrap_fits n v : fits n v → wrap n v = v.
Proof. unfold fits, wrap. intros Hv. by apply Z.mod_small. Qed.

Lemma int_of_dword_wrap v : int_range v → int_of_dword (wrap 4 v) = v.
Proof.
  unfold int_range, int_of_dword, wrap. intros Hv.
  change (256 ^ Z.of_nat 4) with (2 ^ 32).
  assert (2 ^ 32 = 4294967296) as E32 by reflexivity.
  assert (2 ^ 31 = 2147483648) as E31 by reflexivity.
  rewrite E32, E31 in *.
  destruct (decide (0 ≤ v)).
  - rewrite Z.mod_small by lia. destruct (Z.ltb_spec v 2147483648); lia.
  - replace (v mod 4294967296) with (v + 4294967296).
    + destruct (Z.ltb_spec (v + 4294967296) 2147483648); lia.
    + symmetry. rewrite <- (Z.mod_add v 1 4294967296) by lia.
      apply Z.mod_small. lia.
Qed.

Lemma uint8_fits v : fits 1 v → uint8_t v = v.
Proof. unfold fits, uint8_t. intros Hv. apply Z.mod_small. exact Hv. Qed.

(** The stores of the sixteen register bytes when [vic_store] has no side
    effects. *)
Lemma restore_regs_plain bytes : ∀ i st,
  (∀ addr value st0, vic_store addr value st0 = store_reg addr value st0) →
  0 ≤ i →
  restore_regs i bytes st
  = set_vic (set_regs (list_inserts (Z.to_nat i) bytes (regs (vic st))) (vic st)) st.
Proof.
  induction bytes as [| b bytes IH]; intros i st Hplain Hi.
  - cbn [restore_regs list_inserts]. by destruct st as [[] ? ? ?].
  - cbn [restore_regs list_inserts]. rewrite IH by (done || lia).
    rewrite Hplain. unfold store_reg.
    cbn [vic set_vic regs set_regs mem_ram maincpu_clk calls].
    replace (Z.to_nat (i + 1)) with (S (Z.to_nat i)) by lia.
    rewrite list_insert_inserts_lt by lia.
    reflexivity.
Qed.

Lemma take_inserts_0 (k l : list Z) :
  (length k ≤ length l)%nat → take (length k) (list_inserts 0 k l) = k.
Proof.
  intros Hlen. apply list_eq. intros j.
  destruct (decide (j < length k)%nat) as [Hj | Hj].
  - rewrite lookup_take_lt by done.
    rewrite list_lookup_inserts by lia. f_equal. lia.
  - rewrite lookup_take_ge by lia. symmetry. apply lookup_ge_None. lia.
Qed.

Lemma register_bytes_valid v :
  (16 ≤ length (regs v))%nat → Forall (fits 1) (take 16 (regs v)) →
  register_bytes v = take 16 (regs v).
Proof.
  intros Hlen Hfits. apply list_eq. intros j. unfold register_bytes.
  rewrite list_lookup_fmap.
  destruct (decide (j < 16)%nat) as [Hj | Hj].
  - rewrite lookup_take_lt by done.
    destruct (lookup_lt_is_Some_2 (regs v) j) as [r Hr]; [lia |].
    rewrite (proj2 (lookup_seq 0 16 j j)) by (split; [done | lia]).
    cbn [fmap option_fmap option_map].
    rewrite (list_lookup_total_correct _ _ _ Hr), Hr. f_equal.
    apply uint8_fits.
    eapply Forall_lookup_1; [exact Hfits |]. by rewrite lookup_take_lt.
  - rewrite lookup_take_ge by lia.
    rewrite (lookup_ge_None_2 (seq 0 16) j); [done |]. rewrite length_seq. lia.
Qed.

Lemma color_ram_lookup st a :
  0x9400 ≤ a < 0x9800 →
  color_ram st !!! Z.to_nat (a - 0x9400) = uint8_t (mem_ram st a).
Proof.
  intros Ha. apply list_lookup_total_correct. unfold color_ram.
  rewrite list_lookup_fmap, lookup_seqZ_lt by lia.
  cbn [fmap option_fmap option_map]. do 3 f_equal. lia.
Qed.

Lemma open_written (s : snapshot_t) m :
  Forall (λ m0, m_name m0 ≠ m_name m) s →
  snapshot_module_open (s ++ [m]) (m_name m) = Some m.
Proof.
  intros Hfresh. unfold snapshot_module_open.
  induction Hfresh as [| m0 s Hne _ IH]; cbn [app list_find].
  - rewrite decide_True by done. done.
  - rewrite decide_False by done.
    destruct (list_find _ (s ++ [m])) as [[i m1] |]; [| done].
    cbn in IH |- *. done.
Qed.

(** ** The round trip *)

Lemma decoded_vic_valid x y :
  vic_valid x →
  decoded_vic (vic x) y = set_raster (raster y) (set_regs (regs y) (vic x)).
Proof.
  intros (? & ? & ? & ? & ? & ? & ? & ? & ? & ? & ? & ? & ? & ? & ? & ? & ? & ?
          & ? & ? & ? & ? & _).
  unfold decoded_vic.
  rewrite !int_of_dword_wrap, !wrap_fits by assumption.
  destruct (vic x) as [? ? ? ? ? ? ? ? ? ? ? ? ? ? ? [? ? ? ? ? ?] ? ? ?].
  reflexivity.
Qed.

(** C4: a valid machine [x] is written to a snapshot that holds no VIC-I
    module yet, and the snapshot is read back into a machine [y] whose
    clock the raster position of [x] agrees with.  When [vic_store] stores
    a register and does nothing else, and the raster sub-module reads back
    what was written, the read returns what closing the module returns and
    leaves in [y] every member the module holds with the value it has in
    [x]: the scalar members, the sixteen registers, the colour RAM and the
    raster (repainted). *)
Theorem snapshot_round_trip (s s' : snapshot_t) x y :
  vic_valid x →
  (∀ addr value st, vic_store addr value st = store_reg addr value st) →
  (∀ r0 rest,
     raster_snapshot_decode (raster_snapshot_bytes (raster (vic x)) ++ rest) r0
     = (0, raster (vic x), rest)) →
  Forall (λ m, m_name m ≠ snap_module_name) s →
  (16 ≤ length (regs (vic y)))%nat →
  raster_cycle (vic x) = VIC_RASTER_CYCLE (maincpu_clk y) →
  raster_line (vic x) = VIC_RASTER_Y (maincpu_clk y) →
  vic_snapshot_write_module s x = (0, s') →
  ∃ m st',
    s' = s ++ [m]
    ∧ vic_snapshot_read_module s' y
      = (snapshot_module_close_result (set_m_data [] m), st')
    ∧ same_module_fields (vic st') (vic x)
    ∧ raster (vic st') = raster_force_repaint (raster (vic x))
    ∧ (∀ a, 0x9400 ≤ a < 0x9800 → mem_ram st' a = mem_ram x a)
    ∧ (∀ a, ¬ (0x9400 ≤ a < 0x9800) → mem_ram st' a = mem_ram y a)
    ∧ maincpu_clk st' = maincpu_clk y.
Proof.
  intros Hvalid Hplain Hraster Hfresh Hregs Hcycle Hline Hwrite.
  apply write_module_inv in Hwrite.
  set (m := {| m_name := snap_module_name; m_major := SNAP_MAJOR;
               m_minor := SNAP_MINOR; m_data := payload x |}) in *.
  assert (snapshot_module_open s' snap_module_name = Some m) as Hopen.
  { rewrite Hwrite. by apply (open_written s m). }
  rewrite (read_module_payload s' m x y Hopen eq_refl eq_refl).
  rewrite restore_regs_plain by (done || lia).
  unfold vic_snapshot_read_checks.
  cbn [vic set_vic decoded maincpu_clk call mem_ram calls raster_cycle raster_line
       set_regs raster regs].
  rewrite (decoded_vic_valid x _ Hvalid).
  cbn [raster_cycle raster_line set_raster set_regs raster regs].
  rewrite Hcycle, Hline, !Z.eqb_refl. cbn [negb].
  cbn [m_data set_m_data].
  rewrite <- (app_nil_r (raster_snapshot_bytes (raster (vic x)))), Hraster.
  cbn [negb Z.eqb]. cbv beta iota zeta.
  eexists m, _. split; [done |]. split; [reflexivity |].
  cbn [vic set_vic raster set_raster regs set_regs mem_ram maincpu_clk].
  destruct Hvalid as (_ & _ & _ & _ & _ & _ & _ & _ & _ & _ & _ & _ & _ & _ & _ & _
                      & _ & _ & _ & _ & _ & _ & Hlen & Hbytes & Hram).
  split; [| split; [done |]; split; [| split; [| done] ] ].
  - unfold same_module_fields.
    cbn [interlace_enabled interlace_field framestart_cycle raster_cycle raster_line
         area fetch_state text_cols text_lines pending_text_cols line_was_blank memptr
         memptr_inc row_counter buf_offset light_pen vbuf regs set_raster set_regs].
    repeat (split; [reflexivity |]).
    rewrite (register_bytes_valid _ Hlen Hbytes).
    change (Z.to_nat 0) with 0%nat.
    assert (length (take 16 (regs (vic x))) = 16%nat) as Hl16
      by (rewrite length_take; lia).
    rewrite <- Hl16 at 1.
    rewrite take_inserts_0 by (rewrite Hl16; exact Hregs). done.
  - intros a Ha. unfold decoded. cbn [mem_ram].
    rewrite bool_decide_eq_true_2 by lia.
    rewrite color_ram_lookup by done. apply uint8_fits. by apply Hram.
  - intros a Ha. unfold decoded. cbn [mem_ram].
    rewrite bool_decide_eq_false_2 by lia. done.
Qed.

(** ** The version gate and the consistency checks *)

(** C5: when the module the reader opens is stamped with a version strictly
    older than [SNAP_MAJOR].[SNAP_MINOR] (a lower major number, or the same
    major and a lower minor number), [vic_snapshot_read_module] returns -1
    and no field is decoded: [vic], the memory and the clock are what they
    were.  The only things done are the call of [sound_close], which comes
    before the module is opened, and the call of [log_error]. *)
Theorem read_rejects_older_version (s : snapshot_t) st m :
  snapshot_module_open s snap_module_name = Some m →
  m_major m < SNAP_MAJOR ∨ (m_major m = SNAP_MAJOR ∧ m_minor m < SNAP_MINOR) →
  ∃ st',
    vic_snapshot_read_module s st = (-1, st')
    ∧ vic st' = vic st
    ∧ mem_ram st' = mem_ram st
    ∧ maincpu_clk st' = maincpu_clk st
    ∧ calls st'
      = calls st
        ++ [sound_close;
            log_error "Snapshot module version (%d.%d) older than %d.%d."
              [m_major m; m_minor m; SNAP_MAJOR; SNAP_MINOR]].
Proof.
  intros Hopen Hold.
  assert (snapshot_version_is_smaller (m_major m) (m_minor m) SNAP_MAJOR SNAP_MINOR
          = true) as Hver.
  { unfold snapshot_version_is_smaller. apply orb_true_iff.
    destruct Hold as [Hmaj | [Hmaj Hmin]].
    - left. by apply Z.ltb_lt.
    - right. apply andb_true_iff. split; [by apply Z.eqb_eq | by apply Z.ltb_lt]. }
  unfold vic_snapshot_read_module. cbv zeta. rewrite Hopen, Hver.
  eexists. split; [reflexivity |].
  cbn [vic mem_ram maincpu_clk calls call]. rewrite <- app_assoc. done.
Qed.

(** What a field read that succeeds has taken and stored. *)
Lemma read_into_inv n conv set m st m' st' :
  read_into n conv set (m, st) = (false, (m', st')) →
  m_data m' = drop n (m_data m)
  ∧ vic st' = set (conv (le_value (take n (m_data m)))) (vic st)
  ∧ maincpu_clk st' = maincpu_clk st.
Proof.
  unfold read_into, read_field.
  destruct (bool_decide (n ≤ length (m_data m))%nat); [| done].
  by intros [= <- <-].
Qed.

(** The raster position the field decode leaves is the stored one. *)
Lemma read_fields_position m st m' st' :
  vic_snapshot_read_fields (m, st) = (false, (m', st')) →
  raster_cycle (vic st') = stored_raster_cycle m
  ∧ raster_line (vic st') = stored_raster_line m
  ∧ maincpu_clk st' = maincpu_clk st.
Proof.
  unfold vic_snapshot_read_fields, SMR_B, SMR_B_INT, SMR_B_UINT, SMR_W_INT,
    SMR_W_UINT, SMR_DW_INT, SMR_DW_UINT, SMR_CLOCK.
  intros Hchain.
  repeat match goal with
         | Hc : (_ ||| _) _ = (false, _) |- _ =>
             let mk := fresh "mk" in
             let sk := fresh "sk" in
             let Hread := fresh "Hread" in
             let Hdata := fresh "Hdata" in
             let Hvic := fresh "Hvic" in
             let Hclk := fresh "Hclk" in
             apply orelse_false_inv in Hc as ([mk sk] & Hc & Hread);
             apply read_into_inv in Hread as (Hdata & Hvic & Hclk)
         end.
  unfold never in Hchain. injection Hchain as <- <-.
  split; [| split].
  - repeat match goal with
           | Hvic : vic ?s = _ |- context [vic ?s] =>
               rewrite Hvic;
               cbn [raster_cycle set_vbuf set_light_pen_trigger_cycle
                    set_light_pen_x_extra_bits set_light_pen_y set_light_pen_x
                    set_light_pen_triggered set_light_pen_state set_light_pen
                    set_buf_offset set_row_counter set_memptr_inc set_memptr
                    set_line_was_blank set_pending_text_cols set_text_lines
                    set_text_cols set_raster_line set_fetch_state set_area
                    set_raster_cycle]
           end.
    unfold stored_raster_cycle, id.
    repeat match goal with
           | Hdata : m_data ?x = _ |- context [m_data ?x] => rewrite Hdata
           end.
    rewrite !drop_drop. do 2 f_equal.
  - repeat match goal with
           | Hvic : vic ?s = _ |- context [vic ?s] =>
               rewrite Hvic;
               cbn [raster_line set_vbuf set_light_pen_trigger_cycle
                    set_light_pen_x_extra_bits set_light_pen_y set_light_pen_x
                    set_light_pen_triggered set_light_pen_state set_light_pen
                    set_buf_offset set_row_counter set_memptr_inc set_memptr
                    set_line_was_blank set_pending_text_cols set_text_lines
                    set_text_cols set_raster_line]
           end.
    unfold stored_raster_line, id.
    repeat match goal with
           | Hdata : m_data ?x = _ |- context [m_data ?x] => rewrite Hdata
           end.
    rewrite !drop_drop.
    match goal with
    | |- context [drop ?off (m_data m)] =>
        replace off with (15 + CLOCK_WIDTH)%nat by lia; reflexivity
    end.
  - congruence.
Qed.

Lemma SMR_BA_position base n m st failed m' st' :
  SMR_BA base n (m, st) = (failed, (m', st')) →
  vic st' = vic st ∧ maincpu_clk st' = maincpu_clk st.
Proof.
  unfold SMR_BA. destruct (read_block n m) as [[bytes m1] |]; by intros [= _ _ <-].
Qed.

Lemma read_regs_position n :
  keeps_raster_position vic_store →
  ∀ i m st failed m' st',
    read_regs i n (m, st) = (failed, (m', st')) →
    raster_cycle (vic st') = raster_cycle (vic st)
    ∧ raster_line (vic st') = raster_line (vic st)
    ∧ maincpu_clk st' = maincpu_clk st.
Proof.
  intros Hstore. induction n as [| n IH]; intros i m st failed m' st';
    cbn [read_regs]; [by intros [= _ _ <-] |].
  unfold orelse. destruct (read_field 1 m) as [[b m1] |].
  - intros Hrest. apply IH in Hrest as (Hc & Hl & Hk).
    destruct (Hstore i b st) as (Hc0 & Hl0 & Hk0).
    split; [congruence |]. split; congruence.
  - by intros [= _ _ <-].
Qed.

(** A module written from [x] stores the raster position of [x], in the
    width of its fields. *)
Lemma stored_position_written m x :
  m_data m = payload x →
  stored_raster_cycle m = wrap 1 (raster_cycle (vic x))
  ∧ stored_raster_line m = wrap 4 (raster_line (vic x)).
Proof.
  destruct m as [nm mj mn dt]. cbn [m_data]. intros ->. unfold payload.
  pose proof (read_fields_encoded nm mj mn (vic x)
                (color_ram x ++ register_bytes (vic x)
                 ++ raster_snapshot_bytes (raster (vic x))) x) as Hread.
  apply read_fields_position in Hread as (Hcycle & Hline & _).
  cbn [vic set_vic decoded_vic raster_cycle raster_line] in Hcycle, Hline.
  split; symmetry; [exact Hcycle | exact Hline].
Qed.

(** C8: the reader compares the raster position it has decoded with the
    position of the clock and turns the snapshot away when they differ.
    For every snapshot whose VIC-I module stores a [raster_cycle] other
    than [VIC_RASTER_CYCLE(maincpu_clk)], or a [raster_line] other than
    [VIC_RASTER_Y(maincpu_clk)], where [maincpu_clk] is the clock of the
    machine the snapshot is read into, [vic_snapshot_read_module] returns
    -1, whatever else the module holds.  In particular it returns -1 for
    the module written from a machine [x] whose [raster_cycle] or
    [raster_line], in the width of its field, is not that of the clock.
    [vic_store], which the reader calls between the decode and the checks,
    is taken to leave the position and the clock alone. *)
Theorem restore_checks_raster_position (s : snapshot_t) st m :
  snapshot_module_open s snap_module_name = Some m →
  keeps_raster_position vic_store →
  (stored_raster_cycle m ≠ VIC_RASTER_CYCLE (maincpu_clk st)
   ∨ stored_raster_line m ≠ VIC_RASTER_Y (maincpu_clk st) →
   (vic_snapshot_read_module s st).1 = -1)
  ∧ ∀ x,
      m_data m = payload x →
      wrap 1 (raster_cycle (vic x)) ≠ VIC_RASTER_CYCLE (maincpu_clk st)
      ∨ wrap 4 (raster_line (vic x)) ≠ VIC_RASTER_Y (maincpu_clk st) →
      (vic_snapshot_read_module s st).1 = -1.
Proof.
  intros Hopen Hstore.
  assert (stored_raster_cycle m ≠ VIC_RASTER_CYCLE (maincpu_clk st)
          ∨ stored_raster_line m ≠ VIC_RASTER_Y (maincpu_clk st) →
          (vic_snapshot_read_module s st).1 = -1) as Hstored.
  { intros Hdrift. unfold vic_snapshot_read_module. cbv zeta. rewrite Hopen.
    destruct (snapshot_version_is_smaller _ _ _ _); [done |].
    destruct (vic_snapshot_read_fields _) as [[] [m1 st1] ] eqn:Hfields; [done |].
    apply read_fields_position in Hfields as (Hc1 & Hl1 & Hk1).
    cbn [maincpu_clk call] in Hk1.
    destruct (SMR_BA _ _ _) as [[] [m2 st2] ] eqn:Hram; [done |].
    apply SMR_BA_position in Hram as (Hv2 & Hk2).
    destruct (read_regs _ _ _) as [[] [m3 st3] ] eqn:Hregs; [done |].
    apply (read_regs_position _ Hstore) in Hregs as (Hc3 & Hl3 & Hk3).
    unfold vic_snapshot_read_checks.
    rewrite Hc3, Hl3, Hk3, Hv2, Hk2, Hc1, Hl1, Hk1.
    destruct (Z.eqb_spec (stored_raster_cycle m) (VIC_RASTER_CYCLE (maincpu_clk st)))
      as [Hcycle | _]; cbn [negb]; [| done].
    destruct (Z.eqb_spec (stored_raster_line m) (VIC_RASTER_Y (maincpu_clk st)))
      as [Hline | _]; cbn [negb]; [| done].
    by destruct Hdrift. }
  split; [exact Hstored |].
  intros x Hdata Hdrift. apply Hstored.
  destruct (stored_position_written m x Hdata) as [-> ->]. exact Hdrift.
Qed.

(** ** The layout of the module *)

Lemma concat_singletons (l : list Z) : concat ((λ b, [b]) <$> l) = l.
Proof. induction l as [| b l IH]; [done |]. cbn. by rewrite IH. Qed.

Lemma payload_chunks st :
  payload st = concat (field_chunks st) ++ raster_snapshot_bytes (raster (vic st)).
Proof.
  unfold payload, field_chunks, encode_fields, scalar_fields.
  rewrite !concat_app, concat_singletons.
  cbn [flat_map fmap list_fmap concat fst snd].
  rewrite <- ?app_assoc, ?app_nil_r. reflexivity.
Qed.

Lemma field_chunks_widths st : length <$> field_chunks st = module_widths.
Proof.
  unfold field_chunks, module_widths, widths_with, scalar_fields.
  rewrite !fmap_app, <- list_fmap_compose.
  cbn [fmap list_fmap fst snd replicate app compose].
  rewrite !length_le_bytes, length_color_ram.
  do 24 f_equal.
Qed.

(** C7, with the count the code has: a successful
    [vic_snapshot_write_module] appends one module named VIC-I and stamped
    0.4 whose bytes are the fields of [field_chunks] one after the other,
    followed by the raster sub-module.  The widths of the fields are those
    of [module_widths]: 2 doublewords, a clock, a byte, 3 words, 9
    doublewords, 2 bytes, 3 doublewords, a clock, a byte, the block of
    0x400 bytes and 16 bytes.  [vic_snapshot_read_module], given this
    module, takes the fields in the same order with the same widths: it
    reaches its consistency checks with the scalar fields and the colour
    RAM decoded, the sixteen register bytes handed to [vic_store], and
    exactly the bytes of the raster sub-module left in the module. *)
Theorem vic_module_layout (s s' : snapshot_t) st :
  vic_snapshot_write_module s st = (0, s') →
  ∃ m,
    s' = s ++ [m]
    ∧ m_name m = snap_module_name ∧ m_major m = SNAP_MAJOR ∧ m_minor m = SNAP_MINOR
    ∧ m_data m = concat (field_chunks st) ++ raster_snapshot_bytes (raster (vic st))
    ∧ length <$> field_chunks st = module_widths
    ∧ ∀ (s2 : snapshot_t) y,
        snapshot_module_open s2 snap_module_name = Some m →
        vic_snapshot_read_module s2 y
        = vic_snapshot_read_checks
            (set_m_data (raster_snapshot_bytes (raster (vic st))) m)
            (restore_regs 0 (register_bytes (vic st))
               (decoded st (call sound_close y))).
Proof.
  intros Hwrite. apply write_module_inv in Hwrite.
  eexists. split; [exact Hwrite |]. cbn [m_name m_major m_minor m_data].
  repeat (split; [reflexivity |]).
  split; [apply payload_chunks |]. split; [apply field_chunks_widths |].
  intros s2 y Hopen.
  by apply (read_module_payload s2 _ st y Hopen).
Qed.

(** ** Every outcome of the writer *)

Lemma set_m_data_set_m_data d1 d2 m : set_m_data d2 (set_m_data d1 m) = set_m_data d2 m.
Proof. done. Qed.

Lemma writes_never : writes [] never.
Proof.
  intros m failed m' [= <- <-]. exists 0%nat.
  split; [| done]. destruct m. cbn. by rewrite app_nil_r.
Qed.

Lemma writes_chunk chunk : writes [chunk] (write_chunk chunk).
Proof.
  intros m failed m'. unfold write_chunk.
  destruct (snapshot_write_ok (m_data m)) eqn:Hok; intros [= <- <-].
  - exists 1%nat. split; [| done]. cbn. by rewrite app_nil_r.
  - exists 0%nat. cbn. rewrite app_nil_r. split; [by destruct m |].
    split; [lia |]. by destruct m.
Qed.

Lemma writes_orelse l1 l2 a b :
  writes l1 a → writes l2 b → writes (l1 ++ l2) (a ||| b).
Proof.
  intros Ha Hb m failed m'. unfold orelse.
  destruct (a m) as [[] m1] eqn:Ham.
  - intros [= <- <-]. destruct (Ha _ _ _ Ham) as (k & -> & Hk & Hrefused).
    exists k. rewrite take_app_le by lia. split; [done |].
    split; [rewrite length_app; lia | done].
  - intros Hbm. destruct (Ha _ _ _ Ham) as (k1 & Hm1 & ->).
    rewrite firstn_all in Hm1. subst m1.
    destruct (Hb _ _ _ Hbm) as (k2 & -> & Hk2).
    cbn [m_data set_m_data] in *.
    exists (length l1 + k2)%nat.
    rewrite take_app_add, concat_app, app_assoc.
    split; [done |]. rewrite length_app.
    destruct failed; [| lia]. destruct Hk2 as [Hk2 Hrefused].
    split; [lia | exact Hrefused].
Qed.

Lemma writes_regs v n : ∀ i,
  writes ((λ k, [uint8_t (regs v !!! k)]) <$> seq i n) (write_regs v i n).
Proof.
  induction n as [| n IH]; intros i; cbn [write_regs seq fmap list_fmap].
  - apply writes_never.
  - apply (writes_orelse [_] _ _ _); [| apply IH].
    unfold SMW_B.
    change (write_field 1 (uint8_t (regs v !!! i)))
      with (write_chunk (le_bytes 1 (uint8_t (regs v !!! i)))).
    rewrite le_bytes_1_uint8. apply writes_chunk.
Qed.

Lemma writes_fields st :
  writes ((λ f, le_bytes f.1 f.2) <$> scalar_fields (vic st))
    (vic_snapshot_write_fields st).
Proof.
  unfold vic_snapshot_write_fields, SMW_B, SMW_W, SMW_DW, SMW_CLOCK.
  repeat match goal with
         | |- context [write_field ?n ?v] =>
             change (write_field n v) with (write_chunk (le_bytes n v))
         end.
  rewrite !le_bytes_uint32, !le_bytes_uint16, !le_bytes_uint8.
  unfold scalar_fields. cbn [fmap list_fmap fst snd].
  match goal with
  | |- writes _ ?a =>
      eassert (writes _ a) as Hchain
        by (repeat (apply writes_orelse; [| apply writes_chunk]); apply writes_never)
  end.
  exact Hchain.
Qed.

Lemma writes_module st :
  writes (module_chunks st)
    (vic_snapshot_write_fields st
     ||| SMW_BA (mem_ram st <$> seqZ 0x9400 0x400)
     ||| write_regs (vic st) 0 0x10
     ||| raster_snapshot_write (raster (vic st))).
Proof.
  unfold module_chunks, field_chunks.
  rewrite (app_assoc _ [color_ram st]).
  apply writes_orelse; [apply writes_orelse; [apply writes_orelse |] |].
  - apply writes_fields.
  - change (SMW_BA (mem_ram st <$> seqZ 0x9400 0x400))
      with (write_chunk (uint8_t <$> (mem_ram st <$> seqZ 0x9400 0x400))).
    unfold color_ram. rewrite (list_fmap_compose (mem_ram st) uint8_t).
    apply writes_chunk.
  - unfold register_bytes. rewrite <- list_fmap_compose. apply writes_regs.
  - apply writes_chunk.
Qed.

Lemma concat_module_chunks st : concat (module_chunks st) = payload st.
Proof.
  unfold module_chunks. rewrite concat_app, payload_chunks. cbn [concat].
  by rewrite app_nil_r.
Qed.

Lemma length_payload st :
  length (payload st)
  = (bytes_before_raster + length (raster_snapshot_bytes (raster (vic st))))%nat.
Proof.
  rewrite payload_chunks, length_app. f_equal.
  rewrite length_concat, field_chunks_widths.
  unfold bytes_before_raster, module_widths, widths_with. cbn. lia.
Qed.

(** The writer as one chain of chunks. *)
Lemma write_module_chain (s : snapshot_t) st :
  vic_snapshot_write_module s st
  = if snapshot_create_ok s then
      let '(failed, m) :=
        (vic_snapshot_write_fields st
         ||| SMW_BA (mem_ram st <$> seqZ 0x9400 0x400)
         ||| write_regs (vic st) 0 0x10
         ||| raster_snapshot_write (raster (vic st)))
          {| m_name := snap_module_name; m_major := SNAP_MAJOR;
             m_minor := SNAP_MINOR; m_data := [] |} in
      (if failed then -1 else snapshot_module_close_result m, s ++ [m])
    else (-1, s).
Proof.
  unfold vic_snapshot_write_module, snapshot_module_create, snapshot_module_close.
  destruct (snapshot_create_ok s); [| done].
  cbv zeta. unfold orelse.
  change (uint8_t SNAP_MAJOR) with SNAP_MAJOR.
  change (uint8_t SNAP_MINOR) with SNAP_MINOR.
  destruct (vic_snapshot_write_fields st _) as [[] m1]; [done |].
  destruct (SMW_BA _ m1) as [[] m2]; [done |].
  destruct (write_regs _ _ _ m2) as [[] m3]; [done |].
  by destruct (raster_snapshot_write _ m3) as [[] m4].
Qed.

(** X13: every outcome of [vic_snapshot_write_module].  When the module
    cannot be created the call returns -1 and the snapshot is as it was.
    Otherwise one module named VIC-I and stamped 0.4 is added, which holds
    the first [k] chunks of the layout, whole: all of them when nothing was
    refused, and then the call returns what closing the module returns;
    fewer when the medium refused the chunk after them, and then the call
    returns -1. *)
Theorem write_module_outcome (s s' : snapshot_t) st r :
  vic_snapshot_write_module s st = (r, s') →
  (snapshot_create_ok s = false ∧ r = -1 ∧ s' = s)
  ∨ ∃ k m,
      snapshot_create_ok s = true
      ∧ s' = s ++ [m]
      ∧ m_name m = snap_module_name ∧ m_major m = SNAP_MAJOR ∧ m_minor m = SNAP_MINOR
      ∧ m_data m = concat (take k (module_chunks st))
      ∧ ((k = length (module_chunks st) ∧ m_data m = payload st
          ∧ r = snapshot_module_close_result m)
         ∨ ((k < length (module_chunks st))%nat
            ∧ snapshot_write_ok (m_data m) = false ∧ r = -1)).
Proof.
  rewrite write_module_chain.
  destruct (snapshot_create_ok s); [| intros [= <- <-]; by left].
  intros Hrun. right.
  destruct ((vic_snapshot_write_fields st ||| _ ||| _ ||| _) _)
    as [failed m] eqn:Hchain.
  injection Hrun as <- <-.
  destruct (writes_module st _ _ _ Hchain) as (k & -> & Hk).
  exists k. eexists. split; [done |]. split; [done |].
  cbn [m_name m_major m_minor m_data set_m_data app].
  repeat (split; [done |]).
  destruct failed.
  - right. destruct Hk as [Hk Hrefused]. by repeat split.
  - left. subst k. rewrite firstn_all.
    split; [done |]. split; [apply concat_module_chunks | done].
Qed.

(** X14: when the module can be created and the medium refuses nothing,
    [vic_snapshot_write_module] returns what closing the module returns and
    has added one module, named VIC-I and stamped 0.4, that holds every
    field: 1106 bytes, two clocks and the raster sub-module. *)
Theorem write_module_succeeds (s : snapshot_t) st :
  snapshot_create_ok s = true →
  (∀ bytes, snapshot_write_ok bytes = true) →
  ∃ m,
    vic_snapshot_write_module s st = (snapshot_module_close_result m, s ++ [m])
    ∧ m_name m = snap_module_name ∧ m_major m = SNAP_MAJOR ∧ m_minor m = SNAP_MINOR
    ∧ m_data m = payload st
    ∧ length (m_data m)
      = (1106 + 2 * CLOCK_WIDTH
         + length (raster_snapshot_bytes (raster (vic st))))%nat.
Proof.
  intros Hcreate Hok. rewrite write_module_chain, Hcreate.
  destruct ((vic_snapshot_write_fields st ||| _ ||| _ ||| _) _)
    as [failed m] eqn:Hchain.
  destruct (writes_module st _ _ _ Hchain) as (k & -> & Hk).
  destruct failed; [destruct Hk as [_ Hrefused]; by rewrite Hok in Hrefused |].
  subst k. rewrite firstn_all, concat_module_chunks.
  eexists. split; [reflexivity |].
  cbn [m_name m_major m_minor m_data set_m_data app].
  repeat (split; [done |]). apply length_payload.
Qed.

(** ** What the reader takes from a module *)

Lemma consumes_never : consumes 0 never.
Proof. intros m st m' st' [= <- <-]. split; [lia |]. by destruct m. Qed.

Lemma consumes_read_into n conv set : consumes n (read_into n conv set).
Proof.
  intros m st m' st'. unfold read_into, read_field.
  destruct (decide (n ≤ length (m_data m))%nat).
  - rewrite bool_decide_eq_true_2 by done. by intros [= <- <-].
  - by rewrite bool_decide_eq_false_2.
Qed.

Lemma consumes_orelse n1 n2 a b :
  consumes n1 a → consumes n2 b → consumes (n1 + n2) (a ||| b).
Proof.
  intros Ha Hb m st m' st'. unfold orelse.
  destruct (a (m, st)) as [[] [m1 st1] ] eqn:Ham; [done |].
  intros Hbm. destruct (Ha _ _ _ _ Ham) as [Hn1 ->].
  destruct (Hb _ _ _ _ Hbm) as [Hn2 ->].
  cbn [m_data set_m_data] in *. rewrite length_drop in Hn2.
  split; [lia |]. by rewrite drop_drop.
Qed.

Lemma consumes_SMR_BA base n : consumes n (SMR_BA base n).
Proof.
  intros m st m' st'. unfold SMR_BA, read_block.
  destruct (decide (n ≤ length (m_data m))%nat).
  - rewrite bool_decide_eq_true_2 by done. by intros [= <- <-].
  - by rewrite bool_decide_eq_false_2.
Qed.

Lemma consumes_read_regs n : ∀ i, consumes n (read_regs i n).
Proof.
  induction n as [| n IH]; intros i; cbn [read_regs].
  - apply consumes_never.
  - apply (consumes_orelse 1 n); [| apply IH].
    intros m st m' st'. unfold read_field.
    destruct (decide (1 ≤ length (m_data m))%nat).
    + rewrite bool_decide_eq_true_2 by done. by intros [= <- <-].
    + by rewrite bool_decide_eq_false_2.
Qed.

Lemma consumes_read_fields : consumes (66 + 2 * CLOCK_WIDTH) vic_snapshot_read_fields.
Proof.
  unfold vic_snapshot_read_fields, SMR_B, SMR_B_INT, SMR_B_UINT, SMR_W_INT,
    SMR_W_UINT, SMR_DW_INT, SMR_DW_UINT, SMR_CLOCK.
  match goal with
  | |- consumes _ ?a =>
      eassert (consumes _ a) as Hchain
        by (repeat (apply consumes_orelse; [| apply consumes_read_into]);
            apply consumes_never)
  end.
  replace (66 + 2 * CLOCK_WIDTH)%nat
    with (0 + 4 + 4 + CLOCK_WIDTH + 1 + 2 + 2 + 2 + 4 + 4 + 4 + 4 + 4 + 4 + 4 + 4 + 4
          + 1 + 1 + 4 + 4 + 4 + CLOCK_WIDTH + 1)%nat by lia.
  exact Hchain.
Qed.

(** X15: a module cut short is turned away.  The reader takes 1106 bytes
    and two clocks from the module before it comes to the raster
    sub-module; when the module it opens holds fewer,
    [vic_snapshot_read_module] returns -1. *)
Theorem read_rejects_truncated_module (s : snapshot_t) st m :
  snapshot_module_open s snap_module_name = Some m →
  (length (m_data m) < 1106 + 2 * CLOCK_WIDTH)%nat →
  (vic_snapshot_read_module s st).1 = -1.
Proof.
  intros Hopen Hshort. unfold vic_snapshot_read_module. cbv zeta. rewrite Hopen.
  destruct (snapshot_version_is_smaller _ _ _ _); [done |].
  destruct (vic_snapshot_read_fields _) as [[] [m1 st1] ] eqn:Hfields; [done |].
  apply consumes_read_fields in Hfields as [Hn1 ->].
  destruct (SMR_BA _ _ _) as [[] [m2 st2] ] eqn:Hram; [done |].
  apply consumes_SMR_BA in Hram as [Hn2 ->].
  destruct (read_regs _ _ _) as [[] [m3 st3] ] eqn:Hregs; [done |].
  apply consumes_read_regs in Hregs as [Hn3 _].
  cbn [m_data set_m_data] in *. rewrite !length_drop in *. lia.
Qed.

(** X16: a snapshot without a module named VIC-I.  The call returns -1;
    [sound_close] has been called and nothing else has happened. *)
Theorem read_rejects_missing_module (s : snapshot_t) st :
  Forall (λ m, m_name m ≠ snap_module_name) s →
  vic_snapshot_read_module s st = (-1, call sound_close st).
Proof.
  intros Hnone. unfold vic_snapshot_read_module, snapshot_module_open. cbv zeta.
  replace (list_find (λ m, m_name m = snap_module_name) s) with
    (@None (nat * snapshot_module_t)); [done |].
  symmetry. apply list_find_None. exact Hnone.
Qed.

(** ** What the reader leaves alone *)

#[local] Instance reader_frame_refl : Reflexive reader_frame.
Proof. by intros st. Qed.

#[local] Instance reader_frame_trans : Transitive reader_frame.
Proof.
  intros st1 st2 st3 (Hc1 & Hm1 & Hp1) (Hc2 & Hm2 & Hp2). split; [congruence |].
  split; [| by etransitivity].
  intros a Ha. by rewrite Hm2, Hm1.
Qed.

Lemma reader_frame_call e st : reader_frame st (call e st).
Proof. split; [done |]. split; [done |]. by apply prefix_app_r. Qed.

Lemma preserves_never R `{!Reflexive R} : preserves R never.
Proof. intros m st failed m' st' [= _ _ <-]. reflexivity. Qed.

Lemma preserves_orelse R `{!Transitive R} a b :
  preserves R a → preserves R b → preserves R (a ||| b).
Proof.
  intros Ha Hb m st failed m' st'. unfold orelse.
  destruct (a (m, st)) as [[] [m1 st1] ] eqn:Ham.
  - intros [= _ _ <-]. by eapply Ha.
  - intros Hbm. etransitivity; [by eapply Ha | by eapply Hb].
Qed.

Lemma preserves_read_into n conv set : preserves reader_frame (read_into n conv set).
Proof.
  intros m st failed m' st'. unfold read_into.
  destruct (read_field n m) as [[v m1] |]; by intros [= _ _ <-].
Qed.

Lemma preserves_SMR_BA : preserves reader_frame (SMR_BA 0x9400 0x400).
Proof.
  intros m st failed m' st'. unfold SMR_BA, read_block.
  destruct (bool_decide (0x400 ≤ length (m_data m))%nat); intros [= _ _ <-]; [| done].
  split; [done |]. split; [| done]. intros a Ha. cbn [mem_ram set_mem_ram].
  rewrite bool_decide_eq_false_2; [done |].
  change (Z.of_nat 0x400) with 0x400. lia.
Qed.

Lemma preserves_read_regs R `{!Reflexive R} `{!Transitive R} n :
  (∀ i b st, R st (vic_store i b st)) →
  ∀ i, preserves R (read_regs i n).
Proof.
  intros Hstore. induction n as [| n IH]; intros i; cbn [read_regs].
  - by apply preserves_never.
  - apply preserves_orelse; [done | | apply IH].
    intros m st failed m' st'.
    destruct (read_field 1 m) as [[b m1] |]; intros [= _ _ <-]; [apply Hstore | done].
Qed.

Lemma preserves_read_fields : preserves reader_frame vic_snapshot_read_fields.
Proof.
  unfold vic_snapshot_read_fields, SMR_B, SMR_B_INT, SMR_B_UINT, SMR_W_INT,
    SMR_W_UINT, SMR_DW_INT, SMR_DW_UINT, SMR_CLOCK.
  repeat (apply preserves_orelse; [apply _ | | apply preserves_read_into]).
  apply preserves_never. apply _.
Qed.

(** X17: what the reader leaves alone, whatever the snapshot holds and
    whatever the call returns.  It writes memory only inside the colour
    RAM, from 0x9400 to 0x97ff, it does not touch the clock, and the first
    thing it does is to call [sound_close], also when it fails; all this as
    long as [vic_store] leaves the clock and the memory outside the colour
    RAM alone and takes back no call. *)
Theorem read_module_frame (s : snapshot_t) st :
  (∀ i b st0, reader_frame st0 (vic_store i b st0)) →
  maincpu_clk (vic_snapshot_read_module s st).2 = maincpu_clk st
  ∧ (∀ a, ¬ (0x9400 ≤ a < 0x9800) →
          mem_ram (vic_snapshot_read_module s st).2 a = mem_ram st a)
  ∧ (calls st ++ [sound_close]) `prefix_of` calls (vic_snapshot_read_module s st).2.
Proof.
  intros Hstore.
  cut (reader_frame (call sound_close st) (vic_snapshot_read_module s st).2).
  { intros (Hclk & Hmem & Hcalls). by repeat split. }
  unfold vic_snapshot_read_module. cbv zeta.
  destruct (snapshot_module_open s snap_module_name) as [m |]; [| done].
  destruct (snapshot_version_is_smaller _ _ _ _); [apply reader_frame_call |].
  destruct (vic_snapshot_read_fields _) as [failed1 [m1 st1] ] eqn:Hfields.
  apply preserves_read_fields in Hfields.
  destruct failed1; [done |].
  destruct (SMR_BA _ _ _) as [failed2 [m2 st2] ] eqn:Hram.
  apply preserves_SMR_BA in Hram.
  assert (reader_frame (call sound_close st) st2) as Hst2 by (by etransitivity).
  destruct failed2; [done |].
  destruct (read_regs _ _ _) as [failed3 [m3 st3] ] eqn:Hregs.
  apply (preserves_read_regs reader_frame _ Hstore) in Hregs.
  assert (reader_frame (call sound_close st) st3) as Hst3 by (by etransitivity).
  destruct failed3; [done |].
  unfold vic_snapshot_read_checks.
  destruct (negb _); [etransitivity; [exact Hst3 | apply reader_frame_call] |].
  destruct (negb _); [etransitivity; [exact Hst3 | apply reader_frame_call] |].
  destruct (raster_snapshot_decode _ _) as [[status r1] rest].
  by destruct (negb _).
Qed.

(** ** A restore that fails late *)

(** X18: a restore that fails its consistency check has already
    overwritten the machine.  A valid machine [x] is written and read back
    into a machine [y] whose clock disagrees with the raster position of
    [x].  The read returns -1 and logs the mismatch, and yet it leaves in
    [y] the scalar members, the registers and the colour RAM of [x]; only
    the raster is still that of [y]. *)
Theorem read_inconsistent_leaves_decoded_state (s s' : snapshot_t) x y :
  vic_valid x →
  (∀ addr value st, vic_store addr value st = store_reg addr value st) →
  Forall (λ m, m_name m ≠ snap_module_name) s →
  (16 ≤ length (regs (vic y)))%nat →
  raster_cycle (vic x) ≠ VIC_RASTER_CYCLE (maincpu_clk y)
  ∨ raster_line (vic x) ≠ VIC_RASTER_Y (maincpu_clk y) →
  vic_snapshot_write_module s x = (0, s') →
  ∃ st' format args,
    vic_snapshot_read_module s' y = (-1, st')
    ∧ same_module_fields (vic st') (vic x)
    ∧ raster (vic st') = raster (vic y)
    ∧ (∀ a, 0x9400 ≤ a < 0x9800 → mem_ram st' a = mem_ram x a)
    ∧ calls st' = calls y ++ [sound_close; log_error format args].
Proof.
  intros Hvalid Hplain Hfresh Hregs Hdrift Hwrite.
  apply write_module_inv in Hwrite.
  set (m := {| m_name := snap_module_name; m_major := SNAP_MAJOR;
               m_minor := SNAP_MINOR; m_data := payload x |}) in *.
  assert (snapshot_module_open s' snap_module_name = Some m) as Hopen.
  { rewrite Hwrite. by apply (open_written s m). }
  rewrite (read_module_payload s' m x y Hopen eq_refl eq_refl).
  rewrite restore_regs_plain by (done || lia).
  match goal with
  | |- context [vic_snapshot_read_checks _ ?st] => set (restored := st)
  end.
  assert (vic restored
          = set_regs (list_inserts 0 (register_bytes (vic x)) (regs (vic y)))
              (set_raster (raster (vic y)) (vic x))) as Hvic.
  { unfold restored.
    cbn [vic set_vic decoded maincpu_clk call mem_ram calls set_regs raster regs].
    rewrite (decoded_vic_valid x _ Hvalid). by destruct (vic x). }
  destruct Hvalid as (_ & _ & _ & _ & _ & _ & _ & _ & _ & _ & _ & _ & _ & _ & _ & _
                      & _ & _ & _ & _ & _ & _ & Hlen & Hbytes & Hram).
  assert (same_module_fields (vic restored) (vic x)) as Hfields.
  { rewrite Hvic. unfold same_module_fields.
    cbn [interlace_enabled interlace_field framestart_cycle raster_cycle
         raster_line area fetch_state text_cols text_lines pending_text_cols
         line_was_blank memptr memptr_inc row_counter buf_offset light_pen vbuf
         regs set_raster set_regs].
    repeat (split; [reflexivity |]).
    rewrite (register_bytes_valid _ Hlen Hbytes).
    assert (length (take 16 (regs (vic x))) = 16%nat) as Hl16
      by (rewrite length_take; lia).
    rewrite <- Hl16 at 1.
    rewrite take_inserts_0 by (rewrite Hl16; exact Hregs). done. }
  assert (raster (vic restored) = raster (vic y)) as Hraster by (by rewrite Hvic).
  assert (∀ a, 0x9400 ≤ a < 0x9800 → mem_ram restored a = mem_ram x a) as Hmem.
  { intros a Ha. unfold restored, decoded. cbn [mem_ram set_vic].
    rewrite bool_decide_eq_true_2 by lia.
    rewrite color_ram_lookup by done. apply uint8_fits. by apply Hram. }
  assert (calls restored = calls y ++ [sound_close]) as Hcalls by done.
  assert (maincpu_clk restored = maincpu_clk y) as Hclk by done.
  assert (raster_cycle (vic restored) = raster_cycle (vic x)
          ∧ raster_line (vic restored) = raster_line (vic x)) as [Hrc Hrl].
  { by destruct Hfields as (_ & _ & _ & ? & ? & _). }
  clearbody restored. unfold vic_snapshot_read_checks.
  rewrite Hrc, Hrl, Hclk.
  destruct (Z.eqb_spec (raster_cycle (vic x)) (VIC_RASTER_CYCLE (maincpu_clk y)))
    as [Hcycle | Hcycle]; cbn [negb].
  - destruct (Z.eqb_spec (raster_line (vic x)) (VIC_RASTER_Y (maincpu_clk y)))
      as [Hline | Hline]; cbn [negb]; [by destruct Hdrift |].
    eexists _, _, _. split; [reflexivity |]. cbn [vic mem_ram calls call].
    repeat (split; [done |]). by rewrite Hcalls, <- app_assoc.
  - eexists _, _, _. split; [reflexivity |]. cbn [vic mem_ram calls call].
    repeat (split; [done |]). by rewrite Hcalls, <- app_assoc.
Qed.

(** ** What the writer saves *)

(** X19: the module holds the chip and the colour RAM and nothing else.
    Two machines that agree on [vic] and on the memory from 0x9400 to
    0x97ff are written to the same module, whatever their clocks and the
    rest of their memory are. *)
Theorem write_module_of_chip_and_color_ram (s : snapshot_t) st1 st2 :
  vic st1 = vic st2 →
  (∀ a, 0x9400 ≤ a < 0x9800 → mem_ram st1 a = mem_ram st2 a) →
  vic_snapshot_write_module s st1 = vic_snapshot_write_module s st2.
Proof.
  intros Hvic Hram.
  assert (mem_ram st1 <$> seqZ 0x9400 0x400 = mem_ram st2 <$> seqZ 0x9400 0x400)
    as Hblock.
  { apply list_fmap_ext. intros i a Ha. apply Hram.
    apply lookup_seqZ in Ha. lia. }
  unfold vic_snapshot_write_module, vic_snapshot_write_fields.
  by rewrite Hvic, Hblock.
Qed.

End Facts.

(** ** The sample configuration *)
Section Examples.
Import Sample.

(** The running machine is a valid state, and the medium of the sample
    takes its module. *)
Lemma running_valid : vic_valid running.
Proof.
  unfold vic_valid, int_range, fits. cbn -[Z.pow Z.of_nat].
  repeat (split; [lia |]).
  split; [repeat constructor; lia |].
  intros a _. destruct (a =? 37888); lia.
Qed.

Lemma write_running : vic_snapshot_write_module [] running = (0, saved).
Proof. vm_compute. reflexivity. Qed.

(** C4: the running machine is saved and read back after a reset. *)
Lemma snapshot_round_trip_witness :
  ∃ m st',
    saved = [] ++ [m]
    ∧ vic_snapshot_read_module saved (blank 1000)
      = (snapshot_module_close_result (set_m_data [] m), st')
    ∧ same_module_fields (vic st') (vic running)
    ∧ raster (vic st') = raster_force_repaint (raster (vic running))
    ∧ (∀ a, 0x9400 ≤ a < 0x9800 → mem_ram st' a = mem_ram running a)
    ∧ (∀ a, ¬ (0x9400 ≤ a < 0x9800) → mem_ram st' a = mem_ram (blank 1000) a)
    ∧ maincpu_clk st' = maincpu_clk (blank 1000).
Proof.
  apply (snapshot_round_trip [] saved running (blank 1000)).
  - exact running_valid.
  - reflexivity.
  - reflexivity.
  - constructor.
  - cbn. lia.
  - reflexivity.
  - reflexivity.
  - exact write_running.
Defined.

(** C5: a module stamped 0.3 is turned away and the machine keeps its
    state. *)
Lemma read_rejects_older_version_witness :
  ∃ st',
    vic_snapshot_read_module saved_by_0_3 (blank 1000) = (-1, st')
    ∧ vic st' = vic (blank 1000)
    ∧ mem_ram st' = mem_ram (blank 1000)
    ∧ maincpu_clk st' = 1000
    ∧ calls st'
      = [] ++ [sound_close;
               log_error "Snapshot module version (%d.%d) older than %d.%d."
                 [0; 3; SNAP_MAJOR; SNAP_MINOR]].
Proof.
  apply (read_rejects_older_version saved_by_0_3 (blank 1000)
           {| m_name := snap_module_name; m_major := 0; m_minor := 3;
              m_data := payload running |}).
  - reflexivity.
  - right. split; [reflexivity |]. unfold SNAP_MINOR. cbn. lia.
Defined.

(** C7: the module of the running machine. *)
Lemma vic_module_layout_witness :
  ∃ m,
    saved = [] ++ [m]
    ∧ m_name m = snap_module_name ∧ m_major m = SNAP_MAJOR ∧ m_minor m = SNAP_MINOR
    ∧ m_data m
      = concat (field_chunks running) ++ raster_snapshot_bytes (raster (vic running))
    ∧ length <$> field_chunks running = module_widths
    ∧ ∀ (s2 : snapshot_t) y,
        snapshot_module_open s2 snap_module_name = Some m →
        vic_snapshot_read_module s2 y
        = vic_snapshot_read_checks
            (set_m_data (raster_snapshot_bytes (raster (vic running))) m)
            (restore_regs 0 (register_bytes (vic running))
               (decoded running (call sound_close y))).
Proof.
  apply (vic_module_layout [] saved running). exact write_running.
Defined.

(** C7, as claimed, fails: the writer puts nine doublewords after the three
    words, not eight.  In the module of the running machine the sixteenth
    field is the doubleword of [buf_offset], where the claimed layout has
    the byte of [light_pen.state], and the module is four bytes longer than
    the claimed fields and the raster together. *)
Lemma vic_module_has_nine_doublewords :
  ∃ m,
    vic_snapshot_write_module [] running = (0, [m])
    ∧ m_data m
      = concat (field_chunks running) ++ raster_snapshot_bytes (raster (vic running))
    ∧ length <$> field_chunks running = module_widths
    ∧ field_chunks running !! 15%nat = Some (le_bytes 4 (buf_offset (vic running)))
    ∧ module_widths !! 15%nat = Some 4%nat
    ∧ claimed_widths !! 15%nat = Some 1%nat
    ∧ length (m_data m)
      = (sum_list claimed_widths + 4
         + length (raster_snapshot_bytes (raster (vic running))))%nat.
Proof.
  eexists. split; [vm_compute; reflexivity |].
  split; [vm_compute; reflexivity |].
  split; [vm_compute; reflexivity |].
  split; [vm_compute; reflexivity |].
  split; [vm_compute; reflexivity |].
  split; [vm_compute; reflexivity |].
  vm_compute; reflexivity.
Qed.

(** C8: the snapshot taken at clock 1000, in cycle 6 of line 14, is read
    into a machine whose clock is 1001, in cycle 7 of that line, and into
    one whose clock is 1071, in cycle 6 of line 15. *)
Lemma restore_checks_raster_position_witness :
  (vic_snapshot_read_module saved (blank 1001)).1 = -1
  ∧ (vic_snapshot_read_module saved (blank 1071)).1 = -1.
Proof.
  assert (keeps_raster_position vic_store) as Hstore.
  { intros i b st. split; [reflexivity |]. split; reflexivity. }
  assert (snapshot_module_open saved snap_module_name
          = Some {| m_name := snap_module_name; m_major := SNAP_MAJOR;
                    m_minor := SNAP_MINOR; m_data := payload running |}) as Hopen
    by (vm_compute; reflexivity).
  split.
  - apply (proj1 (restore_checks_raster_position saved (blank 1001) _ Hopen Hstore)).
    left. vm_compute. discriminate.
  - apply (proj2 (restore_checks_raster_position saved (blank 1071) _ Hopen Hstore)
             running); [reflexivity |].
    right. vm_compute. discriminate.
Defined.

(** X13: the medium of the sample refuses nothing. *)
Lemma write_module_outcome_witness :
  (snapshot_create_ok [] = false ∧ 0 = -1 ∧ saved = [])
  ∨ ∃ k m,
      snapshot_create_ok [] = true
      ∧ saved = [] ++ [m]
      ∧ m_name m = snap_module_name ∧ m_major m = SNAP_MAJOR ∧ m_minor m = SNAP_MINOR
      ∧ m_data m = concat (take k (module_chunks running))
      ∧ ((k = length (module_chunks running) ∧ m_data m = payload running
          ∧ 0 = snapshot_module_close_result m)
         ∨ ((k < length (module_chunks running))%nat
            ∧ snapshot_write_ok (m_data m) = false ∧ 0 = -1)).
Proof. apply (write_module_outcome [] saved running 0). exact write_running. Defined.

(** X14: the module of the running machine has 1106 + 16 + 2 bytes. *)
Lemma write_module_succeeds_witness :
  ∃ m,
    vic_snapshot_write_module [] running = (snapshot_module_close_result m, [] ++ [m])
    ∧ m_name m = snap_module_name ∧ m_major m = SNAP_MAJOR ∧ m_minor m = SNAP_MINOR
    ∧ m_data m = payload running
    ∧ length (m_data m)
      = (1106 + 2 * CLOCK_WIDTH
         + length (raster_snapshot_bytes (raster (vic running))))%nat.
Proof. apply (write_module_succeeds [] running); [reflexivity | by intros bytes]. Defined.

(** X15: a module of three bytes. *)
Lemma read_rejects_truncated_module_witness :
  (vic_snapshot_read_module
     [ {| m_name := snap_module_name; m_major := SNAP_MAJOR; m_minor := SNAP_MINOR;
          m_data := [1; 2; 3] |} ] (blank 1000)).1 = -1.
Proof.
  apply (read_rejects_truncated_module _ _
           {| m_name := snap_module_name; m_major := SNAP_MAJOR; m_minor := SNAP_MINOR;
              m_data := [1; 2; 3] |}).
  - reflexivity.
  - cbn. lia.
Defined.

(** X16: the empty snapshot. *)
Lemma read_rejects_missing_module_witness :
  vic_snapshot_read_module [] (blank 1000) = (-1, call sound_close (blank 1000)).
Proof. apply read_rejects_missing_module. constructor. Defined.

(** X17: the snapshot of the running machine read at clock 1001. *)
Lemma read_module_frame_witness :
  maincpu_clk (vic_snapshot_read_module saved (blank 1001)).2 = 1001
  ∧ (∀ a, ¬ (0x9400 ≤ a < 0x9800) →
          mem_ram (vic_snapshot_read_module saved (blank 1001)).2 a = 0)
  ∧ ([] ++ [sound_close]) `prefix_of` calls (vic_snapshot_read_module saved (blank 1001)).2.
Proof.
  apply (read_module_frame saved (blank 1001)).
  intros i b st0. by repeat split.
Defined.

(** X18: the snapshot taken at clock 1000, in cycle 6, is read at clock
    1001, in cycle 7. *)
Lemma read_inconsistent_leaves_decoded_state_witness :
  ∃ st' format args,
    vic_snapshot_read_module saved (blank 1001) = (-1, st')
    ∧ same_module_fields (vic st') (vic running)
    ∧ raster (vic st') = raster (vic (blank 1001))
    ∧ (∀ a, 0x9400 ≤ a < 0x9800 → mem_ram st' a = mem_ram running a)
    ∧ calls st' = calls (blank 1001) ++ [sound_close; log_error format args].
Proof.
  apply (read_inconsistent_leaves_decoded_state [] saved running (blank 1001)).
  - exact running_valid.
  - reflexivity.
  - constructor.
  - cbn. lia.
  - left. vm_compute. discriminate.
  - exact write_running.
Defined.

(** X19: the running machine with another clock and other memory below
    the colour RAM. *)
Lemma write_module_of_chip_and_color_ram_witness :
  vic_snapshot_write_module [] running
  = vic_snapshot_write_module []
      {| vic := chip_at_1000;
         mem_ram := λ a, if a =? 0x9400 then 6 else if a =? 0 then 1 else 0;
         maincpu_clk := 5;
         calls := [sound_close] |}.
Proof.
  apply write_module_of_chip_and_color_ram; [reflexivity |].
  intros a Ha. cbn [mem_ram running].
  destruct (a =? 37888); [reflexivity |].
  destruct (Z.eqb_spec a 0); [lia | reflexivity].
Defined.

End Examples.

End VicSnapshotFacts.
